(** * FontWidthConverter: a shallow embedding of [convert_font.py]

    The converter reads a font definition (a list of glyph providers),
    turns every provider into a [space] provider whose advances are the
    widths of the original glyphs times [width_factor], merges the
    filter-less space providers and writes the new definition.

    Modelling conventions.
    - Python [int] is [Z]; Python [float] is the primitive binary64
      [float]; a JSON number is a [pynum] (one or the other).
    - A Python [dict] is an insertion-ordered association list ([dict]),
      updated with [dict_set] (overwrite in place, else append).
    - Exceptions are the [Raise] results of the [result] monad.
    - The resource pack is a finite map from relative paths to files. *)

From Stdlib Require Import Floats ZArith QArith Qpower Ascii String.
From stdpp Require Import base option list strings gmap.

Open Scope Z_scope.

(** ** Exceptions and the error monad *)

Inductive exn : Type :=
| ValueError
| ZeroDivisionError
| OverflowError
| UnboundLocalError
| KeyError
| FileNotFoundError
| JSONDecodeError
| UnknownProvider (kind : string)
| RecursionError
| AttributeError.

Inductive result (A : Type) : Type :=
| Ok (a : A)
| Raise (e : exn).
Arguments Ok {A} a.
Arguments Raise {A} e.

#[global] Instance result_ret : MRet result := fun A a => Ok a.
#[global] Instance result_bind : MBind result := fun A B f m =>
  match m with
  | Ok a => f a
  | Raise e => Raise e
  end.

(** [for x in l: acc = f(acc, x)], where the body may raise. *)
Fixpoint foldM {A B : Type} (f : A -> B -> result A) (l : list B) (acc : A)
  : result A :=
  match l with
  | [] => Ok acc
  | x :: l' => acc' ← f acc x; foldM f l' acc'
  end.

(** ** Python numbers *)

Inductive pynum : Type :=
| PyInt (z : Z)
| PyFloat (f : float).

(** [float(z)]: round to nearest, ties to even; an [int] that rounds
    beyond the largest double raises [OverflowError]. *)
Definition float_of_int (z : Z) : result float :=
  match binary_normalize prec emax z 0 false with
  | S754_infinity _ => Raise OverflowError
  | sf => Ok (SF2Prim sf)
  end.

(** The integer part of a finite [float], truncated toward zero. *)
Definition float_trunc (f : float) : Z :=
  match Prim2SF f with
  | S754_finite s m e =>
      let a := if 0 <=? e then Z.pos m * 2 ^ e else Z.pos m / 2 ^ (- e) in
      if s then - a else a
  | _ => 0
  end.

(** [int(f)]: raises on infinities and NaN. *)
Definition int_of_float (f : float) : result Z :=
  match Prim2SF f with
  | S754_infinity _ => Raise OverflowError
  | S754_nan => Raise ValueError
  | _ => Ok (float_trunc f)
  end.

(** [f.is_integer()]. *)
Definition float_is_integer (f : float) : bool :=
  match Prim2SF f with
  | S754_zero _ => true
  | S754_finite _ m e => (0 <=? e) || (Z.pos m mod 2 ^ (- e) =? 0)
  | _ => false
  end.

(** [a / b] on two [int]s: the correctly rounded quotient. *)
Definition int_truediv (a b : Z) : result float :=
  if b =? 0 then Raise ZeroDivisionError else
  let neg := xorb (a <? 0) (b <? 0) in
  if a =? 0 then Ok (if neg then (-0)%float else 0%float) else
  let k := Z.max 0 (56 + Z.log2 (Z.abs b) - Z.log2 (Z.abs a)) in
  let n := Z.abs a * 2 ^ k in
  let q := n / Z.abs b in
  let sticky := if n mod Z.abs b =? 0 then 0 else 1 in
  let m := 2 * q + sticky in
  match binary_normalize prec emax (if neg then - m else m) (- k - 1) false with
  | S754_infinity _ => Raise OverflowError
  | sf => Ok (SF2Prim sf)
  end.

(** [f / z] with a [float] on the left and an [int] on the right. *)
Definition float_div_int (f : float) (z : Z) : result float :=
  d ← float_of_int z;
  if z =? 0 then Raise ZeroDivisionError else Ok (f / d)%float.

(** [z * f] with an [int] on the left. *)
Definition int_mul_float (z : Z) (f : float) : result float :=
  x ← float_of_int z; Ok (x * f)%float.

(** [v * f] for a JSON number [v]. *)
Definition num_mul_float (v : pynum) (f : float) : result float :=
  match v with
  | PyInt z => int_mul_float z f
  | PyFloat x => Ok (x * f)%float
  end.

(** [z.bit_length()]. *)
Definition bit_length (z : Z) : Z :=
  if z =? 0 then 0 else Z.log2 (Z.abs z) + 1.

(** The exact rational value of a number; [None] for infinities and NaN. *)
Definition float_value (f : float) : option Q :=
  match Prim2SF f with
  | S754_zero _ => Some 0%Q
  | S754_finite s m e =>
      let a := (inject_Z (Z.pos m) * Qpower 2 e)%Q in
      Some (if s then (- a)%Q else a)
  | _ => None
  end.

Definition num_value (v : pynum) : option Q :=
  match v with
  | PyInt z => Some (inject_Z z)
  | PyFloat f => float_value f
  end.

(** ** Characters, strings and dictionaries *)

(** A character is its code point; [chr] raises outside the Unicode range. *)
Abbreviation char := Z (only parsing).

Definition chr (code : Z) : result char :=
  if (0 <=? code) && (code <? 1114112) then Ok code else Raise ValueError.

(** Insertion-ordered dictionary with character keys. *)
Abbreviation dict V := (list (char * V)) (only parsing).

Fixpoint dict_get {V} (d : dict V) (k : char) : option V :=
  match d with
  | [] => None
  | (k', v) :: d' => if k' =? k then Some v else dict_get d' k
  end.

(** [d[k] = v]. *)
Fixpoint dict_set {V} (k : char) (v : V) (d : dict V) : dict V :=
  match d with
  | [] => [(k, v)]
  | (k', v') :: d' =>
      if k' =? k then (k', v) :: d' else (k', v') :: dict_set k v d'
  end.

(** [d.update(other)]. *)
Definition dict_update {V} (d other : dict V) : dict V :=
  fold_left (fun acc kv => dict_set kv.1 kv.2 acc) other d.

Definition dict_keys {V} (d : dict V) : list char := d.*1.

(** An optional assignment [d[k] = v], as a loop body performs it when
    it does not [continue]. *)
Definition assign {V} (d : dict V) (e : option (char * V)) : dict V :=
  match e with
  | None => d
  | Some (k, v) => dict_set k v d
  end.

(** ** Hexadecimal text *)

Definition hex_digit (c : ascii) : option Z :=
  let n := Z.of_N (N_of_ascii c) in
  if (48 <=? n) && (n <=? 57) then Some (n - 48)
  else if (97 <=? n) && (n <=? 102) then Some (n - 87)
  else if (65 <=? n) && (n <=? 70) then Some (n - 55)
  else None.

Fixpoint hex_acc (acc : Z) (s : list ascii) : option Z :=
  match s with
  | [] => Some acc
  | c :: s' =>
      match hex_digit c with
      | Some d => hex_acc (16 * acc + d) s'
      | None => None
      end
  end.

(** [int(s, 16)] on a string of hexadecimal digits.  The sign, the [0x]
    prefix, underscores and surrounding blanks that Python also accepts
    are outside the model: they raise here. *)
Definition int16 (s : list ascii) : result Z :=
  match s with
  | [] => Raise ValueError
  | _ => match hex_acc 0 s with
         | Some z => Ok z
         | None => Raise ValueError
         end
  end.

(** [s[a:b]] for [0 <= a <= b]. *)
Definition slice {A} (a b : nat) (s : list A) : list A :=
  take (b - a) (drop a s).

(** ** The hex-bitmap decoder *)

Definition read_hex_row (img : list ascii) (row_len : nat)
    (acc : Z * Z) (i : nat) : result (Z * Z) :=
  let '(min_pixel, max_pixel) := acc in
  row ← int16 (slice (i * row_len) ((i + 1) * row_len) img);
  if row =? 0 then Ok (min_pixel, max_pixel)
  else
    let low := bit_length (Z.land row (- row)) in
    let high := bit_length row in
    Ok (Z.min low min_pixel, Z.max high max_pixel).

Definition read_hex_bitmap (img : list ascii) : result Z :=
  let row_len := (length img / 16)%nat in
  '(min_pixel, max_pixel) ←
    foldM (read_hex_row img row_len) (seq 0 16) (Z.of_nat row_len * 4, -1);
  Ok (if max_pixel =? -1 then 0 else max_pixel - min_pixel + 1).

(** ** Providers and files *)

(** An opaque JSON value, as carried by a provider's [filter] field. *)
#[local] Unset Elimination Schemes.
Inductive json : Type :=
| JNull
| JBool (b : bool)
| JNum (n : pynum)
| JStr (s : string)
| JArr (items : list json)
| JObj (fields : list (string * json)).
#[local] Set Elimination Schemes.

Inductive unihex_mode : Type := ModeNone | ModeAscii | ModeAllNamed | ModeAll.

#[global] Instance unihex_mode_eq_dec : EqDecision unihex_mode.
Proof. solve_decision. Defined.

(** One entry of a unihex provider's [size_overrides]. *)
Record size_override : Type := {
  so_from : char;
  so_to : char;
  so_left : Z;
  so_right : Z;
}.

(** The [skip] field of a ttf provider: a string or a list of strings. *)
Inductive skip_spec : Type :=
| SkipStr (s : list char)
| SkipList (l : list (list char)).

Inductive provider_body : Type :=
| Reference (id : string)
| Space (advances : dict pynum)
| Ttf (file : string) (size oversample : option Z) (skip : option skip_spec)
| Bitmap (file : string) (chars : list (list char)) (height : option Z)
| Unihex (hex_file : string) (size_overrides : list size_override)
| OtherKind (type : string).

Record provider : Type := {
  body : provider_body;
  filter : option json;
}.

(** A decoded RGBA image: its size and the alpha channel of each pixel.
    The scanner only reads pixels inside the image. *)
Record image : Type := {
  img_width : Z;
  img_height : Z;
  img_alpha : Z -> Z -> Z;
}.

(** A vector font: the character map and, per pixel size and glyph
    index, the unhinted horizontal advance in 26.6 fixed point. *)
Record face : Type := {
  face_chars : list (Z * Z);
  face_advance_x : Z -> Z -> Z;
}.

Inductive file : Type :=
| FontJson (providers : list provider)
| ImageFile (img : image)
| ZipArchive (entries : list (string * list string))
| FontFace (f : face).

(** A resource pack: files by their path relative to the pack root. *)
Abbreviation pack := (gmap string file).

(** The converter object ([self]).  [width_factor] is a float, as the
    command line parses it; the target pack is part of the [state];
    [verbose] only drives progress messages and is left out. *)
Record converter : Type := {
  suffix : string;
  width_factor : float;
  fallback_pack : option pack;
  mode : unihex_mode;
}.

(** The target pack, which conversions write into, and the log of the
    definitions written so far, oldest first. *)
Record state : Type := {
  target : pack;
  written : list (string * list provider);
}.

(** ** Resource paths *)

Definition colon : ascii := ":"%char.

(** [s.split(":")] unpacked into exactly two names. *)
Fixpoint split_colon (s : list ascii) : result (list ascii * list ascii) :=
  match s with
  | [] => Raise ValueError
  | c :: s' =>
      if Ascii.eqb c colon then
        if bool_decide (colon ∈ s') then Raise ValueError else Ok ([], s')
      else
        '(a, b) ← split_colon s'; Ok (c :: a, b)
  end.

Inductive root : Type := TargetRoot | FallbackRoot.

(** [get_resource_path]; [os.path.join] is taken as joining with [/],
    which is what it does when the namespace and the parts of the
    location are non-empty relative names: an absolute part would
    restart the path and an empty one be dropped. *)
Definition get_resource_path (self : converter) (tgt : pack)
    (resource_id resource_type extension : string) (write : bool)
  : result (root * string) :=
  let rid := list_ascii_of_string resource_id in
  '(namespace, location) ←
    (if bool_decide (colon ∈ rid) then
       '(a, b) ← split_colon rid;
       Ok (string_of_list_ascii a, string_of_list_ascii b)
     else Ok ("minecraft"%string, resource_id));
  let location := (location +:+ extension)%string in
  let dir := if String.eqb resource_type "" then ""%string
             else (resource_type +:+ "/")%string in
  let path := ("assets/" +:+ namespace +:+ "/" +:+ dir +:+ location)%string in
  if write then Ok (TargetRoot, path)
  else match fallback_pack self with
       | None => Ok (TargetRoot, path)
       | Some _ =>
           if bool_decide (is_Some (tgt !! path)) then Ok (TargetRoot, path)
           else Ok (FallbackRoot, path)
       end.

Definition get_font_path (self : converter) (tgt : pack)
    (font_id : string) (write : bool) : result (root * string) :=
  get_resource_path self tgt font_id "font" ".json" write.

(** Opening a resolved path for reading. *)
Definition open_file (self : converter) (tgt : pack) (p : root * string)
  : result file :=
  let pk := match p.1 with
            | TargetRoot => Some tgt
            | FallbackRoot => fallback_pack self
            end in
  match pk ≫= (fun m => m !! p.2) with
  | Some f => Ok f
  | None => Raise FileNotFoundError
  end.

(** ** Space providers *)

Definition space (advances : dict pynum) : provider :=
  {| body := Space advances; filter := None |}.

Definition convert_space_provider (self : converter) (advances : dict pynum)
  : result provider :=
  adv ← foldM (fun acc kv =>
                 x ← num_mul_float kv.2 (width_factor self);
                 Ok (dict_set kv.1 (PyFloat x) acc))
              advances [];
  Ok (space adv).

(** ** Vector fonts *)

Definition skip_chars (skip : option skip_spec) : list char :=
  match skip with
  | None => []
  | Some (SkipStr s) => s
  | Some (SkipList l) => concat l
  end.

Definition convert_ttf_provider (self : converter) (tgt : pack)
    (file : string) (size oversample : option Z) (skip : option skip_spec)
  : result provider :=
  path ← get_resource_path self tgt file "font" "" false;
  let size := default 11 size in
  let oversample := default 1 oversample in
  let skip := skip_chars skip in
  f ← open_file self tgt path;
  match f with
  | FontFace fc =>
      let i := size * oversample in
      advances ← foldM (fun acc ci =>
                          ch ← chr ci.1;
                          if bool_decide (ch ∈ skip) then Ok acc
                          else
                            a ← int_truediv (face_advance_x fc i ci.2) 64;
                            advance ← float_div_int a oversample;
                            Ok (dict_set ch
                                  (PyFloat (advance * width_factor self)) acc))
                       (face_chars fc) [];
      Ok (space advances)
  | _ => Raise ValueError
  end.

(** ** Bitmap glyph sheets *)

(** [a // b] *)
Definition floordiv (a b : Z) : result Z :=
  if b =? 0 then Raise ZeroDivisionError else Ok (a / b).

Definition scan_bitmap_col (img : image) (start_x start_y height : Z) : bool :=
  existsb (fun i => negb (img_alpha img start_x (start_y + Z.of_nat i) =? 0))
          (seq 0 (Z.to_nat height)).

(** The [for i in range(n - 1, -1, -1)] loop with its [else] branch. *)
Fixpoint scan_width (scan : Z -> bool) (n : nat) : Z :=
  match n with
  | O => 0
  | S i => if scan (Z.of_nat i) then Z.of_nat i + 1 else scan_width scan i
  end.

Definition glyph_width (img : image) (char_width char_height : Z) (x y : nat)
  : Z :=
  let cursor_x := Z.of_nat x * char_width in
  let cursor_y := Z.of_nat y * char_height in
  scan_width (fun i => scan_bitmap_col img (cursor_x + i) cursor_y char_height)
             (Z.to_nat char_width).

(** [(int(0.5 + width * height / char_height) + 1) * width_factor] *)
Definition bitmap_advance (self : converter) (width height char_height : Z)
  : result float :=
  w ← int_truediv (width * height) char_height;
  t ← int_of_float (0.5 + w)%float;
  int_mul_float (t + 1) (width_factor self).

Definition is_blank (c : char) : bool := (c =? 0) || (c =? 32).

(** What one glyph cell assigns: [result[char] = ...], or nothing for
    the NUL and space characters. *)
Definition cell_entry (self : converter) (img : image)
    (height char_width char_height : Z) (y : nat) (xc : nat * char)
  : result (option (char * pynum)) :=
  if is_blank xc.2 then Ok None
  else
    let width := glyph_width img char_width char_height xc.1 y in
    a ← bitmap_advance self width height char_height;
    Ok (Some (xc.2, PyFloat a)).

Definition convert_cell (self : converter) (img : image)
    (height char_width char_height : Z) (y : nat)
    (res : dict pynum) (xc : nat * char) : result (dict pynum) :=
  e ← cell_entry self img height char_width char_height y xc;
  Ok (assign res e).

Definition enumerate {A} (l : list A) : list (nat * A) :=
  zip (seq 0 (length l)) l.

Definition convert_row (self : converter) (img : image) (height : Z)
    (num_rows : nat) (res : dict pynum) (yl : nat * list char)
  : result (dict pynum) :=
  let num_cols := length yl.2 in
  char_height ← floordiv (img_height img) (Z.of_nat num_rows);
  char_width ← floordiv (img_width img) (Z.of_nat num_cols);
  foldM (convert_cell self img height char_width char_height yl.1)
        (enumerate yl.2) res.

Definition convert_bitmap_provider (self : converter) (tgt : pack)
    (file : string) (chars : list (list char)) (height : option Z)
  : result provider :=
  path ← get_resource_path self tgt file "textures" "" false;
  let height := default 8 height in
  f ← open_file self tgt path;
  match f with
  | ImageFile img =>
      res ← foldM (convert_row self img height (length chars))
                  (enumerate chars) [];
      Ok (space res)
  | _ => Raise ValueError
  end.

(** ** Unihex archives *)

Definition endswith (s suf : string) : bool :=
  let l := list_ascii_of_string s in
  let t := list_ascii_of_string suf in
  bool_decide (drop (length l - length t) l = t).

(** The text of the last archive entry whose name ends in [.hex]. *)
Definition find_hex (entries : list (string * list string))
  : option (list string) :=
  fold_left (fun acc e => if endswith e.1 ".hex" then Some e.2 else acc)
            entries None.

(** [width = 0 if min_code == max_code == 0 else diff + 1] *)
Definition override_width (o : size_override) : Z :=
  let diff := so_right o - so_left o in
  if (so_from o =? so_to o) && (so_to o =? 0) then 0 else diff + 1.

Definition build_overrides (l : list size_override) : list (Z * Z * Z) :=
  (fun o => (so_from o, so_to o, override_width o)) <$> l.

(** The inner [for ... in overrides] loop: the first range holding [code]. *)
Fixpoint find_override (overrides : list (Z * Z * Z)) (code : Z) : option Z :=
  match overrides with
  | [] => None
  | (min_code, max_code, override_width) :: rest =>
      if (min_code <=? code) && (code <=? max_code) then Some override_width
      else find_override rest code
  end.

(** [(int(0.5 * width) + 1) * width_factor] *)
Definition unihex_advance (self : converter) (width : Z) : result float :=
  x ← float_of_int width;
  t ← int_of_float (0.5 * x)%float;
  int_mul_float (t + 1) (width_factor self).

(** The width chosen for a line, or [None] when the line is skipped. *)
Definition unihex_width (self : converter) (overrides : list (Z * Z * Z))
    (code : Z) (img : list ascii) : result (option Z) :=
  if bool_decide (mode self = ModeAscii) && (256 <? code) then Ok None
  else match find_override overrides code with
       | Some w => Ok (Some w)
       | None =>
           if bool_decide (mode self = ModeAllNamed) && (256 <? code)
           then Ok None
           else w ← read_hex_bitmap img; Ok (Some w)
       end.

(** What one line of the hex file assigns: [advances[chr(code)] = ...]. *)
Definition unihex_entry (self : converter) (overrides : list (Z * Z * Z))
    (line : string) : result (option (char * pynum)) :=
  '(code, img) ← split_colon (list_ascii_of_string line);
  code ← int16 code;
  w ← unihex_width self overrides code img;
  match w with
  | None => Ok None
  | Some width =>
      a ← unihex_advance self width;
      c ← chr code;
      Ok (Some (c, PyFloat a))
  end.

Definition unihex_line (self : converter) (overrides : list (Z * Z * Z))
    (advances : dict pynum) (line : string) : result (dict pynum) :=
  e ← unihex_entry self overrides line;
  Ok (assign advances e).

Definition unihex_advances (self : converter) (tgt : pack)
    (hex_file : string) (size_overrides : list size_override)
  : result (dict pynum) :=
  path ← get_resource_path self tgt hex_file "" "" false;
  f ← open_file self tgt path;
  match f with
  | ZipArchive entries =>
      let overrides := build_overrides size_overrides in
      match find_hex entries with
      | None => Raise UnboundLocalError
      | Some lines => foldM (unihex_line self overrides) lines []
      end
  | _ => Raise ValueError
  end.

Definition convert_unihex_provider (self : converter) (tgt : pack)
    (hex_file : string) (size_overrides : list size_override)
  : result (option provider) :=
  if bool_decide (mode self = ModeNone) then Ok None
  else
    advances ← unihex_advances self tgt hex_file size_overrides;
    if bool_decide (length advances = 0%nat) then Ok None
    else Ok (Some (space advances)).

(** ** Numeric normalization *)

(** The value of [v.is_integer()] where the call returns: on a [float]
    its own test, on an [int] [True].  An [int] has the method from
    Python 3.12 on only; [is_integer] below makes the call itself, with
    the interpreter as a parameter. *)
Definition num_is_integer (v : pynum) : bool :=
  match v with
  | PyInt _ => true
  | PyFloat f => float_is_integer f
  end.

(** [int(v)] for a [v] that [is_integer]. *)
Definition num_int (v : pynum) : Z :=
  match v with
  | PyInt z => z
  | PyFloat f => float_trunc f
  end.

Definition assure_num (v : pynum) : pynum :=
  if num_is_integer v then PyInt (num_int v) else v.

(** [for k in advances: if advances[k].is_integer(): advances[k] = int(...)] *)
Definition assure_advances (advances : dict pynum) : dict pynum :=
  fold_left (fun d k =>
               match dict_get d k with
               | Some v =>
                   if num_is_integer v then dict_set k (PyInt (num_int v)) d
                   else d
               | None => d
               end)
            (dict_keys advances) advances.

Definition assure_integers (p : provider) : provider :=
  match body p with
  | Space advances =>
      {| body := Space (assure_advances advances); filter := filter p |}
  | _ => p
  end.

(** The call [v.is_integer()].  Every [float] has the method; an [int]
    has it from Python 3.12 on ([py312]) and raises [AttributeError] on
    earlier interpreters. *)
Definition is_integer (py312 : bool) (v : pynum) : result bool :=
  match v with
  | PyInt _ => if py312 then Ok true else Raise AttributeError
  | PyFloat f => Ok (float_is_integer f)
  end.

(** The loop of [assure_integers] on a given interpreter. *)
Definition assure_advances_on (py312 : bool) (advances : dict pynum)
  : result (dict pynum) :=
  foldM (fun (d : dict pynum) k =>
           match dict_get d k with
           | Some v =>
               is_integer py312 v ≫= fun w : bool =>
               if w then Ok (dict_set k (PyInt (num_int v)) d) else Ok d
           | None => Ok d
           end)
        (dict_keys advances) advances.

(** [assure_integers] on a given interpreter.  From Python 3.12 on, and
    on every interpreter for the maps of reals that the converters
    compute, it returns what [assure_integers] above gives. *)
Definition assure_integers_on (py312 : bool) (p : provider) : result provider :=
  match body p with
  | Space advances =>
      adv ← assure_advances_on py312 advances;
      Ok {| body := Space adv; filter := filter p |}
  | _ => Ok p
  end.

(** ** The provider converter *)

Definition convert_reference_provider
    (convert_font : string -> state -> result (string * state))
    (font_id : string) (st : state) : result (provider * state) :=
  '(new_font_id, st') ← convert_font font_id st;
  Ok ({| body := Reference new_font_id; filter := None |}, st').

(** [convert_provider]; [None] is Python's [None].  The recursive call
    to [convert_font] is passed in, so that the two definitions can be
    tied together by the recursion depth. *)
Definition convert_provider (self : converter)
    (convert_font : string -> state -> result (string * state))
    (p : provider) (st : state) : result (option provider * state) :=
  match body p with
  | Reference font_id =>
      '(q, st') ← convert_reference_provider convert_font font_id st;
      Ok (Some q, st')
  | Space advances =>
      q ← convert_space_provider self advances; Ok (Some q, st)
  | Ttf file size oversample skip =>
      q ← convert_ttf_provider self (target st) file size oversample skip;
      Ok (Some q, st)
  | Bitmap file chars height =>
      q ← convert_bitmap_provider self (target st) file chars height;
      Ok (Some q, st)
  | Unihex hex_file size_overrides =>
      q ← convert_unihex_provider self (target st) hex_file size_overrides;
      Ok (q, st)
  | OtherKind type => Raise (UnknownProvider type)
  end.

(** ** The font converter *)

Definition is_space (p : provider) : bool :=
  match body p with
  | Space _ => true
  | _ => false
  end.

Definition set_filter (f : json) (p : provider) : provider :=
  {| body := body p; filter := Some f |}.

(** The two buckets and the state threaded through the provider loop. *)
Record buckets : Type := {
  space_providers : list provider;
  other_providers : list provider;
  bstate : state;
}.

(** The body of [for old_provider in old_providers]. *)
Definition convert_step (self : converter)
    (convert_font : string -> state -> result (string * state))
    (acc : buckets) (old_provider : provider) : result buckets :=
  '(new_provider, st') ←
    convert_provider self convert_font old_provider (bstate acc);
  match new_provider with
  | None =>
      Ok {| space_providers := space_providers acc;
            other_providers := other_providers acc;
            bstate := st' |}
  | Some new_provider =>
      let new_provider := assure_integers new_provider in
      match filter old_provider with
      | Some f =>
          Ok {| space_providers := space_providers acc;
                other_providers :=
                  other_providers acc ++ [set_filter f new_provider];
                bstate := st' |}
      | None =>
          if is_space new_provider then
            Ok {| space_providers := space_providers acc ++ [new_provider];
                  other_providers := other_providers acc;
                  bstate := st' |}
          else
            Ok {| space_providers := space_providers acc;
                  other_providers := other_providers acc ++ [new_provider];
                  bstate := st' |}
      end
  end.

(** [last["advances"].update(to_merge["advances"])] *)
Definition merge_into (last to_merge : provider) : result provider :=
  match body last, body to_merge with
  | Space a, Space b =>
      Ok {| body := Space (dict_update a b); filter := filter last |}
  | _, _ => Raise KeyError
  end.

(** The [while len(space_providers) > 1] loop; it runs at most
    [len(space_providers)] times, which bounds the recursion. *)
Fixpoint merge_loop (n : nat) (space_providers : list provider)
  : result (list provider) :=
  match n with
  | O => Ok space_providers
  | S n' =>
      match reverse space_providers with
      | to_merge :: last :: rest =>
          merged ← merge_into last to_merge;
          merge_loop n' (reverse (merged :: rest))
      | _ => Ok space_providers
      end
  end.

Definition merge_space_providers (space_providers : list provider)
  : result (list provider) :=
  merge_loop (length space_providers) space_providers.

(** Writing the new definition into the target pack. *)
Definition store (path : string) (providers : list provider) (st : state)
  : state :=
  {| target := <[path := FontJson providers]> (target st);
     written := written st ++ [(path, providers)] |}.

Definition load_providers (self : converter) (tgt : pack)
    (p : root * string) : result (list provider) :=
  f ← open_file self tgt p;
  match f with
  | FontJson providers => Ok providers
  | _ => Raise JSONDecodeError
  end.

(** [convert_font], with the interpreter's recursion limit as [depth]:
    a chain of nested references longer than that raises
    [RecursionError]. *)
Fixpoint convert_font (self : converter) (depth : nat) (font_id : string)
    (st : state) : result (string * state) :=
  match depth with
  | O => Raise RecursionError
  | S depth' =>
      let new_font_id := (font_id +:+ suffix self)%string in
      old_path ← get_font_path self (target st) font_id false;
      new_path ← get_font_path self (target st) new_font_id true;
      old_providers ← load_providers self (target st) old_path;
      acc ← foldM (convert_step self (convert_font self depth'))
                  old_providers
                  {| space_providers := []; other_providers := [];
                     bstate := st |};
      merged ← merge_space_providers (space_providers acc);
      Ok (new_font_id,
          store new_path.2 (other_providers acc ++ merged) (bstate acc))
  end.

(** ** Reference definitions for the hex-bitmap extent

    These follow the wording of the decoder's contract rather than its
    loop, and are compared with [read_hex_bitmap] below. *)

Definition is_hex (c : ascii) : Prop := is_Some (hex_digit c).

(** The unsigned value of a string of hexadecimal digits. *)
Definition hex_value (s : list ascii) : Z :=
  fold_left (fun acc c => 16 * acc + default 0 (hex_digit c)) s 0.

(** The sixteen rows of a bitmap, each [length img / 16] digits wide. *)
Definition hex_rows (img : list ascii) : list Z :=
  let row_len := (length img / 16)%nat in
  (fun i => hex_value (take row_len (drop (i * row_len) img))) <$> seq 0 16.

Definition nonzero_rows (rows : list Z) : list Z :=
  base.filter (fun r => r ≠ 0) rows.

Definition high_index (row : Z) : Z := bit_length row.
Definition low_index (row : Z) : Z := bit_length (Z.land row (- row)).

Definition is_maximum (m : Z) (l : list Z) : Prop :=
  m ∈ l ∧ ∀ x, x ∈ l → x <= m.
Definition is_minimum (m : Z) (l : list Z) : Prop :=
  m ∈ l ∧ ∀ x, x ∈ l → m <= x.

(** The loop body of [read_hex_bitmap] on an already parsed row. *)
Definition row_step (acc : Z * Z) (row : Z) : Z * Z :=
  if row =? 0 then acc
  else (Z.min (low_index row) acc.1, Z.max (high_index row) acc.2).

(** ** Reference definitions for the unihex mode filter *)

(** [c] falls inside the codepoint range of the override [o]. *)
Definition in_range (o : size_override) (c : Z) : Prop :=
  so_from o <= c <= so_to o.

Definition in_override (size_overrides : list size_override) (c : Z) : Prop :=
  ∃ o, o ∈ size_overrides ∧ in_range o c.

(** The fixed width of an override, in the words of the data model:
    [right - left + 1], or 0 when both endpoints are codepoint 0. *)
Definition fixed_width (o : size_override) : Z :=
  if decide (so_from o = 0 ∧ so_to o = 0) then 0
  else so_right o - so_left o + 1.

(** A line of the hex file contributes an entry to the advance map. *)
Definition included (self : converter) (size_overrides : list size_override)
    (line : string) : Prop :=
  ∃ e, unihex_entry self (build_overrides size_overrides) line = Ok (Some e).

(** The hex entry resolves to a defined glyph: its bitmap has ink. *)
Definition defined_glyph (img : list ascii) : Prop :=
  ∃ w, read_hex_bitmap img = Ok w ∧ 0 < w.

(** The inclusion rule of mode [all_named] as the data model words it. *)
Definition all_named_keeps (size_overrides : list size_override)
    (c : Z) (img : list ascii) : Prop :=
  c <= 256 ∨ in_override size_overrides c ∨ defined_glyph img.

(** ** Sample resources, used to run the definitions on concrete inputs *)

(** A 16-row, 8-column bitmap whose only inked row is [0x18]. *)
Definition sample_glyph : string := "00000000000000001800000000000000".

Definition sample_hex_lines : list string :=
  [("0041:" +:+ sample_glyph)%string; ("2603:" +:+ sample_glyph)%string].

Definition sample_pack : pack :=
  {[ "assets/minecraft/font/unifont.zip"%string :=
       ZipArchive [("readme.txt"%string, []);
                   ("unifont.hex"%string, sample_hex_lines)] ]}.




Definition sample_converter (m : unihex_mode) : converter :=
  {| suffix := "_sp"; width_factor := 1%float;
     fallback_pack := None; mode := m |}.

(** ** Reference definitions for the bitmap scanner *)

(** A glyph cell of the grid: its row, its column, the character it
    holds and the number of columns of its row. *)
Record cell : Type := {
  cell_y : nat;
  cell_x : nat;
  cell_char : char;
  cell_cols : nat;
}.

Definition row_cells (yl : nat * list char) : list cell :=
  (fun xc => {| cell_y := yl.1; cell_x := xc.1; cell_char := xc.2;
                cell_cols := length yl.2 |}) <$> enumerate yl.2.

(** The cells of a glyph grid in row-major order. *)
Definition grid_cells (chars : list (list char)) : list cell :=
  concat (row_cells <$> enumerate chars).

(** What the cell [c] of a grid with [num_rows] rows assigns. *)
Definition grid_entry (self : converter) (img : image) (height : Z)
    (num_rows : nat) (c : cell) : result (option (char * pynum)) :=
  char_height ← floordiv (img_height img) (Z.of_nat num_rows);
  char_width ← floordiv (img_width img) (Z.of_nat (cell_cols c));
  cell_entry self img height char_width char_height (cell_y c)
             (cell_x c, cell_char c).

(** Some pixel of the vertical run of [height] pixels from [(x, y)] has
    a non-zero alpha. *)
Definition column_has_ink (img : image) (x y height : Z) : Prop :=
  ∃ k, 0 <= k < height ∧ img_alpha img x (y + k) ≠ 0.

(** [w] is the drawn width of the cell at [(cursor_x, cursor_y)]: one
    more than the largest column offset with ink, or 0 without ink. *)
Definition ink_width (img : image)
    (cursor_x cursor_y char_width char_height w : Z) : Prop :=
  (w = 0
   ∧ ∀ i, 0 <= i < char_width ->
          ¬ column_has_ink img (cursor_x + i) cursor_y char_height)
  ∨ (∃ i, 0 <= i < char_width ∧ w = i + 1
          ∧ column_has_ink img (cursor_x + i) cursor_y char_height
          ∧ ∀ j, i < j < char_width ->
                 ¬ column_has_ink img (cursor_x + j) cursor_y char_height).

(** A 16x8 sheet of two 8x8 cells; the left cell has ink in its columns
    0 to 4, the right cell in its columns 0 to 1. *)
Definition sample_image : image :=
  {| img_width := 16; img_height := 8;
     img_alpha := fun x y =>
       if ((0 <=? x) && (x <=? 4) && (y =? 3))
          || ((8 <=? x) && (x <=? 9) && (y =? 0)) then 255 else 0 |}.

Definition sample_textures : pack :=
  {[ "assets/minecraft/textures/font/sheet.png"%string :=
       ImageFile sample_image ]}.


(** ** Reference definitions for the numeric normalization *)

(** A whole number stored as a real. *)
Definition whole_float (v : pynum) : bool :=
  match v with
  | PyInt _ => false
  | PyFloat f => float_is_integer f
  end.

(** Every whole value of the map is stored as an integer. *)
Definition normalized (advances : dict pynum) : Prop :=
  Forall (fun kv => whole_float kv.2 = false) advances.

(** A number stored as a real, as every converter computes its advances. *)
Definition is_float (v : pynum) : Prop :=
  match v with
  | PyFloat _ => True
  | PyInt _ => False
  end.

(** The number is mathematically whole: it has the value of an integer. *)
Definition whole (v : pynum) : Prop :=
  ∃ q z, num_value v = Some q ∧ (q == inject_Z z)%Q.

(** Every mathematically whole value of the map is stored as an
    integer; unlike [normalized], this does not go through the test
    that the code applies. *)
Definition whole_as_int (advances : dict pynum) : Prop :=
  ∀ k v, (k, v) ∈ advances -> whole v -> ∃ z, v = PyInt z.

(** Two numbers denote the same value; infinities and NaN, which have no
    rational value, only equal themselves. *)
Definition same_value (a b : pynum) : Prop :=
  match num_value a, num_value b with
  | Some x, Some y => Qeq x y
  | None, None => a = b
  | _, _ => False
  end.

(** ** Reference definitions for the font converter *)

(** The run of the provider loop: the source providers, what each one
    converted to, and the states before and after. *)
Inductive conversions (self : converter)
    (convert_font : string -> state -> result (string * state))
  : state -> list provider -> list (option provider) -> state -> Prop :=
| conversions_nil st : conversions self convert_font st [] [] st
| conversions_cons st old olds new news st1 st2 :
    convert_provider self convert_font old st = Ok (new, st1) ->
    conversions self convert_font st1 olds news st2 ->
    conversions self convert_font st (old :: olds) (new :: news) st2.

(** What a source provider and its conversion contribute to the "other"
    bucket: nothing when the conversion is null; the normalized result
    with the filter attached when the source had a filter; else the
    normalized result when it is not of kind space. *)
Definition emitted_other (on : provider * option provider) : option provider :=
  new ← on.2;
  let new := assure_integers new in
  match filter on.1 with
  | Some f => Some (set_filter f new)
  | None => if is_space new then None else Some new
  end.

(** The normalized advance map that a filter-less source provider with a
    conversion of kind space contributes to the merge. *)
Definition merged_advances (on : provider * option provider)
  : option (dict pynum) :=
  new ← on.2;
  match filter on.1, body (assure_integers new) with
  | None, Space advances => Some advances
  | _, _ => None
  end.

Definition others_of (olds : list provider) (news : list (option provider))
  : list provider :=
  omap emitted_other (zip olds news).

Definition advances_of (olds : list provider) (news : list (option provider))
  : list (dict pynum) :=
  omap merged_advances (zip olds news).

(** The fold of advance maps in their order, later entries overwriting. *)
Definition merge_advances (maps : list (dict pynum)) : list provider :=
  match maps with
  | [] => []
  | d :: ds => [space (fold_left dict_update ds d)]
  end.

(** The definition emitted for a run of the provider loop. *)
Definition emitted (olds : list provider) (news : list (option provider))
  : list provider :=
  others_of olds news ++ merge_advances (advances_of olds news).

(** The pops of the merge loop, innermost first:
    [d1.update(d2.update(... dn))]. *)
Fixpoint nested_update (d : dict pynum) (ds : list (dict pynum)) : dict pynum :=
  match ds with
  | [] => d
  | d' :: ds' => dict_update d (nested_update d' ds')
  end.

(** Sample font definitions: [base] refers to [other] and holds three
    filter-less space providers and a filtered one. *)
Definition sample_fonts : pack :=
  {[ "assets/minecraft/font/base.json"%string :=
       FontJson [ {| body := Reference "other"; filter := None |};
                  space [(97, PyInt 1)];
                  {| body := Space [(97, PyFloat 2.5)];
                     filter := Some (JObj [("uniform"%string, JBool true)]) |};
                  space [(97, PyInt 2); (98, PyInt 3)];
                  space [(99, PyInt 4)] ];
     "assets/minecraft/font/other.json"%string :=
       FontJson [ space [(99, PyInt 4)] ] ]}.

Definition sample_state : state := {| target := sample_fonts; written := [] |}.

(** What is known of a run of [convert_font], as the recursion provides
    it: the call returns the suffixed id, and the log of writes grows by
    the writes of nested conversions followed by the font's own. *)
Definition logs_own_write (self : converter)
    (rec : string -> state -> result (string * state)) : Prop :=
  ∀ font_id st new_id st',
    rec font_id st = Ok (new_id, st') ->
    new_id = (font_id +:+ suffix self)%string
    ∧ ∃ log new_path providers,
        get_font_path self (target st) new_id true = Ok new_path
        ∧ written st' = written st ++ log ++ [(new_path.2, providers)]
        ∧ target st' !! new_path.2 = Some (FontJson providers).

(** One recursive call refines another when it returns what the other
    returns, whenever the other returns. *)
Definition refines (rec rec' : string -> state -> result (string * state))
  : Prop :=
  ∀ font_id st r, rec font_id st = Ok r -> rec' font_id st = Ok r.

(** A result other than the recursion limit being hit. *)
Definition within_limit {A} (r : result A) : Prop := r ≠ Raise RecursionError.

(** The target pack of [st] holds what that of [st0] holds at the
    protected paths. *)
Definition agree (protected : string -> Prop) (st0 st : state) : Prop :=
  ∀ path, protected path -> target st !! path = target st0 !! path.


(** ** Further reference definitions *)

(** The number of [:] separators of a resource id. *)
Definition colons (s : list ascii) : nat :=
  length (base.filter (fun c => c = colon) s).

(** Two sheets of the same size that agree on every pixel inside it. *)
Definition same_pixels (a b : image) : Prop :=
  img_width a = img_width b ∧ img_height a = img_height b
  ∧ ∀ x y, 0 <= x < img_width a -> 0 <= y < img_height a ->
           img_alpha a x y = img_alpha b x y.

(** The sample sheet with every pixel outside of it made opaque. *)
Definition sample_image_framed : image :=
  {| img_width := 16; img_height := 8;
     img_alpha := fun x y =>
       if (x <? 0) || (16 <=? x) || (y <? 0) || (8 <=? y) then 255
       else img_alpha sample_image x y |}.

Definition sample_textures_framed : pack :=
  {[ "assets/minecraft/textures/font/sheet.png"%string :=
       ImageFile sample_image_framed ]}.

(** What one entry [(code, idx)] of a face's character map assigns:
    [advances[chr(code)] = advance.x / 64 / oversample * width_factor],
    or nothing for a skipped character. *)
Definition ttf_entry (self : converter) (fc : face) (i oversample : Z)
    (skip : list char) (ci : Z * Z) : result (option (char * pynum)) :=
  ch ← chr ci.1;
  if bool_decide (ch ∈ skip) then Ok None
  else
    a ← int_truediv (face_advance_x fc i ci.2) 64;
    advance ← float_div_int a oversample;
    Ok (Some (ch, PyFloat (advance * width_factor self))).

(** A sample face: three characters whose glyphs advance by 640, 128
    and 448 units at every pixel size. *)
Definition sample_face : face :=
  {| face_chars := [(65, 1); (66, 2); (97, 3)];
     face_advance_x := fun _ idx =>
       if idx =? 1 then 640 else if idx =? 2 then 128 else 448 |}.

Definition sample_faces : pack :=
  {[ "assets/minecraft/font/plain.ttf"%string := FontFace sample_face ]}.

(** A provider other than a reference to another font. *)
Definition flat (p : provider) : Prop := ∀ R, body p ≠ Reference R.

(** A font whose definition refers to the font itself. *)
Definition sample_loop : pack :=
  {[ "assets/minecraft/font/loop.json"%string :=
       FontJson [ space [(97, PyInt 1)];
                  {| body := Reference "loop"; filter := None |} ] ]}.

(** The providers a conversion can emit: references and spaces, a
    space provider being filtered when it was not merged. *)
Definition emitted_shape (p : provider) : Prop :=
  ((∃ id, body p = Reference id) ∨ (∃ adv, body p = Space adv))
  ∧ (is_space p = true -> is_Some (filter p)).

(** A path with the extension of a font definition. *)
Definition json_file (path : string) : Prop := endswith path ".json" = true.

(** From [st] to [st'] no file of the target pack is removed, and only
    files with the extension [.json] change. *)
Definition preserves (st st' : state) : Prop :=
  ∀ path,
    (¬ json_file path -> target st' !! path = target st !! path)
    ∧ (is_Some (target st !! path) -> is_Some (target st' !! path)).

(** A font definition with a provider of an unknown kind. *)
Definition sample_unknown : pack :=
  {[ "assets/minecraft/font/odd.json"%string :=
       FontJson [ {| body := OtherKind "legacy_unicode"; filter := None |};
                  space [(97, PyInt 1)] ] ]}.

(** * Properties *)

(** ** The error monad *)

Lemma bind_Ok {A B} (m : result A) (f : A -> result B) (b : B) :
  m ≫= f = Ok b -> ∃ a, m = Ok a ∧ f a = Ok b.
Proof. destruct m as [a|e]; [eauto | discriminate]. Qed.

Tactic Notation "inv_bind" hyp(H) :=
  let a := fresh "a" in
  let Ha := fresh "Ha" in
  apply bind_Ok in H as (a & Ha & H).

Tactic Notation "inv_bind" hyp(H) "as" simple_intropattern(a) ident(Ha) :=
  apply bind_Ok in H as (a & Ha & H).

(** Rewrite the head of a sequence of monadic steps and take the step. *)
Ltac rw_bind H := rewrite H; cbn [mbind result_bind].

Lemma foldM_app {A B} (f : A -> B -> result A) l1 l2 acc :
  foldM f (l1 ++ l2) acc = foldM f l1 acc ≫= foldM f l2.
Proof.
  revert acc. induction l1 as [|x l1 IH]; intros acc; simpl; [done|].
  destruct (f acc x) as [a|e]; simpl; [apply IH | done].
Qed.

(** A loop whose body never raises is a plain left fold. *)
Lemma foldM_pure {A B} (f : A -> B -> result A) (g : A -> B -> A) l acc :
  (∀ a x, x ∈ l -> f a x = Ok (g a x)) ->
  foldM f l acc = Ok (foldl g acc l).
Proof.
  revert acc. induction l as [|x l IH]; intros acc Hf; simpl; [done|].
  rewrite Hf by left. simpl. apply IH. intros a y Hy. apply Hf. by right.
Qed.

(** ** Hexadecimal text *)

Lemma hex_digit_range c d : hex_digit c = Some d -> 0 <= d < 16.
Proof.
  unfold hex_digit. intros H.
  repeat case_match; simplify_eq; lia.
Qed.

Lemma hex_acc_value s : ∀ acc,
  Forall is_hex s ->
  hex_acc acc s
  = Some (fold_left (fun a c => 16 * a + default 0 (hex_digit c)) s acc).
Proof.
  induction s as [|c s IH]; intros acc Hs; simpl; [done|].
  inversion Hs as [|? ? [d Hd] Hs']; subst. rewrite Hd. simpl. by apply IH.
Qed.

Lemma hex_fold_bound s : ∀ acc,
  Forall is_hex s -> 0 <= acc ->
  0 <= fold_left (fun a c => 16 * a + default 0 (hex_digit c)) s acc
    < (acc + 1) * 16 ^ Z.of_nat (length s).
Proof.
  induction s as [|c s IH]; intros acc Hs Hacc; simpl fold_left.
  - simpl. lia.
  - inversion Hs as [|? ? [d Hd] Hs']; subst. rewrite Hd. simpl default.
    pose proof (hex_digit_range _ _ Hd) as Hr.
    assert (0 <= 16 * acc + d) as Hacc' by lia.
    specialize (IH (16 * acc + d) Hs' Hacc').
    replace (Z.of_nat (length (c :: s))) with (Z.succ (Z.of_nat (length s)))
      by (simpl length; lia).
    rewrite Z.pow_succ_r by lia.
    split; [lia|]. eapply Z.lt_le_trans; [apply IH|].
    assert (0 < 16 ^ Z.of_nat (length s)) by (apply Z.pow_pos_nonneg; lia).
    nia.
Qed.

Lemma hex_value_bound s :
  Forall is_hex s -> 0 <= hex_value s < 2 ^ (4 * Z.of_nat (length s)).
Proof.
  intros Hs. pose proof (hex_fold_bound s 0 Hs (Z.le_refl 0)) as H.
  unfold hex_value. rewrite Z.pow_mul_r by lia.
  change (2 ^ 4) with 16. rewrite Z.mul_1_l in H. exact H.
Qed.

Lemma int16_value s :
  Forall is_hex s -> s ≠ [] -> int16 s = Ok (hex_value s).
Proof.
  intros Hs Hne. unfold int16. destruct s as [|c s]; [done|].
  by rewrite hex_acc_value.
Qed.

(** ** Bit lengths *)

Lemma bit_length_nonneg z : 0 <= bit_length z.
Proof.
  unfold bit_length. case_match; [lia|]. pose proof (Z.log2_nonneg (Z.abs z)). lia.
Qed.

Lemma bit_length_pos z : z ≠ 0 -> 1 <= bit_length z.
Proof.
  intros Hz. unfold bit_length. destruct (Z.eqb_spec z 0); [done|].
  pose proof (Z.log2_nonneg (Z.abs z)). lia.
Qed.

Lemma bit_length_bound z n : 0 <= z < 2 ^ n -> 0 <= n -> bit_length z <= n.
Proof.
  intros [Hz Hlt] Hn. unfold bit_length. destruct (Z.eqb_spec z 0); [lia|].
  rewrite Z.abs_eq by lia. apply Z.log2_lt_pow2 in Hlt; lia.
Qed.

Lemma bit_length_land_le a b : 0 <= a -> bit_length (Z.land a b) <= bit_length a.
Proof.
  intros Ha. unfold bit_length.
  assert (0 <= Z.land a b) as Hl by (apply Z.land_nonneg; by left).
  destruct (Z.eqb_spec (Z.land a b) 0) as [|Hne].
  - case_match; [lia|]. pose proof (Z.log2_nonneg (Z.abs a)). lia.
  - destruct (Z.eqb_spec a 0) as [->|Hane].
    { by rewrite Z.land_0_l in Hne. }
    rewrite !Z.abs_eq by lia.
    destruct (Z.le_gt_cases (Z.log2 (Z.land a b)) (Z.log2 a)) as [|Hgt]; [lia|].
    pose proof (Z.bit_log2 (Z.land a b) ltac:(lia)) as Hbit.
    rewrite Z.land_spec, (Z.bits_above_log2 a) in Hbit by lia. done.
Qed.

Lemma low_index_le_high row : 0 <= row -> low_index row <= high_index row.
Proof. apply bit_length_land_le. Qed.

(** ** The hex-bitmap decoder *)

Section ReadHexBitmap.
Variable img : list ascii.
Hypothesis img_hex : Forall is_hex img.
Hypothesis img_len : (16 <= length img)%nat.

Let row_len := (length img / 16)%nat.

Lemma row_len_pos : (1 <= row_len)%nat.
Proof.
  subst row_len. apply (Nat.Div0.div_le_mono 16 (length img) 16) in img_len.
  by rewrite Nat.div_same in img_len by lia.
Qed.

Lemma row_len_fits i : (i < 16)%nat -> (i * row_len + row_len <= length img)%nat.
Proof.
  intros Hi. pose proof (Nat.Div0.mul_div_le (length img) 16) as H.
  fold row_len in H. nia.
Qed.

Lemma read_hex_row_step acc i :
  i ∈ seq 0 16 ->
  read_hex_row img row_len acc i
  = Ok (row_step acc (hex_value (take row_len (drop (i * row_len) img)))).
Proof.
  intros Hi. apply elem_of_seq in Hi.
  pose proof (row_len_fits i ltac:(lia)) as Hfit.
  pose proof row_len_pos as Hpos.
  unfold read_hex_row, slice. destruct acc as [mn mx].
  replace ((i + 1) * row_len - i * row_len)%nat with row_len by lia.
  rewrite int16_value.
  - simpl. unfold row_step. by case_match.
  - by apply Forall_take, Forall_drop.
  - intros Hnil. apply (f_equal length) in Hnil.
    rewrite length_take, length_drop in Hnil. simpl in Hnil. lia.
Qed.

Lemma read_hex_rows acc :
  foldM (read_hex_row img row_len) (seq 0 16) acc
  = Ok (foldl row_step acc (hex_rows img)).
Proof.
  rewrite (foldM_pure _
    (fun a i => row_step a (hex_value (take row_len (drop (i * row_len) img))))).
  - unfold hex_rows. fold row_len. by rewrite foldl_fmap.
  - intros a i Hi. by apply read_hex_row_step.
Qed.

Lemma hex_rows_range r :
  r ∈ hex_rows img -> 0 <= r < 2 ^ (4 * Z.of_nat row_len).
Proof.
  unfold hex_rows. fold row_len. intros (i & -> & Hi)%list_elem_of_fmap.
  apply elem_of_seq in Hi.
  pose proof (row_len_fits i ltac:(lia)) as Hfit.
  pose proof (hex_value_bound (take row_len (drop (i * row_len) img))) as H.
  rewrite length_take, length_drop in H.
  replace (row_len `min` (length img - i * row_len))%nat with row_len in H by lia.
  apply H. by apply Forall_take, Forall_drop.
Qed.
End ReadHexBitmap.

Lemma row_step_fold rows : ∀ mn mx,
  let r := foldl row_step (mn, mx) rows in
  let nz := nonzero_rows rows in
  (nz = [] -> r = (mn, mx))
  ∧ (r.1 = mn ∨ r.1 ∈ low_index <$> nz)
  ∧ (∀ x, x ∈ low_index <$> nz -> r.1 <= x)
  ∧ (r.2 = mx ∨ r.2 ∈ high_index <$> nz)
  ∧ (∀ x, x ∈ high_index <$> nz -> x <= r.2)
  ∧ r.1 <= mn ∧ mx <= r.2.
Proof.
  induction rows as [|row rows IH]; intros mn mx; simpl.
  { repeat split; auto; try lia; intros x Hx; by apply elem_of_nil in Hx. }
  unfold nonzero_rows. rewrite filter_cons.
  destruct (Z.eqb_spec row 0) as [->|Hrow].
  - rewrite decide_False by (intros Hf; by apply Hf).
    change (row_step (mn, mx) 0) with (mn, mx). apply IH.
  - rewrite decide_True by done.
    replace (row_step (mn, mx) row)
      with (Z.min (low_index row) mn, Z.max (high_index row) mx)
      by (unfold row_step; by rewrite (proj2 (Z.eqb_neq row 0) Hrow)).
    simpl.
    pose proof (IH (Z.min (low_index row) mn) (Z.max (high_index row) mx))
      as IH'.
    simpl in IH'. fold (nonzero_rows rows) in *.
    set (r := foldl row_step _ rows) in *.
    destruct IH' as (_ & Hlo & Hlob & Hhi & Hhib & Hle1 & Hle2).
    change (list_fmap Z Z ?f ?l) with (f <$> l).
    split; [done|]. split; [|split; [|split; [|split]]].
    + destruct Hlo as [Hlo|Hlo]; [|right; by right].
      destruct (Z.min_spec (low_index row) mn) as [[_ Hm]|[_ Hm]];
        rewrite Hm in Hlo; [right; rewrite Hlo; left | by left].
    + intros x [->|Hx]%elem_of_cons; [lia | by apply Hlob].
    + destruct Hhi as [Hhi|Hhi]; [|right; by right].
      destruct (Z.max_spec (high_index row) mx) as [[_ Hm]|[_ Hm]];
        rewrite Hm in Hhi; [by left | right; rewrite Hhi; left].
    + intros x [->|Hx]%elem_of_cons; [lia | by apply Hhib].
    + lia.
Qed.

(** C3: on a string of hexadecimal digits holding sixteen rows,
    [read_hex_bitmap] returns [high - low + 1], where [high] is the largest
    [bit_length(row)] and [low] the smallest [bit_length(row & -row)] over
    the non-zero rows; it returns 0 when every row is zero; and a bitmap
    whose only non-zero row is [0x18] has extent 2. *)
Theorem read_hex_bitmap_extent (img : list ascii) :
  Forall is_hex img -> (16 <= length img)%nat ->
  let nz := nonzero_rows (hex_rows img) in
  (nz = [] -> read_hex_bitmap img = Ok 0)
  ∧ (nz ≠ [] ->
     ∃ high low,
       is_maximum high (high_index <$> nz)
       ∧ is_minimum low (low_index <$> nz)
       ∧ read_hex_bitmap img = Ok (high - low + 1))
  ∧ (nz = [24] -> read_hex_bitmap img = Ok 2).
Proof.
  intros Hhex Hlen nz.
  pose proof (row_step_fold (hex_rows img)
                (Z.of_nat (length img / 16) * 4) (-1)) as H.
  cbv zeta in H. fold nz in H.
  unfold read_hex_bitmap. rewrite read_hex_rows by done.
  destruct (foldl row_step _ (hex_rows img)) as [mn mx].
  cbn [fst snd] in H. cbn [mbind result_bind].
  destruct H as (Hnil & Hlo & Hlob & Hhi & Hhib & _ & _).
  assert (nz ≠ [] ->
     ∃ high low,
       is_maximum high (high_index <$> nz)
       ∧ is_minimum low (low_index <$> nz)
       ∧ Ok (if mx =? -1 then 0 else mx - mn + 1) = Ok (high - low + 1))
    as Hmain.
  { intros Hnz.
    destruct nz as [|r0 nz'] eqn:Enz; [done|].
    assert (r0 ∈ nonzero_rows (hex_rows img)) as Hr0
      by (fold nz; rewrite Enz; left).
    apply list_elem_of_filter in Hr0 as [Hr0nz Hr0].
    pose proof (hex_rows_range img Hhex Hlen r0 Hr0) as Hrange.
    assert (1 <= mx) as Hmx.
    { etrans; [apply (bit_length_pos r0 Hr0nz)|]. apply Hhib. left. }
    assert (mx ∈ high_index <$> r0 :: nz') as Hmxin by (destruct Hhi; [lia|done]).
    destruct (Z.eqb_spec mx (-1)); [lia|].
    exists mx, mn. split; [done|]. split; [|done]. split; [|done].
    destruct Hlo as [->|]; [|done].
    assert (low_index r0 = Z.of_nat (length img / 16) * 4) as <-; [|left].
    apply Z.le_antisymm; [|apply Hlob; left].
    etrans; [apply low_index_le_high; lia|].
    rewrite (Z.mul_comm _ 4). apply bit_length_bound; lia. }
  split; [|split; [done|]].
  - intros Hnz. by injection (Hnil Hnz) as -> ->.
  - intros Hnz. destruct Hmain as (high & low & [Hh _] & [Hl _] & ->).
    { by rewrite Hnz. }
    rewrite Hnz in Hh, Hl.
    apply list_elem_of_singleton in Hh, Hl. by subst.
Qed.

Lemma read_hex_bitmap_extent_witness :
  read_hex_bitmap
    (list_ascii_of_string "00000000000000001800000000000000") = Ok 2.
Proof.
  apply (read_hex_bitmap_extent
           (list_ascii_of_string "00000000000000001800000000000000")).
  - repeat constructor; by eexists.
  - simpl. lia.
  - reflexivity.
Defined.

(** ** Dictionaries *)

Section Dict.
Context {V : Type}.
Implicit Types (d : dict V) (k : char) (v : V).

Lemma dict_get_set_eq d k v : dict_get (dict_set k v d) k = Some v.
Proof.
  induction d as [|[k' v'] d IH]; simpl.
  - by rewrite Z.eqb_refl.
  - destruct (Z.eqb_spec k' k) as [->|Hne]; simpl.
    + by rewrite Z.eqb_refl.
    + by rewrite (proj2 (Z.eqb_neq k' k) Hne).
Qed.

Lemma dict_get_set_ne d k k' v :
  k ≠ k' -> dict_get (dict_set k v d) k' = dict_get d k'.
Proof.
  intros Hne. induction d as [|[k0 v0] d IH]; simpl.
  - by rewrite (proj2 (Z.eqb_neq k k') Hne).
  - destruct (Z.eqb_spec k0 k) as [->|Hne0]; simpl.
    + by rewrite (proj2 (Z.eqb_neq k k') Hne).
    + by rewrite IH.
Qed.

Lemma dict_get_None d k : dict_get d k = None <-> k ∉ dict_keys d.
Proof.
  unfold dict_keys. induction d as [|[k' v'] d IH]; simpl.
  - split; [intros _; apply not_elem_of_nil | done].
  - rewrite not_elem_of_cons. destruct (Z.eqb_spec k' k) as [->|Hne].
    + split; [done | by intros [? _]].
    + rewrite IH. split; [by intros ? | by intros [_ ?]].
Qed.

Lemma dict_get_elem_of d k v : dict_get d k = Some v -> (k, v) ∈ d.
Proof.
  induction d as [|[k' v'] d IH]; simpl; [done|].
  destruct (Z.eqb_spec k' k) as [->|Hne].
  - intros [= ->]. left.
  - intros H. right. by apply IH.
Qed.

Lemma dict_set_fresh d k v : k ∉ dict_keys d -> dict_set k v d = d ++ [(k, v)].
Proof.
  unfold dict_keys. induction d as [|[k' v'] d IH]; simpl; [done|].
  rewrite not_elem_of_cons. intros [Hne Hnin].
  rewrite (proj2 (Z.eqb_neq k' k)) by done. by rewrite IH.
Qed.

Lemma dict_keys_set_in d k v :
  k ∈ dict_keys d -> dict_keys (dict_set k v d) = dict_keys d.
Proof.
  unfold dict_keys. induction d as [|[k' v'] d IH]; simpl.
  - by intros ?%elem_of_nil.
  - destruct (Z.eqb_spec k' k) as [->|Hne]; [done|].
    intros [?|Hin]%elem_of_cons; [done|]. simpl. f_equal. by apply IH.
Qed.

Lemma dict_keys_set d k v :
  dict_keys (dict_set k v d)
  = if decide (k ∈ dict_keys d) then dict_keys d else dict_keys d ++ [k].
Proof.
  case_decide.
  - by apply dict_keys_set_in.
  - rewrite dict_set_fresh by done. unfold dict_keys. by rewrite fmap_app.
Qed.

Lemma dict_set_NoDup d k v :
  NoDup (dict_keys d) -> NoDup (dict_keys (dict_set k v d)).
Proof.
  intros Hd. rewrite dict_keys_set. case_decide; [done|].
  apply NoDup_app. split; [done|]. split; [|apply NoDup_singleton].
  intros x Hx ->%list_elem_of_singleton. done.
Qed.

Lemma dict_set_same d k v : dict_get d k = Some v -> dict_set k v d = d.
Proof.
  induction d as [|[k' v'] d IH]; simpl; [done|].
  destruct (Z.eqb_spec k' k) as [->|Hne].
  - by intros [= ->].
  - intros H. by rewrite IH.
Qed.

Lemma dict_set_set d k v v' : dict_set k v (dict_set k v' d) = dict_set k v d.
Proof.
  induction d as [|[k0 v0] d IH]; simpl.
  - by rewrite Z.eqb_refl.
  - destruct (Z.eqb_spec k0 k) as [->|Hne]; simpl.
    + by rewrite Z.eqb_refl.
    + by rewrite (proj2 (Z.eqb_neq k0 k) Hne), IH.
Qed.

(** Two assignments commute, order included, once the first key is
    already present (a fresh key would be appended at the end). *)
Lemma dict_set_comm d k k' v v' :
  k ≠ k' -> k ∈ dict_keys d ->
  dict_set k v (dict_set k' v' d) = dict_set k' v' (dict_set k v d).
Proof.
  unfold dict_keys. intros Hne. induction d as [|[k0 v0] d IH]; simpl.
  - by intros ?%elem_of_nil.
  - intros Hin. destruct (Z.eqb_spec k0 k') as [->|Hne'].
    + simpl. rewrite (proj2 (Z.eqb_neq k' k)) by done. simpl.
      by rewrite Z.eqb_refl.
    + simpl. destruct (Z.eqb_spec k0 k) as [->|Hne0]; simpl.
      * by rewrite (proj2 (Z.eqb_neq k k')) by done.
      * rewrite (proj2 (Z.eqb_neq k0 k')) by done.
        apply elem_of_cons in Hin as [?|Hin]; [done|]. by rewrite IH.
Qed.

Lemma dict_set_elem_of d k v x :
  x ∈ dict_set k v d -> x = (k, v) ∨ x ∈ d.
Proof.
  induction d as [|[k' v'] d IH]; simpl.
  - intros ->%list_elem_of_singleton. by left.
  - destruct (Z.eqb_spec k' k) as [->|Hne].
    + intros [->|Hx]%elem_of_cons; [by left | right; by right].
    + intros [->|Hx]%elem_of_cons; [right; left|].
      destruct (IH Hx); [by left | right; by right].
Qed.



(** *** Loops of optional assignments *)

Lemma assign_NoDup d e : NoDup (dict_keys d) -> NoDup (dict_keys (assign d e)).
Proof. destruct e as [[k v]|]; simpl; [apply dict_set_NoDup | done]. Qed.

Lemma foldl_assign_NoDup es : ∀ d,
  NoDup (dict_keys d) -> NoDup (dict_keys (foldl assign d es)).
Proof.
  induction es as [|e es IH]; intros d Hd; simpl; [done|].
  by apply IH, assign_NoDup.
Qed.

Lemma foldl_assign_miss es k : ∀ d,
  (∀ v, Some (k, v) ∉ es) ->
  dict_get (foldl assign d es) k = dict_get d k.
Proof.
  induction es as [|e es IH]; intros d Hk; simpl; [done|].
  rewrite IH by (intros v Hv; apply (Hk v); by right).
  destruct e as [[k' v']|]; simpl; [|done].
  apply dict_get_set_ne. intros ->. apply (Hk v'). left.
Qed.

(** The last assignment to a key decides its value. *)
Lemma foldl_assign_last pre post k v d :
  (∀ v', Some (k, v') ∉ post) ->
  dict_get (foldl assign d (pre ++ Some (k, v) :: post)) k = Some v.
Proof.
  intros Hpost. rewrite foldl_app. simpl.
  rewrite foldl_assign_miss by done. apply dict_get_set_eq.
Qed.

Lemma foldM_assign {X} (step : X -> result (option (char * V))) l : ∀ d0 d,
  foldM (fun d x => e ← step x; Ok (assign d e)) l d0 = Ok d ->
  ∃ es, Forall2 (fun x e => step x = Ok e) l es ∧ d = foldl assign d0 es.
Proof.
  induction l as [|x l IH]; intros d0 d; simpl.
  - intros [= <-]. exists []. by split.
  - intros H. inv_bind H. inv_bind Ha. injection Ha as <-.
    destruct (IH _ _ H) as (es & Hes & ->).
    exists (a0 :: es). split; [by constructor | done].
Qed.
End Dict.

(** ** Unihex providers *)

Lemma override_width_fixed o : override_width o = fixed_width o.
Proof.
  unfold override_width, fixed_width. case_decide as H.
  - destruct H as [-> ->]. done.
  - destruct (Z.eqb_spec (so_from o) (so_to o)) as [E|E],
             (Z.eqb_spec (so_to o) 0) as [E0|E0]; simpl; try done.
    exfalso. apply H. lia.
Qed.

Lemma find_override_None l c :
  find_override (build_overrides l) c = None <-> ¬ in_override l c.
Proof.
  unfold in_override, in_range, build_overrides.
  induction l as [|o l IH]; simpl.
  - split; [|done]. intros _ (o & Ho & _). by apply elem_of_nil in Ho.
  - destruct (decide (so_from o <= c <= so_to o)) as [Hin|Hout].
    + rewrite (proj2 (Z.leb_le _ _)), (proj2 (Z.leb_le _ _)) by lia. simpl.
      split; [done|]. intros Hn. exfalso. apply Hn. exists o. split; [left|done].
    + replace ((so_from o <=? c) && (c <=? so_to o)) with false
        by (symmetry; apply andb_false_iff; rewrite !Z.leb_gt; lia).
      rewrite IH. split; intros Hn (o' & Ho' & Hr).
      * apply elem_of_cons in Ho' as [->|Ho']; [done | apply Hn; eauto].
      * apply Hn. exists o'. split; [by right | done].
Qed.

Lemma find_override_Some l c w :
  find_override (build_overrides l) c = Some w ->
  ∃ pre o post,
    l = pre ++ o :: post ∧ in_range o c
    ∧ Forall (fun o' => ¬ in_range o' c) pre ∧ w = fixed_width o.
Proof.
  unfold in_range, build_overrides.
  induction l as [|o l IH]; simpl; [done|].
  destruct (decide (so_from o <= c <= so_to o)) as [Hin|Hout].
  - rewrite (proj2 (Z.leb_le _ _)), (proj2 (Z.leb_le _ _)) by lia. simpl.
    intros [= <-]. exists [], o, l.
    split; [done|]. split; [done|]. split; [constructor|].
    apply override_width_fixed.
  - replace ((so_from o <=? c) && (c <=? so_to o)) with false
      by (symmetry; apply andb_false_iff; rewrite !Z.leb_gt; lia).
    intros (pre & o' & post & -> & Hr & Hpre & ->)%IH.
    exists (o :: pre), o', post.
    split; [done|]. split; [done|]. split; [by constructor | done].
Qed.

(** Two decompositions of a list at the first element with a property
    pick the same element. *)
Lemma first_in_range_unique (l : list size_override) c pre o post pre' o' post' :
  l = pre ++ o :: post -> in_range o c ->
  Forall (fun x => ¬ in_range x c) pre ->
  l = pre' ++ o' :: post' -> in_range o' c ->
  Forall (fun x => ¬ in_range x c) pre' ->
  o = o'.
Proof.
  revert l pre'. induction pre as [|x pre IH]; intros l pre' -> Ho Hpre E Ho' Hpre'.
  - destruct pre' as [|y pre']; simpl in E.
    + by injection E.
    + injection E as -> _. by inversion Hpre'.
  - destruct pre' as [|y pre']; simpl in E.
    + injection E as -> _. by inversion Hpre.
    + injection E as -> E. inversion Hpre; inversion Hpre'; subst.
      by eapply (IH _ pre').
Qed.

Lemma unihex_width_None self l c img :
  unihex_width self (build_overrides l) c img = Ok None <->
  (mode self = ModeAscii ∧ 256 < c)
  ∨ (mode self = ModeAllNamed ∧ 256 < c ∧ ¬ in_override l c).
Proof.
  unfold unihex_width.
  destruct (decide (mode self = ModeAscii)) as [Ha|Ha].
  - rewrite bool_decide_eq_true_2 by done. simpl.
    destruct (Z.ltb_spec 256 c).
    + split; [intros _; left; done | done].
    + destruct (find_override _ c) eqn:Ef.
      { split; [done|]. intros [[_ ?]|[? _]]; [lia | congruence]. }
      rewrite bool_decide_eq_false_2 by congruence. simpl.
      destruct (read_hex_bitmap img); simpl;
        (split; [done|]; intros [[_ ?]|[? _]]; [lia | congruence]).
  - rewrite bool_decide_eq_false_2 by done. simpl.
    destruct (find_override _ c) eqn:Ef.
    { split; [done|]. intros [[? _]|(_ & _ & Hn)]; [done|].
      apply find_override_None in Hn. congruence. }
    apply find_override_None in Ef.
    destruct (decide (mode self = ModeAllNamed)) as [Hn|Hn].
    + rewrite bool_decide_eq_true_2 by done. simpl.
      destruct (Z.ltb_spec 256 c).
      * split; [intros _; right; done | done].
      * destruct (read_hex_bitmap img); simpl;
          (split; [done|]; intros [[? _]|(_ & ? & _)]; [done | lia]).
    + rewrite bool_decide_eq_false_2 by done. simpl.
      destruct (read_hex_bitmap img); simpl;
        (split; [done|]; intros [[? _]|(? & _)]; done).
Qed.

Lemma unihex_width_Some self l c img w :
  unihex_width self (build_overrides l) c img = Ok (Some w) ->
  (∀ pre o post,
     l = pre ++ o :: post -> in_range o c ->
     Forall (fun o' => ¬ in_range o' c) pre -> w = fixed_width o)
  ∧ (¬ in_override l c -> read_hex_bitmap img = Ok w).
Proof.
  unfold unihex_width. intros H.
  destruct (_ && _); [done|].
  destruct (find_override _ c) as [w'|] eqn:Ef.
  - injection H as ->.
    destruct (find_override_Some _ _ _ Ef) as (pre & o & post & El & Ho & Hpre & ->).
    split.
    + intros pre' o' post' El' Ho' Hpre'. f_equal.
      by eapply (first_in_range_unique l c pre o post pre' o' post').
    + intros Hn. exfalso. apply Hn. exists o. split; [|done].
      rewrite El. apply elem_of_app. right. left.
  - apply find_override_None in Ef.
    destruct (_ && _); [done|]. inv_bind H. injection H as <-.
    split; [|done]. intros pre o post -> Ho _. exfalso. apply Ef.
    exists o. split; [|done]. apply elem_of_app. right. left.
Qed.

Lemma foldl_assign_keys {V} (es : list (option (char * V))) : ∀ d k,
  k ∈ dict_keys (foldl assign d es)
  <-> k ∈ dict_keys d ∨ ∃ v, Some (k, v) ∈ es.
Proof.
  induction es as [|e es IH]; intros d k; simpl.
  - split; [by left|]. intros [?|(v & Hv)]; [done|]. by apply elem_of_nil in Hv.
  - rewrite IH. destruct e as [[k' v']|]; simpl.
    + rewrite dict_keys_set. split.
      * intros [Hk|(v & Hv)]; [|right; exists v; by right].
        case_decide; [by left|].
        apply elem_of_app in Hk as [?|Hk]; [by left|].
        apply list_elem_of_singleton in Hk as ->. right. exists v'. left.
      * intros [Hk|(v & Hv)].
        { left. case_decide; [done|]. apply elem_of_app. by left. }
        apply elem_of_cons in Hv as [Heq|Hv]; [|right; by exists v].
        injection Heq as -> ->.
        left. case_decide; [done|]. apply elem_of_app. right. left.
    + split; (intros [?|(v & Hv)]; [by left|right; exists v]).
      * by right.
      * by apply elem_of_cons in Hv as [?|?].
Qed.

Lemma unihex_advances_lines self tgt hex_file size_overrides path entries lines :
  get_resource_path self tgt hex_file "" "" false = Ok path ->
  open_file self tgt path = Ok (ZipArchive entries) ->
  find_hex entries = Some lines ->
  unihex_advances self tgt hex_file size_overrides
  = foldM (unihex_line self (build_overrides size_overrides)) lines [].
Proof.
  intros Hp Hf Hl. unfold unihex_advances.
  rw_bind Hp. rw_bind Hf. by rewrite Hl.
Qed.

Lemma unihex_lines_entries self ovs lines adv :
  foldM (unihex_line self ovs) lines [] = Ok adv ->
  ∃ es, Forall2 (fun line e => unihex_entry self ovs line = Ok e) lines es
        ∧ adv = foldl assign [] es.
Proof. apply (foldM_assign (unihex_entry self ovs)). Qed.

Lemma convert_unihex_Some self tgt hex_file size_overrides p :
  convert_unihex_provider self tgt hex_file size_overrides = Ok (Some p) ->
  ∃ adv, unihex_advances self tgt hex_file size_overrides = Ok adv
         ∧ adv ≠ [] ∧ p = space adv.
Proof.
  unfold convert_unihex_provider. case_bool_decide as Hm; [done|].
  intros H. inv_bind H. case_bool_decide as Hl; [done|].
  injection H as <-. exists a. split; [done|]. split; [|done].
  by intros ->.
Qed.

(** C2, as amended: under mode [none] a unihex provider emits nothing;
    a decoded line with codepoint [c] is skipped exactly when the mode is
    [ascii] and [c > 256], or the mode is [all_named], [c > 256] and no
    size-override range holds [c] (so [all] keeps every decoded line);
    a line that is kept assigns, at character [c], the advance
    [(int(0.5 * width) + 1) * width_factor], where [width] is the fixed
    width [right - left + 1] (0 when both endpoints are codepoint 0) of
    the first override range holding [c], and the hex-bitmap extent when
    there is none; and the keys of the emitted advance map are the
    characters of the lines that are kept. *)
Theorem unihex_mode_filtering (self : converter) (tgt : pack)
    (hex_file : string) (size_overrides : list size_override) :
  let ovs := build_overrides size_overrides in
  (mode self = ModeNone ->
   convert_unihex_provider self tgt hex_file size_overrides = Ok None)
  ∧ (∀ line code img c,
       split_colon (list_ascii_of_string line) = Ok (code, img) ->
       int16 code = Ok c ->
       (unihex_entry self ovs line = Ok None <->
          (mode self = ModeAscii ∧ 256 < c)
          ∨ (mode self = ModeAllNamed ∧ 256 < c
             ∧ ¬ in_override size_overrides c))
       ∧ (∀ k a,
            unihex_entry self ovs line = Ok (Some (k, a)) ->
            k = c
            ∧ ∃ width,
                (∀ pre o post,
                   size_overrides = pre ++ o :: post -> in_range o c ->
                   Forall (fun o' => ¬ in_range o' c) pre ->
                   width = fixed_width o)
                ∧ (¬ in_override size_overrides c ->
                   read_hex_bitmap img = Ok width)
                ∧ ∃ x t y,
                    float_of_int width = Ok x
                    ∧ int_of_float (0.5 * x) = Ok t
                    ∧ float_of_int (t + 1) = Ok y
                    ∧ a = PyFloat (y * width_factor self)))
  ∧ (∀ path entries lines adv,
       get_resource_path self tgt hex_file "" "" false = Ok path ->
       open_file self tgt path = Ok (ZipArchive entries) ->
       find_hex entries = Some lines ->
       convert_unihex_provider self tgt hex_file size_overrides
       = Ok (Some (space adv)) ->
       ∀ k, k ∈ dict_keys adv <->
            ∃ line a, line ∈ lines
                      ∧ unihex_entry self ovs line = Ok (Some (k, a))).
Proof.
  intros ovs. split; [|split].
  - intros Hm. unfold convert_unihex_provider.
    by rewrite bool_decide_eq_true_2.
  - intros line code img c Hsplit Hcode. unfold unihex_entry.
    rewrite Hsplit. cbn [mbind result_bind]. rewrite Hcode.
    cbn [mbind result_bind]. split.
    + rewrite <- (unihex_width_None self size_overrides c img). fold ovs.
      destruct (unihex_width self ovs c img) as [[w|]|e]; cbn [mbind result_bind];
        [|done|done].
      destruct (unihex_advance self w) as [a|]; cbn [mbind result_bind];
        [|by split].
      destruct (chr c); cbn [mbind result_bind]; by split.
    + intros k a H. inv_bind H. destruct a0 as [w|]; [|done].
      inv_bind H. inv_bind H. injection H as <- <-.
      unfold chr in Ha1. case_match; [|done]. injection Ha1 as <-.
      split; [done|]. exists w.
      destruct (unihex_width_Some _ _ _ _ _ Ha) as [Hov Hbm].
      split; [done|]. split; [done|].
      unfold unihex_advance in Ha0. inv_bind Ha0. inv_bind Ha0.
      unfold int_mul_float in Ha0. inv_bind Ha0. injection Ha0 as <-.
      by exists a, a1, a2.
  - subst ovs. intros path entries lines adv Hp Hf Hl Hconv k.
    apply convert_unihex_Some in Hconv as (adv' & Hadv & _ & [= <-]).
    rewrite (unihex_advances_lines _ _ _ _ _ _ _ Hp Hf Hl) in Hadv.
    apply unihex_lines_entries in Hadv as (es & Hes & ->).
    rewrite foldl_assign_keys. split.
    + intros [Hk|(v & Hv)]; [by apply elem_of_nil in Hk|].
      apply list_elem_of_lookup in Hv as [i Hi].
      destruct (Forall2_lookup_r _ _ _ _ _ Hes Hi) as (line & Hline & He).
      exists line, v. split; [|done]. by eapply list_elem_of_lookup_2.
    + intros (line & a & Hline & He). right. exists a.
      apply list_elem_of_lookup in Hline as [i Hi].
      destruct (Forall2_lookup_l _ _ _ _ _ Hes Hi) as (e & He' & Hee).
      rewrite He in Hee. injection Hee as <-. by eapply list_elem_of_lookup_2.
Qed.

(** With mode [ascii] only codepoint 65 of the sample file is kept; with
    mode [all] both lines are. *)
Example unihex_sample_ascii :
  convert_unihex_provider (sample_converter ModeAscii) sample_pack
    "minecraft:font/unifont.zip" []
  = Ok (Some (space [(65, PyFloat 2)])).
Proof. vm_compute. reflexivity. Qed.

Example unihex_sample_all :
  convert_unihex_provider (sample_converter ModeAll) sample_pack
    "minecraft:font/unifont.zip" []
  = Ok (Some (space [(65, PyFloat 2); (9731, PyFloat 2)])).
Proof. vm_compute. reflexivity. Qed.

Lemma unihex_mode_filtering_witness :
  65 ∈ dict_keys [(65, PyFloat 2)] <->
  ∃ line a,
    line ∈ sample_hex_lines
    ∧ unihex_entry (sample_converter ModeAscii) (build_overrides []) line
      = Ok (Some (65, a)).
Proof.
  apply (proj2 (proj2 (unihex_mode_filtering (sample_converter ModeAscii)
                         sample_pack "minecraft:font/unifont.zip" []))
           (TargetRoot, "assets/minecraft/font/unifont.zip"%string)
           [("readme.txt"%string, []); ("unifont.hex"%string, sample_hex_lines)]
           sample_hex_lines [(65, PyFloat 2)]);
    vm_compute; reflexivity.
Defined.

(** C2 as stated fails for mode [all_named]: the snowman line of the
    sample file has a defined glyph, so the stated rule keeps it, yet the
    converter skips it (its codepoint is above 256 and in no override
    range) and the emitted map holds codepoint 65 only. *)
Lemma unihex_all_named_counterexample :
  ¬ (included (sample_converter ModeAllNamed) []
       ("2603:" +:+ sample_glyph)
     <-> all_named_keeps [] 9731 (list_ascii_of_string sample_glyph))
  ∧ convert_unihex_provider (sample_converter ModeAllNamed) sample_pack
      "minecraft:font/unifont.zip" []
    = Ok (Some (space [(65, PyFloat 2)])).
Proof.
  split; [|vm_compute; reflexivity].
  intros [_ H]. destruct H as [e He].
  - right. right. exists 2. split; [vm_compute; reflexivity | lia].
  - vm_compute in He. discriminate.
Qed.

(** ** Bitmap providers *)

Lemma scan_bitmap_col_ink img x y h :
  scan_bitmap_col img x y h = true <-> column_has_ink img x y h.
Proof.
  unfold scan_bitmap_col, column_has_ink. rewrite existsb_exists. split.
  - intros (i & Hi & Ha). apply in_seq in Hi.
    exists (Z.of_nat i). split; [lia|].
    apply negb_true_iff, Z.eqb_neq in Ha. done.
  - intros (k & Hk & Ha). exists (Z.to_nat k). split.
    + apply in_seq. lia.
    + rewrite Z2Nat.id by lia. by apply negb_true_iff, Z.eqb_neq.
Qed.

(** The right-to-left scan stops at the largest offset the test accepts. *)
Lemma scan_width_spec (scan : Z -> bool) (n : nat) :
  (scan_width scan n = 0
   ∧ ∀ i, 0 <= i < Z.of_nat n -> scan i = false)
  ∨ (∃ i, 0 <= i < Z.of_nat n ∧ scan_width scan n = i + 1
          ∧ scan i = true
          ∧ ∀ j, i < j < Z.of_nat n -> scan j = false).
Proof.
  induction n as [|n IH]; simpl scan_width.
  - left. split; [done|]. lia.
  - destruct (scan (Z.of_nat n)) eqn:Hs.
    + right. exists (Z.of_nat n). repeat split; try done; lia.
    + destruct IH as [[Hw Hno]|(i & Hi & Hw & Hsi & Hno)].
      * left. split; [done|]. intros i Hi.
        destruct (decide (i = Z.of_nat n)) as [->|]; [done|]. apply Hno. lia.
      * right. exists i. repeat split; try done; try lia. intros j Hj.
        destruct (decide (j = Z.of_nat n)) as [->|]; [done|]. apply Hno. lia.
Qed.

Lemma glyph_width_ink img char_width char_height x y :
  ink_width img (Z.of_nat x * char_width) (Z.of_nat y * char_height)
            char_width char_height
            (glyph_width img char_width char_height x y).
Proof.
  unfold glyph_width, ink_width.
  set (scan := fun i => scan_bitmap_col img _ _ char_height).
  destruct (scan_width_spec scan (Z.to_nat char_width))
    as [[Hw Hno]|(i & Hi & Hw & Hsi & Hno)].
  - left. split; [done|]. intros i Hi Hink.
    apply scan_bitmap_col_ink in Hink.
    specialize (Hno i). unfold scan in Hno. rewrite Hink in Hno.
    assert (0 <= i < Z.of_nat (Z.to_nat char_width)) as Hr by lia.
    by specialize (Hno Hr).
  - right. exists i. split; [lia|]. split; [done|]. split.
    + by apply scan_bitmap_col_ink.
    + intros j Hj Hink. apply scan_bitmap_col_ink in Hink.
      specialize (Hno j). unfold scan in Hno. rewrite Hink in Hno.
      assert (i < j < Z.of_nat (Z.to_nat char_width)) as Hr by lia.
      by specialize (Hno Hr).
Qed.

Lemma cell_entry_key self img height cw ch y xc k a :
  cell_entry self img height cw ch y xc = Ok (Some (k, a)) ->
  k = xc.2 ∧ is_blank xc.2 = false.
Proof.
  unfold cell_entry. destruct (is_blank xc.2); [done|].
  intros H. inv_bind H. by injection H as <- _.
Qed.

Lemma grid_entry_key self img height n c k a :
  grid_entry self img height n c = Ok (Some (k, a)) ->
  k = cell_char c ∧ is_blank (cell_char c) = false.
Proof.
  unfold grid_entry. intros H. inv_bind H. inv_bind H.
  by apply cell_entry_key in H.
Qed.

Lemma convert_row_entries self img height n res yl res' :
  convert_row self img height n res yl = Ok res' ->
  ∃ es, Forall2 (fun c e => grid_entry self img height n c = Ok e)
                (row_cells yl) es
        ∧ res' = foldl assign res es.
Proof.
  unfold convert_row. intros H. inv_bind H. inv_bind H.
  apply (foldM_assign (cell_entry self img height a0 a yl.1)) in H
    as (es & Hes & ->).
  exists es. split; [|done]. unfold row_cells. apply Forall2_fmap_l.
  eapply Forall2_impl; [apply Hes|]. intros [x c] e He.
  unfold grid_entry. simpl. rw_bind Ha. rw_bind Ha0. done.
Qed.

Lemma convert_rows_entries self img height n rows : ∀ res res',
  foldM (convert_row self img height n) rows res = Ok res' ->
  ∃ es, Forall2 (fun c e => grid_entry self img height n c = Ok e)
                (concat (row_cells <$> rows)) es
        ∧ res' = foldl assign res es.
Proof.
  induction rows as [|yl rows IH]; intros res res'; simpl.
  - intros [= <-]. exists []. by split.
  - intros H. inv_bind H.
    apply convert_row_entries in Ha as (es1 & Hes1 & ->).
    apply IH in H as (es2 & Hes2 & ->).
    exists (es1 ++ es2). split; [by apply Forall2_app|].
    by rewrite foldl_app.
Qed.

Lemma convert_bitmap_entries self tgt file chars height path img res :
  get_resource_path self tgt file "textures" "" false = Ok path ->
  open_file self tgt path = Ok (ImageFile img) ->
  convert_bitmap_provider self tgt file chars height = Ok (space res) ->
  ∃ es, Forall2 (fun c e => grid_entry self img (default 8 height)
                                       (length chars) c = Ok e)
                (grid_cells chars) es
        ∧ res = foldl assign [] es.
Proof.
  intros Hp Hf. unfold convert_bitmap_provider. rw_bind Hp. rw_bind Hf.
  intros H. inv_bind H. injection H as <-.
  by apply convert_rows_entries in Ha.
Qed.

(** Entries along a decomposition of the traversed list. *)
Lemma Forall2_split_l {A B} (R : A -> B -> Prop) pre x post es :
  Forall2 R (pre ++ x :: post) es ->
  ∃ es1 e es2, es = es1 ++ e :: es2 ∧ Forall2 R pre es1 ∧ R x e
               ∧ Forall2 R post es2.
Proof.
  intros (es1 & es' & H1 & H2 & ->)%Forall2_app_inv_l.
  apply Forall2_cons_inv_l in H2 as (e & es2 & He & H2 & ->).
  by exists es1, e, es2.
Qed.

Lemma grid_entries_miss self img height n post es k :
  Forall2 (fun c e => grid_entry self img height n c = Ok e) post es ->
  Forall (fun c' => cell_char c' ≠ k) post ->
  ∀ v, Some (k, v) ∉ es.
Proof.
  intros Hes Hpost v Hv. apply list_elem_of_lookup in Hv as [i Hi].
  destruct (Forall2_lookup_r _ _ _ _ _ Hes Hi) as (c & Hc & He).
  apply grid_entry_key in He as [-> _].
  eapply Forall_lookup_1 in Hpost; [|done]. done.
Qed.

(** Five inked columns in a cell as tall as the logical height: the
    true division [5 * ch / ch] is exactly 5. *)
Lemma int_truediv_five ch : 0 < ch -> int_truediv (5 * ch) ch = Ok 5%float.
Proof.
  intros Hch. unfold int_truediv.
  rewrite (proj2 (Z.eqb_neq ch 0)) by lia.
  rewrite (proj2 (Z.ltb_ge (5 * ch) 0)), (proj2 (Z.ltb_ge ch 0)) by lia.
  rewrite (proj2 (Z.eqb_neq (5 * ch) 0)) by lia.
  rewrite !Z.abs_eq by lia. cbn [xorb].
  set (k := Z.max 0 (56 + Z.log2 ch - Z.log2 (5 * ch))).
  assert (0 <= k) as Hk by (subst k; lia).
  replace (5 * ch * 2 ^ k) with (5 * 2 ^ k * ch) by lia.
  rewrite Z.div_mul, Z.mod_mul by lia. cbn [Z.eqb].
  assert (k = 53 ∨ k = 54) as [-> | ->]; [|vm_compute; reflexivity ..].
  assert (Z.log2 ch + 2 <= Z.log2 (5 * ch) <= Z.log2 ch + 3); [|subst k; lia].
  split.
  - replace (Z.log2 ch + 2) with (Z.log2 (ch * 2 ^ 2))
      by (rewrite Z.log2_mul_pow2; lia).
    apply Z.log2_le_mono. lia.
  - replace (Z.log2 ch + 3) with (Z.log2 (ch * 2 ^ 3))
      by (rewrite Z.log2_mul_pow2; lia).
    apply Z.log2_le_mono. lia.
Qed.

(** C4: for every glyph cell of a bitmap provider holding a character
    other than NUL and space, the advance assigned for the cell is
    [(int(0.5 + w * height / char_height) + 1) * width_factor], where [w]
    is one more than the largest column offset of the cell whose column
    has a pixel of non-zero alpha, and 0 when no column has; this is the
    value the emitted map holds for the character when no later cell
    holds it again.  Five inked columns, a cell height equal to the
    logical height and a factor of 1 give the advance 6. *)
Theorem bitmap_cell_advance (self : converter) (tgt : pack) (file : string)
    (chars : list (list char)) (height : option Z)
    (path : root * string) (img : image) (res : dict pynum) :
  get_resource_path self tgt file "textures" "" false = Ok path ->
  open_file self tgt path = Ok (ImageFile img) ->
  convert_bitmap_provider self tgt file chars height = Ok (space res) ->
  ∀ pre c post,
    grid_cells chars = pre ++ c :: post ->
    is_blank (cell_char c) = false ->
    let h := default 8 height in
    let char_height := img_height img / Z.of_nat (length chars) in
    let char_width := img_width img / Z.of_nat (cell_cols c) in
    ∃ w q t y,
      ink_width img (Z.of_nat (cell_x c) * char_width)
                (Z.of_nat (cell_y c) * char_height) char_width char_height w
      ∧ int_truediv (w * h) char_height = Ok q
      ∧ int_of_float (0.5 + q) = Ok t
      ∧ float_of_int (t + 1) = Ok y
      ∧ grid_entry self img h (length chars) c
        = Ok (Some (cell_char c, PyFloat (y * width_factor self)))
      ∧ (Forall (fun c' => cell_char c' ≠ cell_char c) post ->
         dict_get res (cell_char c) = Some (PyFloat (y * width_factor self)))
      ∧ (w = 5 -> h = char_height -> 0 < char_height ->
         width_factor self = 1%float ->
         (y * width_factor self)%float = 6%float).
Proof.
  intros Hp Hf Hconv pre c post Hcells Hblank h char_height char_width.
  destruct (convert_bitmap_entries _ _ _ _ _ _ _ _ Hp Hf Hconv)
    as (es & Hes & ->).
  rewrite Hcells in Hes.
  apply Forall2_split_l in Hes as (es1 & e & es2 & -> & _ & He & Hes2).
  fold h in He, Hes2. pose proof He as Hentry.
  unfold grid_entry in He. inv_bind He. inv_bind He.
  unfold floordiv in Ha, Ha0.
  destruct (Z.of_nat (length chars) =? 0); [done|].
  destruct (Z.of_nat (cell_cols c) =? 0); [done|].
  injection Ha as <-. injection Ha0 as <-.
  fold char_height char_width in He.
  unfold cell_entry in He. simpl in He. rewrite Hblank in He.
  inv_bind He. injection He as <-.
  unfold bitmap_advance in Ha. inv_bind Ha. inv_bind Ha.
  unfold int_mul_float in Ha. inv_bind Ha. injection Ha as <-.
  exists (glyph_width img char_width char_height (cell_x c) (cell_y c)),
         a0, a1, a2.
  split; [apply glyph_width_ink|]. split; [done|]. split; [done|].
  split; [done|]. split; [done|]. split.
  - intros Hpost. apply foldl_assign_last.
    by eapply grid_entries_miss.
  - intros Hw Hh Hch Hfac. rewrite Hw, Hh in Ha0.
    rewrite (int_truediv_five char_height Hch) in Ha0. injection Ha0 as <-.
    vm_compute in Ha1. injection Ha1 as <-.
    vm_compute in Ha2. injection Ha2 as <-. rewrite Hfac.
    vm_compute. reflexivity.
Qed.

Lemma bitmap_cell_advance_witness :
  dict_get [(65, PyFloat 6); (66, PyFloat 3)] 65 = Some (PyFloat 6).
Proof.
  destruct (bitmap_cell_advance (sample_converter ModeAscii) sample_textures
              "minecraft:font/sheet.png" [[65; 66]] None
              (TargetRoot, "assets/minecraft/textures/font/sheet.png"%string)
              sample_image [(65, PyFloat 6); (66, PyFloat 3)]
              ltac:(vm_compute; reflexivity) ltac:(vm_compute; reflexivity)
              ltac:(vm_compute; reflexivity)
              [] {| cell_y := 0; cell_x := 0; cell_char := 65; cell_cols := 2 |}
              [{| cell_y := 0; cell_x := 1; cell_char := 66; cell_cols := 2 |}]
              ltac:(vm_compute; reflexivity) ltac:(vm_compute; reflexivity))
    as (w & q & t & y & _ & _ & _ & _ & He & Hres & _).
  vm_compute in He. injection He as He.
  change (width_factor (sample_converter ModeAscii)) with 1%float in Hres.
  rewrite <- He in Hres.
  apply Hres. repeat constructor. vm_compute. discriminate.
Defined.

(** ** Repeated characters *)








(** ** Numeric normalization *)

Lemma dyadic_exact (m z e : Z) :
  e < 0 -> m = z * 2 ^ (- e) ->
  (inject_Z m * Qpower 2 e == inject_Z z)%Q.
Proof.
  intros He ->. rewrite inject_Z_mult.
  replace e with (- - e) at 2 by lia. rewrite Qpower_opp.
  rewrite Zpower_Qpower by lia.
  assert (~ (inject_Z 2 ^ (- e) == 0)%Q) as Hnz.
  { apply Qpower_not_0. done. }
  change (2%Q) with (inject_Z 2). field. exact Hnz.
Qed.

Lemma float_trunc_exact f :
  float_is_integer f = true ->
  ∃ q, float_value f = Some q ∧ (q == inject_Z (float_trunc f))%Q.
Proof.
  unfold float_is_integer, float_value, float_trunc.
  destruct (Prim2SF f) as [s|s| |s m e]; try done.
  - intros _. by exists 0%Q.
  - intros Hw. eexists. split; [done|].
    assert (inject_Z (Z.pos m) * 2 ^ e
            == inject_Z (if 0 <=? e then Z.pos m * 2 ^ e
                         else Z.pos m / 2 ^ (- e)))%Q as Hval.
    { destruct (Z.leb_spec 0 e) as [He|He].
      - rewrite inject_Z_mult, Zpower_Qpower by done. reflexivity.
      - simpl in Hw. apply Z.eqb_eq in Hw. apply dyadic_exact; [done|].
        assert (0 < 2 ^ (- e)) by (apply Z.pow_pos_nonneg; lia).
        rewrite Z.mul_comm. apply Z.div_exact; lia. }
    destruct s; [|done]. rewrite Hval, inject_Z_opp. reflexivity.
Qed.

Lemma assure_num_same_value v : same_value (assure_num v) v.
Proof.
  unfold same_value, assure_num. destruct v as [z|f]; simpl.
  - reflexivity.
  - destruct (float_is_integer f) eqn:Hw; simpl.
    + destruct (float_trunc_exact f Hw) as (q & -> & Hq). by symmetry.
    + destruct (float_value f); [reflexivity | done].
Qed.

Lemma assure_num_normal v : whole_float (assure_num v) = false.
Proof.
  unfold assure_num. destruct v as [z|f]; simpl; [done|].
  destruct (float_is_integer f) eqn:Hw; simpl; done.
Qed.

Lemma assure_num_fixed v : whole_float v = false -> assure_num v = v.
Proof.
  unfold assure_num. destruct v as [z|f]; simpl; [done|]. by intros ->.
Qed.

Lemma dict_get_app_fresh {V} (pre suf : dict V) k :
  k ∉ dict_keys pre -> dict_get (pre ++ suf) k = dict_get suf k.
Proof.
  unfold dict_keys. induction pre as [|[k' v'] pre IH]; simpl; [done|].
  rewrite not_elem_of_cons. intros [Hne Hnin].
  rewrite (proj2 (Z.eqb_neq k' k)) by done. by apply IH.
Qed.

Lemma dict_set_app_fresh {V} (pre suf : dict V) k v :
  k ∉ dict_keys pre -> dict_set k v (pre ++ suf) = pre ++ dict_set k v suf.
Proof.
  unfold dict_keys. induction pre as [|[k' v'] pre IH]; simpl; [done|].
  rewrite not_elem_of_cons. intros [Hne Hnin].
  rewrite (proj2 (Z.eqb_neq k' k)) by done. by rewrite IH.
Qed.

(** On distinct keys the normalization loop rewrites each value in place. *)
Lemma assure_advances_map advances :
  NoDup (dict_keys advances) ->
  assure_advances advances = (fun kv => (kv.1, assure_num kv.2)) <$> advances.
Proof.
  unfold assure_advances.
  enough (∀ suf pre,
    NoDup (dict_keys (pre ++ suf)) ->
    fold_left (fun d k =>
                 match dict_get d k with
                 | Some v =>
                     if num_is_integer v then dict_set k (PyInt (num_int v)) d
                     else d
                 | None => d
                 end) (dict_keys suf) (pre ++ suf)
    = pre ++ ((fun kv => (kv.1, assure_num kv.2)) <$> suf)) as H
    by (intros Hnd; apply (H advances [] Hnd)).
  induction suf as [|[k v] suf IH]; intros pre Hnd; [done|].
  unfold dict_keys in *. rewrite fmap_app, fmap_cons in Hnd.
  apply NoDup_app in Hnd as (Hpre & Hdisj & Hsuf).
  assert (k ∉ pre.*1) as Hk by (intros Hin; apply (Hdisj k Hin); left).
  rewrite fmap_cons. cbn [fold_left fst snd].
  rewrite dict_get_app_fresh by done. cbn [dict_get]. rewrite Z.eqb_refl.
  assert ((if num_is_integer v
           then dict_set k (PyInt (num_int v)) (pre ++ (k, v) :: suf)
           else pre ++ (k, v) :: suf)
          = (pre ++ [(k, assure_num v)]) ++ suf) as ->.
  { unfold assure_num. destruct (num_is_integer v).
    - rewrite dict_set_app_fresh by done. cbn [dict_set].
      rewrite Z.eqb_refl. by rewrite <- app_assoc.
    - by rewrite <- app_assoc. }
  rewrite IH.
  - by rewrite <- app_assoc.
  - rewrite fmap_app, fmap_app, fmap_cons, <- app_assoc. simpl.
    apply NoDup_app. done.
Qed.

Lemma assure_advances_fixed advances :
  normalized advances -> assure_advances advances = advances.
Proof.
  unfold assure_advances, normalized. intros Hn.
  enough (∀ ks, fold_left (fun d k =>
                 match dict_get d k with
                 | Some v =>
                     if num_is_integer v then dict_set k (PyInt (num_int v)) d
                     else d
                 | None => d
                 end) ks advances = advances) as H by apply H.
  induction ks as [|k ks IH]; [done|]. cbn [fold_left].
  destruct (dict_get advances k) as [v|] eqn:Hget; [|done].
  pose proof (dict_get_elem_of _ _ _ Hget) as Hin.
  eapply Forall_forall in Hn; [|done]. simpl in Hn.
  destruct v as [z|f]; simpl in *.
  - by rewrite dict_set_same.
  - by rewrite Hn.
Qed.

Lemma assure_advances_normalized advances :
  NoDup (dict_keys advances) -> normalized (assure_advances advances).
Proof.
  intros Hnd. rewrite assure_advances_map by done. unfold normalized.
  apply Forall_fmap, Forall_forall. intros [k v] _. apply assure_num_normal.
Qed.

(** *** Whole numbers, independently of the code's test *)

Lemma dyadic_whole (m z e : Z) :
  e < 0 -> (inject_Z m * Qpower 2 e == inject_Z z)%Q -> m = z * 2 ^ (- e).
Proof.
  intros He H.
  assert (Qpower 2 e * inject_Z (2 ^ (- e)) == 1)%Q as Hp.
  { rewrite Zpower_Qpower by lia. change (inject_Z 2) with 2%Q.
    rewrite <- Qpower_plus by done. replace (e + - e) with 0 by lia.
    reflexivity. }
  apply inject_Z_injective. rewrite inject_Z_mult, <- H.
  rewrite <- Qmult_assoc, Hp, Qmult_1_r. reflexivity.
Qed.

(** A real has the value of an integer exactly when the code's test
    [is_integer] says so. *)
Lemma float_is_integer_whole f :
  float_is_integer f = true <-> whole (PyFloat f).
Proof.
  split.
  - intros Hw. destruct (float_trunc_exact f Hw) as (q & Hq & Hz).
    by exists q, (float_trunc f).
  - intros (q & z & Hq & Hz). simpl in Hq.
    unfold float_value in Hq. unfold float_is_integer.
    destruct (Prim2SF f) as [s|s| |s m e]; try done.
    injection Hq as <-.
    destruct (Z.leb_spec 0 e) as [He|He]; [done|]. simpl.
    apply Z.eqb_eq.
    assert (∃ z', inject_Z (Z.pos m) * Qpower 2 e == inject_Z z')%Q
      as [z' Hz'].
    { destruct s.
      - exists (- z). rewrite inject_Z_opp, <- Hz. ring.
      - by exists z. }
    rewrite (dyadic_whole _ _ _ He Hz'). apply Z.mod_mul.
    assert (0 < 2 ^ (- e)) by (apply Z.pow_pos_nonneg; lia). lia.
Qed.

Lemma normalized_whole_as_int advances :
  normalized advances <-> whole_as_int advances.
Proof.
  unfold normalized, whole_as_int. rewrite Forall_forall. split.
  - intros Hn k [z|f] Hin Hw; [by exists z|].
    apply Hn in Hin. simpl in Hin.
    apply float_is_integer_whole in Hw. congruence.
  - intros Hw [k [z|f]] Hin; simpl; [done|].
    destruct (float_is_integer f) eqn:Hf; [|done].
    apply float_is_integer_whole in Hf.
    destruct (Hw _ _ Hin Hf) as [z Hz]. discriminate.
Qed.

(** *** The normalization on a given interpreter *)



(** On a map of reals with distinct keys the interpreter does not
    matter: no integer is ever asked for [is_integer]. *)
Lemma assure_advances_on_floats py312 advances :
  NoDup (dict_keys advances) ->
  Forall (fun kv => is_float kv.2) advances ->
  assure_advances_on py312 advances = Ok (assure_advances advances).
Proof.
  intros Hnd Hfl. rewrite (assure_advances_map _ Hnd).
  unfold assure_advances_on.
  enough (∀ suf pre,
    NoDup (dict_keys (pre ++ suf)) ->
    Forall (fun kv => is_float kv.2) suf ->
    foldM (fun d k =>
             match dict_get d k with
             | Some v =>
                 is_integer py312 v ≫= fun w : bool =>
                 if w then Ok (dict_set k (PyInt (num_int v)) d) else Ok d
             | None => Ok d
             end) (dict_keys suf) (pre ++ suf)
    = Ok (pre ++ ((fun kv => (kv.1, assure_num kv.2)) <$> suf))) as H
    by (apply (H advances [] Hnd Hfl)).
  clear. induction suf as [|[k v] suf IH]; intros pre Hnd Hfl; [done|].
  apply Forall_cons in Hfl as [Hv Hfl]. destruct v as [z|f]; [done|].
  unfold dict_keys in *. rewrite fmap_app, fmap_cons in Hnd.
  pose proof Hnd as Hnd'.
  apply NoDup_app in Hnd as (Hpre & Hdisj & Hsuf).
  assert (k ∉ pre.*1) as Hk by (intros Hin; apply (Hdisj k Hin); left).
  rewrite fmap_cons. cbn [foldM fst snd].
  rewrite dict_get_app_fresh by done. cbn [dict_get]. rewrite Z.eqb_refl.
  cbn [is_integer mbind result_bind].
  assert ((if float_is_integer f
           then Ok (dict_set k (PyInt (num_int (PyFloat f)))
                             (pre ++ (k, PyFloat f) :: suf))
           else Ok (pre ++ (k, PyFloat f) :: suf))
          = Ok ((pre ++ [(k, assure_num (PyFloat f))]) ++ suf)) as ->.
  { unfold assure_num. simpl. destruct (float_is_integer f).
    - rewrite dict_set_app_fresh by done. cbn [dict_set].
      rewrite Z.eqb_refl. by rewrite <- app_assoc.
    - by rewrite <- app_assoc. }
  cbn [mbind result_bind]. rewrite IH.
  - by rewrite <- app_assoc.
  - rewrite fmap_app, fmap_app, fmap_cons, <- app_assoc. simpl.
    exact Hnd'.
  - done.
Qed.






(** ** Merging advance maps *)

Lemma dict_update_NoDup {V} (b : dict V) : ∀ a,
  NoDup (dict_keys a) -> NoDup (dict_keys (dict_update a b)).
Proof.
  unfold dict_update. induction b as [|[k v] b IH]; intros a Ha; simpl; [done|].
  by apply IH, dict_set_NoDup.
Qed.

Lemma dict_update_elem_of {V} (b : dict V) : ∀ a x,
  x ∈ dict_update a b -> x ∈ a ∨ x ∈ b.
Proof.
  unfold dict_update. induction b as [|[k v] b IH]; intros a x; simpl.
  - by left.
  - intros [Hx|Hx]%IH; [|right; by right].
    apply dict_set_elem_of in Hx as [->|Hx]; [right; left | by left].
Qed.

Lemma dict_set_in_keys {V} (d : dict V) k v : k ∈ dict_keys (dict_set k v d).
Proof.
  rewrite dict_keys_set. case_decide; [done|]. apply elem_of_app. right. left.
Qed.

(** Updating with [b] commutes with an assignment to a key that [b]
    does not rebind and that is already present. *)
Lemma dict_update_set_present {V} (b : dict V) : ∀ a k v,
  k ∉ dict_keys b -> k ∈ dict_keys a ->
  dict_set k v (dict_update a b) = dict_update (dict_set k v a) b.
Proof.
  unfold dict_update, dict_keys.
  induction b as [|[k' v'] b IH]; intros a k v Hnin Hin; simpl; [done|].
  rewrite fmap_cons, not_elem_of_cons in Hnin. destruct Hnin as [Hne Hnin].
  simpl in Hne. rewrite IH.
  - by rewrite dict_set_comm.
  - done.
  - fold (dict_keys (dict_set k' v' a)). rewrite dict_keys_set.
    case_decide; [done|]. apply elem_of_app. by left.
Qed.

Lemma dict_update_set_r {V} (b : dict V) : ∀ a k v,
  NoDup (dict_keys b) ->
  dict_update a (dict_set k v b) = dict_set k v (dict_update a b).
Proof.
  unfold dict_keys.
  induction b as [|[k' v'] b IH]; intros a k v Hb; [done|].
  rewrite fmap_cons in Hb. apply NoDup_cons in Hb as [Hnin Hb]. simpl in Hnin.
  cbn [dict_set]. destruct (Z.eqb_spec k' k) as [->|Hne].
  - unfold dict_update. cbn [fold_left fst snd].
    fold (dict_update (dict_set k v a) b) (dict_update (dict_set k v' a) b).
    rewrite (dict_update_set_present b (dict_set k v' a) k v Hnin
               (dict_set_in_keys a k v')).
    by rewrite dict_set_set.
  - unfold dict_update. cbn [fold_left fst snd].
    apply (IH (dict_set k' v' a) k v Hb).
Qed.

(** Updating is associative on maps with distinct keys, order included. *)
Lemma dict_update_assoc {V} (c : dict V) : ∀ a b,
  NoDup (dict_keys b) ->
  dict_update a (dict_update b c) = dict_update (dict_update a b) c.
Proof.
  induction c as [|[k v] c IH]; intros a b Hb; [done|].
  change (dict_update b ((k, v) :: c)) with (dict_update (dict_set k v b) c).
  change (dict_update (dict_update a b) ((k, v) :: c))
    with (dict_update (dict_set k v (dict_update a b)) c).
  rewrite IH by by apply dict_set_NoDup.
  by rewrite dict_update_set_r.
Qed.

Lemma dict_update_fold (ds : list (dict pynum)) : ∀ a d,
  NoDup (dict_keys d) -> Forall (fun x => NoDup (dict_keys x)) ds ->
  dict_update a (fold_left dict_update ds d)
  = fold_left dict_update ds (dict_update a d).
Proof.
  induction ds as [|x ds IH]; intros a d Hd Hds; simpl; [done|].
  inversion Hds; subst.
  rewrite IH by (try done; by apply dict_update_NoDup).
  by rewrite dict_update_assoc.
Qed.

(** The pops of the merge loop compute the left fold of the maps. *)
Lemma nested_update_fold (ds : list (dict pynum)) : ∀ d,
  Forall (fun x => NoDup (dict_keys x)) ds ->
  nested_update d ds = fold_left dict_update ds d.
Proof.
  induction ds as [|d' ds IH]; intros d Hds; simpl; [done|].
  inversion Hds; subst. rewrite IH by done. by apply dict_update_fold.
Qed.

Lemma nested_update_snoc (ds : list (dict pynum)) : ∀ d x y,
  nested_update d (ds ++ [x; y]) = nested_update d (ds ++ [dict_update x y]).
Proof.
  induction ds as [|d' ds IH]; intros d x y; simpl; [done|]. by rewrite IH.
Qed.

Lemma merge_loop_spaces (n : nat) : ∀ d ds,
  (length ds <= n)%nat ->
  merge_loop n (space <$> d :: ds) = Ok [space (nested_update d ds)].
Proof.
  induction n as [|n IH]; intros d ds Hlen.
  - destruct ds; [done | simpl in Hlen; lia].
  - cbn [merge_loop]. rewrite <- fmap_reverse.
    destruct (reverse (d :: ds)) as [|y [|x r]] eqn:Hrev.
    + apply (f_equal reverse) in Hrev. by rewrite reverse_involutive in Hrev.
    + apply (f_equal reverse) in Hrev. rewrite reverse_involutive in Hrev.
      cbn in Hrev. by injection Hrev as -> ->.
    + apply (f_equal reverse) in Hrev. rewrite reverse_involutive in Hrev.
      rewrite !reverse_cons, <- app_assoc in Hrev. simpl in Hrev.
      cbn [fmap list_fmap]. unfold merge_into. simpl.
      change (list_fmap _ _ space r) with (space <$> r).
      rewrite reverse_cons, <- fmap_reverse.
      change ({| body := Space (dict_update x y); filter := None |})
        with (space (dict_update x y)).
      replace ((space <$> reverse r) ++ [space (dict_update x y)])
        with (space <$> (reverse r ++ [dict_update x y]))
        by by rewrite fmap_app.
      destruct (reverse r) as [|d0 r'] eqn:Hr; simpl in Hrev.
      * injection Hrev as -> ->.
        apply (IH (dict_update x y) []). simpl. lia.
      * injection Hrev as -> ->.
        change ((d0 :: r') ++ [dict_update x y])
          with (d0 :: (r' ++ [dict_update x y])).
        rewrite IH.
        -- by rewrite nested_update_snoc.
        -- rewrite length_app in *. simpl in *. lia.
Qed.

Lemma merge_space_providers_fold (maps : list (dict pynum)) :
  Forall (fun x => NoDup (dict_keys x)) maps ->
  merge_space_providers (space <$> maps) = Ok (merge_advances maps).
Proof.
  intros Hm. unfold merge_space_providers. destruct maps as [|d ds]; [done|].
  rewrite merge_loop_spaces by (rewrite length_fmap; simpl; lia).
  inversion Hm; subst. simpl. by rewrite nested_update_fold.
Qed.

(** ** What a converted provider looks like *)

Lemma foldM_invariant {A B} (P : A -> Prop) (f : A -> B -> result A) l :
  (∀ acc x acc', f acc x = Ok acc' -> P acc -> P acc') ->
  ∀ acc r, P acc -> foldM f l acc = Ok r -> P r.
Proof.
  intros Hf. induction l as [|x l IH]; intros acc r Hacc; simpl.
  - by intros [= <-].
  - intros H. inv_bind H as acc' Hx. eapply IH; [|done]. by eapply Hf.
Qed.

Lemma convert_space_provider_shape self advances q :
  convert_space_provider self advances = Ok q ->
  ∃ adv, q = space adv ∧ NoDup (dict_keys adv).
Proof.
  unfold convert_space_provider. intros H. inv_bind H as adv Hadv.
  injection H as <-. exists adv. split; [done|].
  eapply (foldM_invariant (fun d => NoDup (dict_keys d))); [| |done].
  - intros acc kv acc' Hs Hacc. inv_bind Hs as x Hx. injection Hs as <-.
    by apply dict_set_NoDup.
  - constructor.
Qed.

Lemma convert_ttf_provider_shape self tgt file size oversample skip q :
  convert_ttf_provider self tgt file size oversample skip = Ok q ->
  ∃ adv, q = space adv ∧ NoDup (dict_keys adv).
Proof.
  unfold convert_ttf_provider. intros H. inv_bind H as path Hp.
  inv_bind H as f Hf. destruct f; try done.
  inv_bind H as adv Hadv. injection H as <-. exists adv. split; [done|].
  eapply (foldM_invariant (fun d => NoDup (dict_keys d))); [| |done].
  - intros acc ci acc' Hs Hacc. inv_bind Hs as ch Hch.
    case_bool_decide; [by injection Hs as <-|].
    inv_bind Hs as a Ha. inv_bind Hs as b Hb. injection Hs as <-.
    by apply dict_set_NoDup.
  - constructor.
Qed.

Lemma convert_bitmap_provider_shape self tgt file chars height q :
  convert_bitmap_provider self tgt file chars height = Ok q ->
  ∃ adv, q = space adv ∧ NoDup (dict_keys adv).
Proof.
  unfold convert_bitmap_provider. intros H. inv_bind H as path Hp.
  inv_bind H as f Hf. destruct f; try done.
  inv_bind H as adv Hadv. injection H as <-. exists adv. split; [done|].
  apply convert_rows_entries in Hadv as (es & _ & ->).
  apply foldl_assign_NoDup. constructor.
Qed.

Lemma unihex_advances_NoDup self tgt hex_file size_overrides adv :
  unihex_advances self tgt hex_file size_overrides = Ok adv ->
  NoDup (dict_keys adv).
Proof.
  unfold unihex_advances. intros H. inv_bind H as path Hp.
  inv_bind H as f Hf. destruct f; try done.
  destruct (find_hex entries); [|done].
  apply unihex_lines_entries in H as (es & _ & ->).
  apply foldl_assign_NoDup. constructor.
Qed.

Lemma convert_provider_shape self rec p st q st' :
  convert_provider self rec p st = Ok (Some q, st') ->
  (∃ id, q = {| body := Reference id; filter := None |})
  ∨ (∃ adv, q = space adv ∧ NoDup (dict_keys adv)).
Proof.
  unfold convert_provider. destruct (body p); intros H.
  - inv_bind H as [q' st1] Hq. injection H as <- <-.
    unfold convert_reference_provider in Hq.
    inv_bind Hq as [new_id st2] Hr. injection Hq as <- <-. left. by eexists.
  - inv_bind H as q' Hq. injection H as <- <-. right.
    by eapply convert_space_provider_shape.
  - inv_bind H as q' Hq. injection H as <- <-. right.
    by eapply convert_ttf_provider_shape.
  - inv_bind H as q' Hq. injection H as <- <-. right.
    by eapply convert_bitmap_provider_shape.
  - inv_bind H as q' Hq. injection H as -> <-. right.
    apply convert_unihex_Some in Hq as (adv & Hadv & _ & ->).
    exists adv. split; [done|]. by eapply unihex_advances_NoDup.
  - done.
Qed.

Lemma assure_integers_space adv :
  assure_integers (space adv) = space (assure_advances adv).
Proof. done. Qed.

Lemma assure_advances_NoDup adv :
  NoDup (dict_keys adv) -> NoDup (dict_keys (assure_advances adv)).
Proof.
  intros Hnd. rewrite assure_advances_map by done.
  unfold dict_keys in *. by rewrite <- list_fmap_compose.
Qed.

(** *** Converted advances are reals *)

Lemma dict_set_floats (d : dict pynum) k f :
  Forall (fun kv => is_float kv.2) d ->
  Forall (fun kv => is_float kv.2) (dict_set k (PyFloat f) d).
Proof.
  rewrite !Forall_forall. intros Hd x Hx.
  apply dict_set_elem_of in Hx as [->|Hx]; [done | by apply Hd].
Qed.

Lemma foldl_assign_floats (es : list (option (char * pynum))) :
  Forall (fun e => ∀ k v, e = Some (k, v) -> is_float v) es ->
  ∀ d, Forall (fun kv => is_float kv.2) d ->
       Forall (fun kv => is_float kv.2) (foldl assign d es).
Proof.
  induction 1 as [|e es He _ IH]; intros d Hd; simpl; [done|].
  apply IH. destruct e as [[k [z|f]]|]; simpl; [|by apply dict_set_floats|done].
  by destruct (He k (PyInt z)).
Qed.

Lemma entries_floats {X} (step : X -> result (option (char * pynum))) l es :
  (∀ x k v, step x = Ok (Some (k, v)) -> is_float v) ->
  Forall2 (fun x e => step x = Ok e) l es ->
  Forall (fun e => ∀ k v, e = Some (k, v) -> is_float v) es.
Proof.
  intros Hstep Hes. apply Forall_forall. intros e He k v ->.
  apply list_elem_of_lookup in He as [i Hi].
  destruct (Forall2_lookup_r _ _ _ _ _ Hes Hi) as (x & _ & Hx).
  by eapply Hstep.
Qed.

Lemma convert_space_provider_floats self advances adv :
  convert_space_provider self advances = Ok (space adv) ->
  Forall (fun kv => is_float kv.2) adv.
Proof.
  unfold convert_space_provider. intros H. inv_bind H as adv' Hadv.
  injection H as <-.
  eapply (foldM_invariant (fun d => Forall (fun kv => is_float kv.2) d));
    [| |done].
  - intros acc kv acc' Hs Hacc. inv_bind Hs as x Hx. injection Hs as <-.
    by apply dict_set_floats.
  - constructor.
Qed.

Lemma convert_ttf_provider_floats self tgt file size oversample skip adv :
  convert_ttf_provider self tgt file size oversample skip = Ok (space adv) ->
  Forall (fun kv => is_float kv.2) adv.
Proof.
  unfold convert_ttf_provider. intros H. inv_bind H as path Hp.
  inv_bind H as f Hf. destruct f; try done.
  inv_bind H as adv' Hadv. injection H as <-.
  eapply (foldM_invariant (fun d => Forall (fun kv => is_float kv.2) d));
    [| |done].
  - intros acc ci acc' Hs Hacc. inv_bind Hs as ch Hch.
    case_bool_decide; [by injection Hs as <-|].
    inv_bind Hs as a Ha. inv_bind Hs as b Hb. injection Hs as <-.
    by apply dict_set_floats.
  - constructor.
Qed.

Lemma grid_entry_float self img height n c k v :
  grid_entry self img height n c = Ok (Some (k, v)) -> is_float v.
Proof.
  unfold grid_entry. intros H. inv_bind H as ch Hch. inv_bind H as cw Hcw.
  unfold cell_entry in H. destruct (is_blank _); [done|].
  inv_bind H as a Ha. by injection H as _ <-.
Qed.

Lemma unihex_entry_float self ovs line k v :
  unihex_entry self ovs line = Ok (Some (k, v)) -> is_float v.
Proof.
  unfold unihex_entry. intros H. inv_bind H as [code img] Hs.
  inv_bind H as c Hc. inv_bind H as [w|] Hw; [|done].
  inv_bind H as x Hx. inv_bind H as c' Hc'. by injection H as _ <-.
Qed.

Lemma convert_bitmap_provider_floats self tgt file chars height adv :
  convert_bitmap_provider self tgt file chars height = Ok (space adv) ->
  Forall (fun kv => is_float kv.2) adv.
Proof.
  unfold convert_bitmap_provider. intros H. inv_bind H as path Hp.
  inv_bind H as f Hf. destruct f; try done.
  inv_bind H as adv' Hadv. injection H as <-.
  apply convert_rows_entries in Hadv as (es & Hes & ->).
  apply foldl_assign_floats; [|constructor].
  eapply entries_floats; [|done]. intros c k v. apply grid_entry_float.
Qed.

Lemma unihex_advances_floats self tgt hex_file size_overrides adv :
  unihex_advances self tgt hex_file size_overrides = Ok adv ->
  Forall (fun kv => is_float kv.2) adv.
Proof.
  unfold unihex_advances. intros H. inv_bind H as path Hp.
  inv_bind H as f Hf. destruct f; try done.
  destruct (find_hex entries); [|done].
  apply unihex_lines_entries in H as (es & Hes & ->).
  apply foldl_assign_floats; [|constructor].
  eapply entries_floats; [|done]. intros c k v. apply unihex_entry_float.
Qed.

(** Whatever its kind, a converted provider holds reals only: every
    converter multiplies by the width factor last. *)
Lemma convert_provider_floats self rec p st q st' adv :
  convert_provider self rec p st = Ok (Some q, st') ->
  body q = Space adv ->
  q = space adv
  ∧ NoDup (dict_keys adv) ∧ Forall (fun kv => is_float kv.2) adv.
Proof.
  intros H Hb.
  destruct (convert_provider_shape _ _ _ _ _ _ H)
    as [(id & ->)|(adv' & -> & Hnd)]; [done|].
  injection Hb as ->. split; [done|]. split; [done|].
  unfold convert_provider in H. destruct (body p); try done.
  - inv_bind H as [q' st1] Hq. injection H as Hq' _.
    unfold convert_reference_provider in Hq.
    inv_bind Hq as [new_id st2] Hr. injection Hq as <- _. done.
  - inv_bind H as q' Hq. injection H as -> _.
    by eapply convert_space_provider_floats.
  - inv_bind H as q' Hq. injection H as -> _.
    by eapply convert_ttf_provider_floats.
  - inv_bind H as q' Hq. injection H as -> _.
    by eapply convert_bitmap_provider_floats.
  - inv_bind H as q' Hq. injection H as -> _.
    apply convert_unihex_Some in Hq as (adv' & Hadv & _ & [= <-]).
    by eapply unihex_advances_floats.
Qed.

Lemma assure_num_float f :
  same_value (assure_num (PyFloat f)) (PyFloat f)
  ∧ (whole (PyFloat f) -> ∃ z, assure_num (PyFloat f) = PyInt z)
  ∧ (¬ whole (PyFloat f) -> assure_num (PyFloat f) = PyFloat f).
Proof.
  split; [apply assure_num_same_value|]. unfold assure_num. simpl. split.
  - intros Hw. apply float_is_integer_whole in Hw. rewrite Hw. by eexists.
  - intros Hw. destruct (float_is_integer f) eqn:Hf; [|done].
    by apply float_is_integer_whole in Hf.
Qed.

(** The normalization of a converted provider runs on every
    interpreter, and gives what [assure_integers] computes. *)
Lemma assure_integers_on_converted self rec p st q st' py312 :
  convert_provider self rec p st = Ok (Some q, st') ->
  assure_integers_on py312 q = Ok (assure_integers q).
Proof.
  intros H. unfold assure_integers_on, assure_integers.
  destruct (body q) as [| adv | | | |] eqn:Hb; try done.
  destruct (convert_provider_floats _ _ _ _ _ _ _ H Hb) as (_ & Hnd & Hfl).
  by rewrite assure_advances_on_floats.
Qed.

(** ** The provider loop *)

Lemma merged_advances_space old new adv :
  merged_advances (old, Some new) = Some adv ->
  filter old = None ∧ body (assure_integers new) = Space adv.
Proof.
  unfold merged_advances. simpl. destruct (filter old); [done|].
  destruct (body (assure_integers new)); try done. by intros [= ->].
Qed.

Lemma convert_step_buckets self rec acc old acc' :
  convert_step self rec acc old = Ok acc' ->
  ∃ new,
    convert_provider self rec old (bstate acc) = Ok (new, bstate acc')
    ∧ space_providers acc'
      = space_providers acc ++ (space <$> omap merged_advances [(old, new)])
    ∧ other_providers acc'
      = other_providers acc ++ omap emitted_other [(old, new)].
Proof.
  unfold convert_step. intros H. inv_bind H as [new st'] Hconv.
  exists new. destruct new as [q|].
  - pose proof (convert_provider_shape _ _ _ _ _ _ Hconv) as Hshape.
    unfold merged_advances, emitted_other. simpl.
    destruct (filter old) as [f|] eqn:Hfilter.
    + injection H as <-. simpl. by rewrite app_nil_r.
    + destruct Hshape as [(id & ->)|(adv & -> & _)]; simpl in *.
      * injection H as <-. simpl. by rewrite app_nil_r.
      * injection H as <-. simpl. by rewrite app_nil_r.
  - injection H as <-. simpl. by rewrite !app_nil_r.
Qed.

Lemma convert_loop_buckets self rec olds : ∀ acc acc',
  foldM (convert_step self rec) olds acc = Ok acc' ->
  ∃ news,
    conversions self rec (bstate acc) olds news (bstate acc')
    ∧ space_providers acc'
      = space_providers acc ++ (space <$> advances_of olds news)
    ∧ other_providers acc' = other_providers acc ++ others_of olds news.
Proof.
  induction olds as [|old olds IH]; intros acc acc'; simpl.
  - intros [= <-]. exists []. split; [constructor|].
    unfold advances_of, others_of. simpl. by rewrite !app_nil_r.
  - intros H. inv_bind H as acc1 Hstep.
    apply convert_step_buckets in Hstep as (new & Hconv & Hsp & Hot).
    apply IH in H as (news & Hrun & Hsp' & Hot').
    exists (new :: news). split; [by econstructor|].
    unfold advances_of, others_of in *. cbn [zip zip_with].
    rewrite Hsp', Hot', Hsp, Hot, <- !app_assoc.
    change ((old, new) :: zip olds news) with ([(old, new)] ++ zip olds news).
    by rewrite !omap_app, fmap_app.
Qed.

(** The maps that reach the merge have distinct keys and are normalized. *)
Lemma advances_of_wf self rec st olds news st' :
  conversions self rec st olds news st' ->
  Forall (fun d => NoDup (dict_keys d) ∧ normalized d) (advances_of olds news).
Proof.
  unfold advances_of. induction 1 as [|st old olds new news st1 st2 Hconv _ IH];
    [constructor|].
  cbn [zip zip_with omap list_omap].
  destruct (merged_advances (old, new)) as [adv|] eqn:Hm; [|done].
  constructor; [|done].
  destruct new as [q|]; [|done].
  apply merged_advances_space in Hm as [_ Hbody].
  destruct (convert_provider_shape _ _ _ _ _ _ Hconv)
    as [(id & ->)|(adv' & -> & Hnd)]; [done|].
  rewrite assure_integers_space in Hbody. injection Hbody as <-.
  split; [by apply assure_advances_NoDup | by apply assure_advances_normalized].
Qed.

(** ** The font converter *)

Lemma convert_font_inv self depth font_id st new_id st' :
  convert_font self (S depth) font_id st = Ok (new_id, st') ->
  ∃ old_path new_path olds news st1,
    get_font_path self (target st) font_id false = Ok old_path
    ∧ get_font_path self (target st) (font_id +:+ suffix self) true
      = Ok new_path
    ∧ load_providers self (target st) old_path = Ok olds
    ∧ conversions self (convert_font self depth) st olds news st1
    ∧ new_id = (font_id +:+ suffix self)%string
    ∧ st' = store new_path.2 (emitted olds news) st1.
Proof.
  cbn [convert_font]. intros H.
  inv_bind H as old_path Hold. inv_bind H as new_path Hnew.
  inv_bind H as olds Holds. inv_bind H as acc Hloop.
  inv_bind H as merged Hmerge. injection H as <- <-.
  apply convert_loop_buckets in Hloop as (news & Hrun & Hsp & Hot).
  simpl in Hrun, Hsp, Hot.
  exists old_path, new_path, olds, news, (bstate acc).
  repeat (split; [done|]). f_equal.
  rewrite Hsp in Hmerge. rewrite merge_space_providers_fold in Hmerge.
  - injection Hmerge as <-. by rewrite Hot.
  - eapply Forall_impl; [by eapply advances_of_wf|]. by intros d [? _].
Qed.

(** C1: the definition that [convert_font] writes is the converted
    providers of the "other" bucket, in their original order, followed by
    the merge of the converted filter-less space providers: nothing when
    there is none, else a single space provider whose advance map is the
    left fold of their advance maps in original order, later entries
    overwriting earlier ones.  Three maps [{a:1}], [{a:2, b:3}], [{c:4}]
    merge into [{a:2, b:3, c:4}]. *)
Theorem convert_font_merges (self : converter) (depth : nat)
    (font_id : string) (st : state) (new_id : string) (st' : state) :
  convert_font self (S depth) font_id st = Ok (new_id, st') ->
  ∃ old_path new_path olds news st1,
    get_font_path self (target st) font_id false = Ok old_path
    ∧ get_font_path self (target st) (font_id +:+ suffix self) true
      = Ok new_path
    ∧ load_providers self (target st) old_path = Ok olds
    ∧ conversions self (convert_font self depth) st olds news st1
    ∧ let merged :=
        match advances_of olds news with
        | [] => []
        | d :: ds => [space (fold_left dict_update ds d)]
        end in
      st' = store new_path.2 (others_of olds news ++ merged) st1
      ∧ (advances_of olds news
         = [[(97, PyInt 1)]; [(97, PyInt 2); (98, PyInt 3)]; [(99, PyInt 4)]] ->
         merged = [space [(97, PyInt 2); (98, PyInt 3); (99, PyInt 4)]]).
Proof.
  intros H.
  apply convert_font_inv in H
    as (old_path & new_path & olds & news & st1 & Ho & Hn & Hl & Hrun & _ & ->).
  exists old_path, new_path, olds, news, st1.
  repeat (split; [done|]). cbv zeta.
  intros Hm. rewrite Hm. vm_compute. reflexivity.
Qed.

Lemma convert_font_merges_witness :
  ∃ st',
    convert_font (sample_converter ModeAscii) 2 "base" sample_state
    = Ok ("base_sp"%string, st')
    ∧ ∃ old_path new_path olds news st1,
        get_font_path (sample_converter ModeAscii) (target sample_state)
          "base" false = Ok old_path
        ∧ get_font_path (sample_converter ModeAscii) (target sample_state)
            ("base" +:+ "_sp") true = Ok new_path
        ∧ load_providers (sample_converter ModeAscii) (target sample_state)
            old_path = Ok olds
        ∧ conversions (sample_converter ModeAscii)
            (convert_font (sample_converter ModeAscii) 1)
            sample_state olds news st1
        ∧ let merged :=
            match advances_of olds news with
            | [] => []
            | d :: ds => [space (fold_left dict_update ds d)]
            end in
          st' = store new_path.2 (others_of olds news ++ merged) st1
          ∧ (advances_of olds news
             = [[(97, PyInt 1)]; [(97, PyInt 2); (98, PyInt 3)];
                [(99, PyInt 4)]] ->
             merged = [space [(97, PyInt 2); (98, PyInt 3); (99, PyInt 4)]]).
Proof.
  eexists. split; [vm_compute; reflexivity|].
  apply (convert_font_merges (sample_converter ModeAscii) 1 "base"
           sample_state "base_sp").
  vm_compute. reflexivity.
Defined.

(** The sample definition: the reference comes first, the filtered space
    provider stays on its own, and the three filter-less space providers
    merge into one map placed last. *)
Example convert_font_sample :
  (fun r => (r.1, written r.2)) <$>
    (match convert_font (sample_converter ModeAscii) 2 "base" sample_state with
     | Ok r => Some r
     | Raise _ => None
     end)
  = Some ("base_sp"%string,
          [("assets/minecraft/font/other_sp.json"%string,
            [space [(99, PyInt 4)]]);
           ("assets/minecraft/font/base_sp.json"%string,
            [{| body := Reference "other_sp"; filter := None |};
             {| body := Space [(97, PyFloat 2.5)];
                filter := Some (JObj [("uniform"%string, JBool true)]) |};
             space [(97, PyInt 2); (98, PyInt 3); (99, PyInt 4)]])]).
Proof. vm_compute. reflexivity. Qed.

Lemma fold_update_normalized (ds : list (dict pynum)) : ∀ d,
  normalized d -> Forall normalized ds ->
  normalized (fold_left dict_update ds d).
Proof.
  induction ds as [|x ds IH]; intros d Hd Hds; simpl; [done|].
  apply Forall_cons in Hds as [Hx Hds]. apply IH; [|done].
  apply Forall_forall. intros kv Hkv.
  apply dict_update_elem_of in Hkv as [Hkv|Hkv].
  - by apply (proj1 (Forall_forall _ _) Hd).
  - by apply (proj1 (Forall_forall _ _) Hx).
Qed.

Lemma emitted_other_normalized self rec old new st st' p advances :
  convert_provider self rec old st = Ok (new, st') ->
  emitted_other (old, new) = Some p ->
  body p = Space advances -> normalized advances.
Proof.
  intros Hconv. unfold emitted_other. simpl. destruct new as [q|]; [|done].
  simpl.
  destruct (convert_provider_shape _ _ _ _ _ _ Hconv)
    as [(id & ->)|(adv & -> & Hnd)].
  - destruct (filter old); intros [= <-]; done.
  - rewrite assure_integers_space.
    destruct (filter old); [|done]. intros [= <-]. simpl. intros [= <-].
    by apply assure_advances_normalized.
Qed.

Lemma others_of_normalized self rec st olds news st' :
  conversions self rec st olds news st' ->
  ∀ p advances,
    p ∈ others_of olds news -> body p = Space advances -> normalized advances.
Proof.
  unfold others_of. induction 1 as [|st old olds new news st1 st2 Hconv _ IH];
    intros p advances Hp Hb.
  - by apply elem_of_nil in Hp.
  - cbn [zip zip_with omap list_omap] in Hp.
    destruct (emitted_other (old, new)) as [q|] eqn:Hq; [|by eapply IH].
    apply elem_of_cons in Hp as [->|Hp]; [|by eapply IH].
    by eapply emitted_other_normalized.
Qed.

Lemma conversions_lookup self rec st olds news st' i new :
  conversions self rec st olds news st' ->
  news !! i = Some new ->
  ∃ old sa sb,
    olds !! i = Some old ∧ convert_provider self rec old sa = Ok (new, sb).
Proof.
  intros Hrun. revert i.
  induction Hrun as [|st old olds new' news st1 st2 Hconv _ IH]; intros i Hi.
  - by destruct i.
  - destruct i as [|i]; simpl in Hi.
    + injection Hi as ->. by exists old, st, st1.
    + destruct (IH i Hi) as (old' & sa & sb & Ho & Hc). by exists old', sa, sb.
Qed.

(** C5: every space provider of the emitted definition, filtered or
    merged, has each mathematically whole advance stored as an integer.
    The normalization that the provider loop runs on a converted
    provider returns on every interpreter; on a space provider it keeps
    the keys and their order, keeps the numeric value of each advance,
    stores a whole value as an integer and leaves any other value as it
    is; providers of other kinds are returned untouched. *)
Theorem emitted_space_providers_normalized (self : converter) (depth : nat)
    (font_id : string) (st : state) (new_id : string) (st' : state) :
  convert_font self (S depth) font_id st = Ok (new_id, st') ->
  ∃ old_path new_path olds news st1,
    get_font_path self (target st) font_id false = Ok old_path
    ∧ load_providers self (target st) old_path = Ok olds
    ∧ conversions self (convert_font self depth) st olds news st1
    ∧ st' = store new_path (emitted olds news) st1
    ∧ (∀ p advances,
         p ∈ emitted olds news -> body p = Space advances ->
         whole_as_int advances)
    ∧ (∀ i new,
         news !! i = Some (Some new) ->
         (∀ py312, assure_integers_on py312 new = Ok (assure_integers new))
         ∧ ∀ adv,
             body new = Space adv ->
             ∃ adv',
               body (assure_integers new) = Space adv'
               ∧ Forall2 (fun kv kv' =>
                            kv'.1 = kv.1
                            ∧ same_value kv'.2 kv.2
                            ∧ (whole kv.2 -> ∃ z, kv'.2 = PyInt z)
                            ∧ (¬ whole kv.2 -> kv'.2 = kv.2))
                         adv adv')
    ∧ (∀ py312 p, is_space p = false -> assure_integers_on py312 p = Ok p).
Proof.
  intros H.
  apply convert_font_inv in H
    as (old_path & new_path & olds & news & st1 & Ho & _ & Hl & Hrun & _ & ->).
  exists old_path, new_path.2, olds, news, st1.
  repeat (split; [done|]). split; [|split].
  - intros p advances Hp Hb. apply normalized_whole_as_int.
    unfold emitted in Hp.
    apply elem_of_app in Hp as [Hp|Hp]; [by eapply others_of_normalized|].
    pose proof (advances_of_wf _ _ _ _ _ _ Hrun) as Hwf.
    unfold merge_advances in Hp. destruct (advances_of olds news) as [|d ds].
    { by apply elem_of_nil in Hp. }
    apply list_elem_of_singleton in Hp as ->. injection Hb as <-.
    inversion Hwf as [|? ? [_ Hd] Hds]; subst.
    apply fold_update_normalized; [done|].
    eapply Forall_impl; [done|]. by intros x [_ ?].
  - intros i new Hi.
    destruct (conversions_lookup _ _ _ _ _ _ _ _ Hrun Hi)
      as (old & sa & sb & _ & Hconv).
    split; [intros py312; by eapply assure_integers_on_converted|].
    intros adv Hb.
    destruct (convert_provider_floats _ _ _ _ _ _ _ Hconv Hb)
      as (-> & Hnd & Hfl).
    exists (assure_advances adv). split; [done|].
    rewrite assure_advances_map by done. apply Forall2_fmap_r.
    apply Forall_Forall2_diag. eapply Forall_impl; [exact Hfl|].
    intros [k [z|f]] Hv; [done|]. simpl. split; [done|].
    apply assure_num_float.
  - intros py312 p Hp. unfold assure_integers_on, is_space in *.
    by destruct (body p).
Qed.

Lemma emitted_space_providers_normalized_witness :
  ∃ old_path new_path olds news st1,
    get_font_path (sample_converter ModeAscii) (target sample_state) "base"
                  false = Ok old_path
    ∧ load_providers (sample_converter ModeAscii) (target sample_state)
                     old_path = Ok olds
    ∧ conversions (sample_converter ModeAscii)
                  (convert_font (sample_converter ModeAscii) 1)
                  sample_state olds news st1
    ∧ store "assets/minecraft/font/base_sp.json"
        [{| body := Reference "other_sp"; filter := None |};
         {| body := Space [(97, PyFloat 2.5)];
            filter := Some (JObj [("uniform"%string, JBool true)]) |};
         space [(97, PyInt 2); (98, PyInt 3); (99, PyInt 4)]]
        (store "assets/minecraft/font/other_sp.json" [space [(99, PyInt 4)]]
               sample_state)
      = store new_path (emitted olds news) st1
    ∧ ∀ p advances,
        p ∈ emitted olds news -> body p = Space advances ->
        whole_as_int advances.
Proof.
  destruct (emitted_space_providers_normalized (sample_converter ModeAscii) 1
              "base" sample_state "base_sp"
              (store "assets/minecraft/font/base_sp.json"
                 [{| body := Reference "other_sp"; filter := None |};
                  {| body := Space [(97, PyFloat 2.5)];
                     filter := Some (JObj [("uniform"%string, JBool true)]) |};
                  space [(97, PyInt 2); (98, PyInt 3); (99, PyInt 4)]]
                 (store "assets/minecraft/font/other_sp.json"
                        [space [(99, PyInt 4)]] sample_state))
              ltac:(vm_compute; reflexivity))
    as (old_path & new_path & olds & news & st1 & Ho & Hl & Hrun & Hst & Hw & _).
  by exists old_path, new_path, olds, news, st1.
Defined.

(** ** Filters *)

Lemma omap_unfiltered {A B} (f : A -> option B) (P : A -> Prop)
    `{∀ x, Decision (P x)} (l : list A) :
  (∀ x, ¬ P x -> f x = None) -> omap f l = omap f (base.filter P l).
Proof.
  intros Hf. induction l as [|x l IH]; [done|].
  rewrite filter_cons. cbn [omap list_omap]. case_decide as HP.
  - cbn [omap list_omap]. by rewrite IH.
  - rewrite (Hf x HP). done.
Qed.

(** C6: a source provider that carries a filter and whose conversion is
    not null is emitted on its own: the filter is copied onto the
    converted, normalized provider, which is placed in the "other"
    bucket whatever its kind, and it contributes nothing to the merge,
    which is computed from the filter-less source providers only. *)
Theorem filtered_provider_standalone (self : converter) (depth : nat)
    (font_id : string) (st : state) (new_id : string) (st' : state) :
  convert_font self (S depth) font_id st = Ok (new_id, st') ->
  ∃ old_path new_path olds news st1,
    get_font_path self (target st) font_id false = Ok old_path
    ∧ load_providers self (target st) old_path = Ok olds
    ∧ conversions self (convert_font self depth) st olds news st1
    ∧ st' = store new_path
              (others_of olds news ++ merge_advances (advances_of olds news))
              st1
    ∧ advances_of olds news
      = omap merged_advances
             (base.filter (fun on => filter on.1 = None) (zip olds news))
    ∧ ∀ i old new f,
        olds !! i = Some old -> news !! i = Some (Some new) ->
        filter old = Some f ->
        let q := set_filter f (assure_integers new) in
        q ∈ others_of olds news
        ∧ filter q = Some f
        ∧ body q = body (assure_integers new)
        ∧ merged_advances (old, Some new) = None.
Proof.
  intros H.
  apply convert_font_inv in H
    as (old_path & new_path & olds & news & st1 & Ho & _ & Hl & Hrun & _ & ->).
  exists old_path, new_path.2, olds, news, st1.
  repeat (split; [done|]). split.
  - unfold advances_of. apply omap_unfiltered. intros [old new] Hf.
    unfold merged_advances. simpl in *. destruct new; [|done]. simpl.
    by destruct (filter old).
  - intros i old new f Hold Hnew Hf q. split; [|split; [done|split; [done|]]].
    + unfold others_of. apply list_elem_of_omap. exists (old, Some new).
      split.
      * eapply list_elem_of_lookup_2. apply lookup_zip_Some. by split.
      * unfold emitted_other. simpl. by rewrite Hf.
    + unfold merged_advances. simpl. by rewrite Hf.
Qed.

Lemma filtered_provider_standalone_witness :
  ∃ st',
    convert_font (sample_converter ModeAscii) 2 "base" sample_state
    = Ok ("base_sp"%string, st')
    ∧ ∃ old_path new_path olds news st1,
        get_font_path (sample_converter ModeAscii) (target sample_state)
          "base" false = Ok old_path
        ∧ load_providers (sample_converter ModeAscii) (target sample_state)
            old_path = Ok olds
        ∧ conversions (sample_converter ModeAscii)
            (convert_font (sample_converter ModeAscii) 1)
            sample_state olds news st1
        ∧ st' = store new_path
                  (others_of olds news
                   ++ merge_advances (advances_of olds news)) st1
        ∧ advances_of olds news
          = omap merged_advances
                 (base.filter (fun on => filter on.1 = None) (zip olds news))
        ∧ ∀ i old new f,
            olds !! i = Some old -> news !! i = Some (Some new) ->
            filter old = Some f ->
            let q := set_filter f (assure_integers new) in
            q ∈ others_of olds news
            ∧ filter q = Some f
            ∧ body q = body (assure_integers new)
            ∧ merged_advances (old, Some new) = None.
Proof.
  eexists. split; [vm_compute; reflexivity|].
  apply (filtered_provider_standalone (sample_converter ModeAscii) 1
           "base" sample_state "base_sp").
  vm_compute. reflexivity.
Defined.

(** ** Null conversions *)

(** C7: [convert_provider] returns null for a unihex provider exactly
    when the mode is [none] or the advance map left by the mode and
    override filter is empty; it never returns null for a reference,
    space, ttf or bitmap provider; an unknown kind raises; and a null
    result leaves both buckets as they were, so that the provider is
    absent from the emitted definition. *)
Theorem convert_provider_null (self : converter)
    (rec : string -> state -> result (string * state))
    (p : provider) (st : state) :
  (∀ hex_file size_overrides,
     body p = Unihex hex_file size_overrides ->
     ∀ st',
       convert_provider self rec p st = Ok (None, st') <->
       st' = st
       ∧ (mode self = ModeNone
          ∨ unihex_advances self (target st) hex_file size_overrides = Ok []))
  ∧ (∀ new st',
       convert_provider self rec p st = Ok (new, st') ->
       match body p with
       | Reference _ | Space _ | Ttf _ _ _ _ | Bitmap _ _ _ => is_Some new
       | _ => True
       end)
  ∧ (∀ kind,
       body p = OtherKind kind ->
       convert_provider self rec p st = Raise (UnknownProvider kind))
  ∧ (∀ st' acc,
       bstate acc = st ->
       convert_provider self rec p st = Ok (None, st') ->
       convert_step self rec acc p
       = Ok {| space_providers := space_providers acc;
               other_providers := other_providers acc;
               bstate := st' |})
  ∧ (∀ olds news, emitted (p :: olds) (None :: news) = emitted olds news).
Proof.
  split; [|split; [|split; [|split]]].
  - intros hex_file size_overrides Hb st'. unfold convert_provider.
    rewrite Hb. unfold convert_unihex_provider.
    destruct (decide (mode self = ModeNone)) as [Hm|Hm].
    + rewrite bool_decide_eq_true_2 by done. simpl. split.
      * intros [= <-]. split; [done | by left].
      * by intros [-> _].
    + rewrite bool_decide_eq_false_2 by done.
      destruct (unihex_advances _ _ _ _) as [adv|e]; simpl.
      * destruct adv as [|kv adv]; simpl.
        -- split; [intros [= <-]; split; [done | by right] | by intros [-> _]].
        -- split; [done|]. by intros [_ [?|?]].
      * split; [done|]. by intros [_ [?|?]].
  - intros new st'. unfold convert_provider.
    destruct (body p); intros H; try done.
    + inv_bind H as [q s] Hq. by injection H as <- _.
    + inv_bind H as q Hq. by injection H as <- _.
    + inv_bind H as q Hq. by injection H as <- _.
    + inv_bind H as q Hq. by injection H as <- _.
  - intros kind Hb. unfold convert_provider. by rewrite Hb.
  - intros st' acc <- H. unfold convert_step. by rewrite H.
  - intros olds news. done.
Qed.

Lemma convert_provider_null_witness :
  convert_provider (sample_converter ModeNone)
    (convert_font (sample_converter ModeNone) 0)
    {| body := Unihex "minecraft:font/unifont.zip" []; filter := None |}
    {| target := sample_pack; written := [] |}
  = Ok (None, {| target := sample_pack; written := [] |}).
Proof.
  apply (proj1 (convert_provider_null (sample_converter ModeNone)
                  (convert_font (sample_converter ModeNone) 0)
                  {| body := Unihex "minecraft:font/unifont.zip" [];
                     filter := None |}
                  {| target := sample_pack; written := [] |})
           "minecraft:font/unifont.zip"%string [] eq_refl).
  split; [reflexivity | left; reflexivity].
Defined.

(** ** References and the order of writes *)

Lemma get_font_path_write self tgt tgt' font_id :
  get_font_path self tgt font_id true = get_font_path self tgt' font_id true.
Proof.
  unfold get_font_path, get_resource_path.
  destruct (_ : result (string * string)) as [[ns loc]|e]; done.
Qed.

Lemma get_font_path_write_root self tgt font_id p :
  get_font_path self tgt font_id true = Ok p -> p.1 = TargetRoot.
Proof.
  unfold get_font_path, get_resource_path. intros H.
  inv_bind H as [ns loc] Hs. by injection H as <-.
Qed.

Lemma convert_provider_log self rec p st new st' :
  logs_own_write self rec ->
  convert_provider self rec p st = Ok (new, st') ->
  ∃ log,
    written st' = written st ++ log
    ∧ ∀ R, body p = Reference R ->
        new = Some {| body := Reference (R +:+ suffix self); filter := None |}
        ∧ rec R st = Ok ((R +:+ suffix self)%string, st')
        ∧ ∃ path providers,
            get_font_path self (target st) (R +:+ suffix self) true = Ok path
            ∧ (path.2, providers) ∈ log.
Proof.
  intros Hrec. unfold convert_provider. destruct (body p) eqn:Hb; intros H.
  - inv_bind H as [q s] Hq. injection H as <- <-.
    unfold convert_reference_provider in Hq.
    inv_bind Hq as [new_id s'] Hr. injection Hq as <- <-.
    destruct (Hrec _ _ _ _ Hr) as (-> & log & path & providers & Hp & Hw & _).
    exists (log ++ [(path.2, providers)]). split; [done|].
    intros R [= <-]. split; [done|]. split; [done|].
    exists path, providers. split; [done|]. apply elem_of_app. right. left.
  - inv_bind H as q Hq. injection H as <- <-. exists [].
    split; [by rewrite app_nil_r | done].
  - inv_bind H as q Hq. injection H as <- <-. exists [].
    split; [by rewrite app_nil_r | done].
  - inv_bind H as q Hq. injection H as <- <-. exists [].
    split; [by rewrite app_nil_r | done].
  - inv_bind H as q Hq. injection H as <- <-. exists [].
    split; [by rewrite app_nil_r | done].
  - done.
Qed.

Lemma conversions_log self rec st olds news st1 :
  logs_own_write self rec ->
  conversions self rec st olds news st1 ->
  ∃ log,
    written st1 = written st ++ log
    ∧ ∀ i R f,
        olds !! i = Some {| body := Reference R; filter := f |} ->
        news !! i
        = Some (Some {| body := Reference (R +:+ suffix self); filter := None |})
        ∧ (∃ sa sb, rec R sa = Ok ((R +:+ suffix self)%string, sb))
        ∧ ∃ path providers,
            get_font_path self (target st) (R +:+ suffix self) true = Ok path
            ∧ (path.2, providers) ∈ log.
Proof.
  intros Hrec. induction 1 as [|st old olds new news st1 st2 Hconv _ IH].
  - exists []. split; [by rewrite app_nil_r|]. intros i R f Hi.
    by destruct i.
  - destruct (convert_provider_log _ _ _ _ _ _ Hrec Hconv) as (log1 & Hw1 & Href).
    destruct IH as (log2 & Hw2 & Hrest).
    exists (log1 ++ log2). split; [by rewrite Hw2, Hw1, app_assoc|].
    intros [|i] R f Hi; simpl in Hi.
    + injection Hi as ->.
      destruct (Href R eq_refl) as (-> & Hr & path & providers & Hp & Hin).
      split; [done|]. split; [by eauto|].
      exists path, providers. split; [done|]. apply elem_of_app. by left.
    + destruct (Hrest i R f Hi) as (Hnew & Hr & path & providers & Hp & Hin).
      split; [done|]. split; [done|].
      exists path, providers. split.
      * by rewrite (get_font_path_write self (target st) (target st1)).
      * apply elem_of_app. by right.
Qed.

Lemma convert_font_logs self depth : logs_own_write self (convert_font self depth).
Proof.
  induction depth as [|depth IH]; intros font_id st new_id st' H; [done|].
  apply convert_font_inv in H
    as (old_path & new_path & olds & news & st1 & _ & Hn & _ & Hrun & -> & ->).
  split; [done|].
  destruct (conversions_log _ _ _ _ _ _ IH Hrun) as (log & Hw & _).
  exists log, new_path, (emitted olds news). split; [done|]. split.
  - simpl. by rewrite Hw, <- app_assoc.
  - simpl. apply lookup_insert_eq.
Qed.

(** ** The recursion depth *)

Lemma convert_provider_refines self rec rec' p st r :
  refines rec rec' ->
  convert_provider self rec p st = Ok r ->
  convert_provider self rec' p st = Ok r.
Proof.
  intros Href. unfold convert_provider. destruct (body p); try done.
  intros H. inv_bind H as [q s] Hq. injection H as <-.
  unfold convert_reference_provider in *.
  inv_bind Hq as [new_id s'] Hr. injection Hq as <- <-.
  by rewrite (Href _ _ _ Hr).
Qed.

Lemma convert_loop_refines self rec rec' olds : ∀ acc acc',
  refines rec rec' ->
  foldM (convert_step self rec) olds acc = Ok acc' ->
  foldM (convert_step self rec') olds acc = Ok acc'.
Proof.
  induction olds as [|old olds IH]; intros acc acc' Href; simpl; [done|].
  intros H. inv_bind H as acc1 Hstep.
  assert (convert_step self rec' acc old = Ok acc1) as ->; [|by apply IH].
  unfold convert_step in *. inv_bind Hstep as [new s] Hconv.
  by rewrite (convert_provider_refines _ _ _ _ _ _ Href Hconv).
Qed.

(** A run that returns within some recursion depth returns the same
    within any larger one. *)
Lemma convert_font_depth_mono self depth : ∀ depth',
  (depth <= depth')%nat ->
  refines (convert_font self depth) (convert_font self depth').
Proof.
  induction depth as [|depth IH]; intros depth' Hle font_id st r; [done|].
  destruct depth' as [|depth']; [lia|].
  cbn [convert_font]. intros H.
  inv_bind H as old_path Hold. inv_bind H as new_path Hnew.
  inv_bind H as olds Holds. inv_bind H as acc Hloop.
  rw_bind Hold. rw_bind Hnew. rw_bind Holds.
  rewrite (convert_loop_refines _ _ (convert_font self depth') _ _ _
             (IH depth' ltac:(lia)) Hloop).
  done.
Qed.

(** C8: [convert_font] returns the font id followed by the suffix, and
    its own definition is the last thing it writes.  For each reference
    provider naming a font [R] in the definition, the converted provider
    is a reference to [R] followed by the suffix (never null), obtained
    from a full run of [convert_font] on [R], whose definition is written
    before the referencing font's own.  A larger recursion depth gives
    the same result. *)
Theorem convert_font_returns_suffixed_id (self : converter) (depth : nat)
    (font_id : string) (st : state) (new_id : string) (st' : state) :
  convert_font self depth font_id st = Ok (new_id, st') ->
  new_id = (font_id +:+ suffix self)%string
  ∧ (∃ old_path olds news new_path log,
      get_font_path self (target st) font_id false = Ok old_path
      ∧ load_providers self (target st) old_path = Ok olds
      ∧ get_font_path self (target st) new_id true = Ok new_path
      ∧ (∃ st1, conversions self (convert_font self (pred depth))
                            st olds news st1)
      ∧ written st' = written st ++ log ++ [(new_path.2, emitted olds news)]
      ∧ target st' !! new_path.2 = Some (FontJson (emitted olds news))
      ∧ ∀ i R f,
          olds !! i = Some {| body := Reference R; filter := f |} ->
          news !! i
          = Some (Some {| body := Reference (R +:+ suffix self);
                          filter := None |})
          ∧ (∃ sa sb,
               convert_font self (pred depth) R sa
               = Ok ((R +:+ suffix self)%string, sb))
          ∧ ∃ path providers,
              get_font_path self (target st) (R +:+ suffix self) true = Ok path
              ∧ (path.2, providers) ∈ log)
  ∧ ∀ depth', (depth <= depth')%nat ->
              convert_font self depth' font_id st = Ok (new_id, st').
Proof.
  intros H. split; [|split];
    [| |intros depth' Hle; by eapply convert_font_depth_mono].
  all: destruct depth as [|depth]; [done|].
  all: apply convert_font_inv in H
    as (old_path & new_path & olds & news & st1 & Ho & Hn & Hl & Hrun & -> & ->).
  { done. }
  destruct (conversions_log _ _ _ _ _ _ (convert_font_logs self depth) Hrun)
    as (log & Hw & Href).
  exists old_path, olds, news, new_path, log.
  repeat (split; [done|]). split; [by exists st1|]. split; [|split].
  - simpl. by rewrite Hw, <- app_assoc.
  - simpl. apply lookup_insert_eq.
  - done.
Qed.

Lemma convert_font_returns_suffixed_id_witness :
  ∃ st',
    convert_font (sample_converter ModeAscii) 2 "base" sample_state
    = Ok ("base_sp"%string, st')
    ∧ "base_sp"%string = ("base" +:+ suffix (sample_converter ModeAscii))%string.
Proof.
  eexists. split; [vm_compute; reflexivity|].
  eapply proj1.
  eapply (convert_font_returns_suffixed_id (sample_converter ModeAscii)
            2 "base" sample_state "base_sp").
  vm_compute. reflexivity.
Defined.

(** Only [convert_font] raises [RecursionError]. *)

Lemma within_limit_bind {A B} (m : result A) (f : A -> result B) :
  within_limit m -> (∀ a, m = Ok a -> within_limit (f a)) ->
  within_limit (m ≫= f).
Proof.
  destruct m as [a|e]; cbn [mbind result_bind].
  - intros _ Hf. by apply Hf.
  - intros He _ [= ->]. by apply He.
Qed.

Lemma within_limit_foldM {A B} (f : A -> B -> result A) l : ∀ acc,
  (∀ a x, within_limit (f a x)) -> within_limit (foldM f l acc).
Proof.
  induction l as [|x l IH]; intros acc Hf; simpl; [done|].
  apply within_limit_bind; [apply Hf | intros; by apply IH].
Qed.

Lemma within_limit_Ok {A} (a : A) : within_limit (Ok a).
Proof. done. Qed.

Create HintDb limit.
#[local] Hint Resolve within_limit_Ok : limit.

Ltac limit_step :=
  first
    [ solve [auto with limit]
    | done
    | apply within_limit_bind; [|intros ? ?]
    | apply within_limit_foldM; intros ? ?
    | progress cbv zeta
    | case_match ].

Ltac solve_limit := repeat limit_step.

Lemma split_colon_limit s : within_limit (split_colon s).
Proof.
  induction s as [|c s IH]; simpl; [done|].
  case_match; [case_match; done|]. by apply within_limit_bind; [|intros [] ?].
Qed.
#[local] Hint Resolve split_colon_limit : limit.

Lemma chr_limit c : within_limit (chr c).
Proof. unfold chr. solve_limit. Qed.
#[local] Hint Resolve chr_limit : limit.

Lemma int16_limit s : within_limit (int16 s).
Proof. unfold int16. solve_limit. Qed.
#[local] Hint Resolve int16_limit : limit.

Lemma float_of_int_limit z : within_limit (float_of_int z).
Proof. unfold float_of_int. solve_limit. Qed.
#[local] Hint Resolve float_of_int_limit : limit.

Lemma int_of_float_limit f : within_limit (int_of_float f).
Proof. unfold int_of_float. solve_limit. Qed.
#[local] Hint Resolve int_of_float_limit : limit.

Lemma int_truediv_limit a b : within_limit (int_truediv a b).
Proof. unfold int_truediv. solve_limit. Qed.
#[local] Hint Resolve int_truediv_limit : limit.

Lemma get_resource_path_limit self tgt rid rt ext w :
  within_limit (get_resource_path self tgt rid rt ext w).
Proof.
  unfold get_resource_path. apply within_limit_bind.
  - case_match; [|done]. apply within_limit_bind; [solve_limit|].
    by intros [] ?.
  - intros [] ?. solve_limit.
Qed.
#[local] Hint Resolve get_resource_path_limit : limit.

Lemma open_file_limit self tgt p : within_limit (open_file self tgt p).
Proof. unfold open_file. solve_limit. Qed.
#[local] Hint Resolve open_file_limit : limit.

Lemma read_hex_bitmap_limit img : within_limit (read_hex_bitmap img).
Proof.
  unfold read_hex_bitmap. apply within_limit_bind; [|by intros [] ?].
  apply within_limit_foldM. intros [mn mx] i. unfold read_hex_row.
  solve_limit.
Qed.
#[local] Hint Resolve read_hex_bitmap_limit : limit.

Lemma load_providers_limit self tgt p : within_limit (load_providers self tgt p).
Proof. unfold load_providers. solve_limit. Qed.

Lemma merge_space_providers_limit l : within_limit (merge_space_providers l).
Proof.
  unfold merge_space_providers. generalize (length l). intros n. revert l.
  induction n as [|n IHn]; intros l; simpl; [done|].
  destruct (reverse l) as [|y [|x r]]; [done|done|].
  apply within_limit_bind; [|intros; apply IHn].
  unfold merge_into. by repeat case_match.
Qed.

Lemma convert_provider_limit self rec p st :
  (∀ R, body p = Reference R -> within_limit (rec R st)) ->
  within_limit (convert_provider self rec p st).
Proof.
  intros Hrec. unfold convert_provider. destruct (body p) eqn:Hb.
  - apply within_limit_bind; [|by intros [] ?].
    unfold convert_reference_provider.
    apply within_limit_bind; [by apply Hrec | by intros [] ?].
  - unfold convert_space_provider, num_mul_float, int_mul_float. solve_limit.
  - unfold convert_ttf_provider, float_div_int. solve_limit.
  - unfold convert_bitmap_provider, convert_row, convert_cell, cell_entry,
      bitmap_advance, int_mul_float, floordiv.
    solve_limit.
  - unfold convert_unihex_provider, unihex_advances, unihex_line,
      unihex_entry, unihex_width, unihex_advance, int_mul_float.
    solve_limit.
  - done.
Qed.

Lemma convert_provider_state self rec p st new st' :
  convert_provider self rec p st = Ok (new, st') ->
  (∃ R r, body p = Reference R ∧ rec R st = Ok (r, st')) ∨ st' = st.
Proof.
  unfold convert_provider. destruct (body p); intros H; try done.
  - left. inv_bind H as [q s] Hq. injection H as _ <-.
    unfold convert_reference_provider in Hq.
    inv_bind Hq as [r s'] Hr. injection Hq as _ <-. by eauto.
  - right. inv_bind H as q Hq. by injection H as _ <-.
  - right. inv_bind H as q Hq. by injection H as _ <-.
  - right. inv_bind H as q Hq. by injection H as _ <-.
  - right. inv_bind H as q Hq. by injection H as _ <-.
Qed.

(** *** Termination on a well-founded reference graph

    [fonts] is a set of font ids closed under references, whose
    definitions are read from [protected] paths that no conversion
    writes to, and [rank] decreases along references.  Then a recursion
    depth above the rank of a font is enough: its conversion does not hit
    the recursion limit. *)
Section Termination.
Variable self : converter.
Variable fonts : string -> Prop.
Variable protected : string -> Prop.
Variable rank : string -> nat.
Variable st0 : state.

Hypothesis reads_protected : ∀ font_id tgt p,
  fonts font_id -> get_font_path self tgt font_id false = Ok p ->
  protected p.2.
Hypothesis writes_elsewhere : ∀ font_id tgt p,
  fonts font_id -> get_font_path self tgt (font_id +:+ suffix self) true = Ok p ->
  ¬ protected p.2.
Hypothesis references_ranked : ∀ font_id p olds R f,
  fonts font_id ->
  get_font_path self (target st0) font_id false = Ok p ->
  load_providers self (target st0) p = Ok olds ->
  {| body := Reference R; filter := f |} ∈ olds ->
  fonts R ∧ (rank R < rank font_id)%nat.

Lemma agree_get_font_path font_id st :
  fonts font_id -> agree protected st0 st ->
  get_font_path self (target st) font_id false
  = get_font_path self (target st0) font_id false.
Proof.
  intros Hf Hag.
  assert (∀ p, get_font_path self (target st0) font_id false = Ok p ->
               protected p.2) as Hp
    by (intros p; by apply reads_protected).
  revert Hp. unfold get_font_path, get_resource_path.
  destruct (_ : result (string * string)) as [[ns loc]|e]; [|done].
  cbn [mbind result_bind]. cbv zeta.
  destruct (fallback_pack self); [|done].
  set (path := ("assets/" +:+ ns +:+ "/" +:+ _ +:+ _)%string).
  intros Hp.
  assert (protected path) as Hpath.
  { destruct (bool_decide (is_Some (target st0 !! path)));
      exact (Hp (_, path) eq_refl). }
  by rewrite (Hag path Hpath).
Qed.

Lemma agree_load_providers st p :
  protected p.2 -> agree protected st0 st ->
  load_providers self (target st) p = load_providers self (target st0) p.
Proof.
  intros Hp Hag. unfold load_providers, open_file.
  destruct p as [[] path]; simpl in *; [|done]. by rewrite (Hag path Hp).
Qed.

Lemma agree_store st path providers :
  agree protected st0 st -> ¬ protected path ->
  agree protected st0 (store path providers st).
Proof.
  intros Hag Hpath q Hq. simpl. rewrite lookup_insert_ne; [by apply Hag|].
  by intros ->.
Qed.

Lemma convert_loop_terminates depth olds :
  (∀ font_id st,
     fonts font_id -> agree protected st0 st -> (rank font_id < depth)%nat ->
     within_limit (convert_font self depth font_id st)
     ∧ ∀ r st', convert_font self depth font_id st = Ok (r, st') ->
                agree protected st0 st') ->
  (∀ R f, {| body := Reference R; filter := f |} ∈ olds ->
          fonts R ∧ (rank R < depth)%nat) ->
  ∀ acc,
    agree protected st0 (bstate acc) ->
    within_limit (foldM (convert_step self (convert_font self depth)) olds acc)
    ∧ ∀ acc', foldM (convert_step self (convert_font self depth)) olds acc
              = Ok acc' ->
              agree protected st0 (bstate acc').
Proof.
  intros IH. induction olds as [|old olds IHl]; intros Hrefs acc Hag; simpl.
  - split; [done|]. by intros acc' [= <-].
  - assert (within_limit
              (convert_provider self (convert_font self depth) old (bstate acc)))
      as Hlim.
    { apply convert_provider_limit. intros R HR.
      destruct (Hrefs R (filter old)) as [HfR HrR].
      { destruct old as [b f]. simpl in *. subst. left. }
      by apply IH. }
    assert (∀ acc1, convert_step self (convert_font self depth) acc old = Ok acc1 ->
                    agree protected st0 (bstate acc1)) as Hst.
    { intros acc1 Hstep. unfold convert_step in Hstep.
      inv_bind Hstep as [new st1] Hconv.
      assert (agree protected st0 st1) as Hag1.
      { destruct (convert_provider_state _ _ _ _ _ _ Hconv)
          as [(R & r & HR & Hr)| ->]; [|done].
        destruct (Hrefs R (filter old)) as [HfR HrR].
        { destruct old as [b f]. simpl in *. subst. left. }
        by eapply (IH R (bstate acc)). }
      destruct new as [q|]; [|by injection Hstep as <-].
      destruct (filter old); [by injection Hstep as <-|].
      destruct (is_space _); by injection Hstep as <-. }
    assert (∀ R f, {| body := Reference R; filter := f |} ∈ olds ->
                   fonts R ∧ (rank R < depth)%nat) as Hrefs'
      by (intros R f HR; apply (Hrefs R f); by right).
    split.
    + apply within_limit_bind.
      * unfold convert_step. apply within_limit_bind; [done|].
        intros [new st1] _. destruct new; [|done].
        destruct (filter old); [done|]. by destruct (is_space _).
      * intros acc1 Hstep. by apply IHl, Hst.
    + intros acc' H. inv_bind H as acc1 Hstep.
      apply (proj2 (IHl Hrefs' acc1 (Hst acc1 Hstep))). done.
Qed.

Lemma convert_font_references_ranked depth font_id st old_path olds :
  fonts font_id -> agree protected st0 st -> (rank font_id < S depth)%nat ->
  get_font_path self (target st) font_id false = Ok old_path ->
  load_providers self (target st) old_path = Ok olds ->
  ∀ R f, {| body := Reference R; filter := f |} ∈ olds ->
         fonts R ∧ (rank R < depth)%nat.
Proof.
  intros Hf Hag Hrank Hold Hload R f HR.
  pose proof (reads_protected _ _ _ Hf Hold) as Hprot.
  rewrite agree_get_font_path in Hold by done.
  rewrite agree_load_providers in Hload by done.
  destruct (references_ranked _ _ _ _ _ Hf Hold Hload HR). split; [done|lia].
Qed.

(** A recursion depth above the rank of a font is enough: the conversion
    does not hit the recursion limit, and leaves the protected paths as
    they were. *)
Theorem convert_font_terminates depth : ∀ font_id st,
  fonts font_id -> agree protected st0 st -> (rank font_id < depth)%nat ->
  within_limit (convert_font self depth font_id st)
  ∧ ∀ r st', convert_font self depth font_id st = Ok (r, st') ->
             agree protected st0 st'.
Proof.
  induction depth as [|depth IH]; intros font_id st Hf Hag Hrank; [lia|].
  cbn [convert_font]. split.
  - apply within_limit_bind; [apply get_resource_path_limit|].
    intros old_path Hold.
    apply within_limit_bind; [apply get_resource_path_limit|].
    intros new_path Hnew.
    apply within_limit_bind; [apply load_providers_limit|].
    intros olds Hload.
    apply within_limit_bind.
    { apply convert_loop_terminates; [done| |done].
      by eapply convert_font_references_ranked. }
    intros acc Hloop.
    apply within_limit_bind; [apply merge_space_providers_limit | done].
  - intros r st' H.
    inv_bind H as old_path Hold. inv_bind H as new_path Hnew.
    inv_bind H as olds Hload. inv_bind H as acc Hloop.
    inv_bind H as merged Hmerge. injection H as <- <-.
    apply agree_store; [|by eapply writes_elsewhere].
    assert (∀ R f, {| body := Reference R; filter := f |} ∈ olds ->
                   fonts R ∧ (rank R < depth)%nat) as Hrefs
      by by eapply convert_font_references_ranked.
    destruct (convert_loop_terminates depth olds IH Hrefs
                {| space_providers := []; other_providers := [];
                   bstate := st |} Hag) as [_ Hst].
    by apply Hst.
Qed.
End Termination.

(** The sample fonts satisfy the hypotheses of the termination theorem:
    [base] refers to [other], which refers to nothing, and the converted
    definitions are written next to them. *)
Lemma convert_font_terminates_sample :
  within_limit
    (convert_font (sample_converter ModeAscii) 2 "base" sample_state).
Proof.
  apply (convert_font_terminates (sample_converter ModeAscii)
           (fun id => id = "base"%string ∨ id = "other"%string)
           (fun p => p = "assets/minecraft/font/base.json"%string
                     ∨ p = "assets/minecraft/font/other.json"%string)
           (fun id => if String.eqb id "base" then 1%nat else 0%nat)
           sample_state).
  - intros font_id tgt p [->| ->] H; vm_compute in H; injection H as <-;
      [by left | by right].
  - intros font_id tgt p [->| ->] H; vm_compute in H; injection H as <-;
      intros [?|?]; discriminate.
  - intros font_id p olds R f [->| ->] Hp Hl HR;
      vm_compute in Hp; injection Hp as <-;
      vm_compute in Hl; injection Hl as <-.
    + apply elem_of_cons in HR as [[= -> _]|HR]; [split; [by right | simpl; lia]|].
      repeat (apply elem_of_cons in HR as [?|HR]; [done|]).
      by apply elem_of_nil in HR.
    + apply list_elem_of_singleton in HR. done.
  - by left.
  - done.
  - simpl. lia.
Qed.


(** * Further properties of the converter *)

(** ** Resource ids and paths *)

Lemma list_ascii_of_string_app (a b : string) :
  list_ascii_of_string (a +:+ b)
  = list_ascii_of_string a ++ list_ascii_of_string b.
Proof.
  induction a as [|c a IH]; [done|].
  change (String c a +:+ b)%string with (String c (a +:+ b)).
  simpl. by rewrite IH.
Qed.

Lemma string_app_nil_r (a : string) : (a +:+ "")%string = a.
Proof.
  induction a as [|c a IH]; [done|].
  change (String c a +:+ "")%string with (String c (a +:+ "")). by rewrite IH.
Qed.

Lemma colons_cons c s :
  colons (c :: s) = if Ascii.eqb c colon then S (colons s) else colons s.
Proof.
  unfold colons. rewrite filter_cons.
  destruct (Ascii.eqb_spec c colon) as [->|Hne].
  - by rewrite decide_True.
  - by rewrite decide_False.
Qed.

Lemma colons_zero s : colons s = 0%nat <-> colon ∉ s.
Proof.
  induction s as [|c s IH].
  { split; [intros _; apply not_elem_of_nil | done]. }
  rewrite colons_cons, not_elem_of_cons.
  destruct (Ascii.eqb_spec c colon) as [->|Hne].
  - split; [done | by intros [? _]].
  - rewrite IH. split; [by split | by intros [_ ?]].
Qed.

Lemma split_colon_app a b :
  colon ∉ a -> colon ∉ b -> split_colon (a ++ colon :: b) = Ok (a, b).
Proof.
  intros Ha Hb. induction a as [|c a IH]; simpl.
  - by rewrite bool_decide_eq_false_2.
  - apply not_elem_of_cons in Ha as [Hc Ha].
    destruct (Ascii.eqb_spec c colon) as [->|_]; [done|].
    by rewrite IH.
Qed.

Lemma split_colon_inv s : ∀ a b,
  split_colon s = Ok (a, b) ->
  s = a ++ colon :: b ∧ (colon ∉ a) ∧ (colon ∉ b).
Proof.
  induction s as [|c s IH]; intros a b; simpl; [done|].
  destruct (Ascii.eqb_spec c colon) as [->|Hne].
  - case_bool_decide as Hin; [done|]. intros [= <- <-].
    split; [done|]. split; [apply not_elem_of_nil | done].
  - intros H. inv_bind H as [a' b'] Hs. injection H as <- <-.
    apply IH in Hs as (-> & Ha & Hb). split; [done|]. split; [|done].
    apply not_elem_of_cons. by split.
Qed.

(** [s.split(":")] unpacks into two names exactly when [s] has one
    separator, and then the names are what stands before and after it. *)
Lemma split_colon_Ok s a b :
  split_colon s = Ok (a, b) <->
  s = a ++ colon :: b ∧ (colon ∉ a) ∧ (colon ∉ b).
Proof.
  split; [apply split_colon_inv|]. intros (-> & Ha & Hb).
  by apply split_colon_app.
Qed.

Lemma split_colon_count s :
  (colons s = 1%nat -> ∃ ab, split_colon s = Ok ab)
  ∧ (colons s ≠ 1%nat -> split_colon s = Raise ValueError).
Proof.
  induction s as [|c s [IH1 IH2]]; [by split|].
  rewrite colons_cons. simpl. destruct (Ascii.eqb_spec c colon) as [->|Hne].
  - case_bool_decide as Hin.
    + split; [|done]. intros [= H0]. by apply colons_zero in H0.
    + split; [by eauto|]. intros H. exfalso. apply H. f_equal.
      by apply colons_zero.
  - split.
    + intros H1. destruct (IH1 H1) as [[a b] ->]. by eauto.
    + intros H1. by rewrite (IH2 H1).
Qed.

(** X1: a resource id without a namespace is looked up in the namespace
    [minecraft]: it resolves exactly as the same id with the prefix
    [minecraft:] does. *)
Theorem get_resource_path_default_namespace (self : converter) (tgt : pack)
    (resource_id resource_type extension : string) (write : bool) :
  colon ∉ list_ascii_of_string resource_id ->
  get_resource_path self tgt ("minecraft:" +:+ resource_id)
                    resource_type extension write
  = get_resource_path self tgt resource_id resource_type extension write.
Proof.
  intros Hid. unfold get_resource_path.
  rewrite (bool_decide_eq_false_2 (colon ∈ list_ascii_of_string resource_id))
    by done.
  rewrite list_ascii_of_string_app.
  set (ns := list_ascii_of_string "minecraft").
  change (list_ascii_of_string "minecraft:") with (ns ++ [colon]).
  rewrite <- app_assoc. simpl ([colon] ++ _).
  rewrite bool_decide_eq_true_2 by (apply elem_of_app; right; left).
  assert (split_colon (ns ++ colon :: list_ascii_of_string resource_id)
          = Ok (ns, list_ascii_of_string resource_id)) as ->.
  { apply split_colon_Ok. split; [done|]. split; [|done].
    subst ns. vm_compute. intros H. by repeat (apply elem_of_cons in H as [H|H]; [done|]); apply elem_of_nil in H. }
  cbn [mbind result_bind]. subst ns.
  by rewrite !string_of_list_ascii_of_string.
Qed.

Lemma get_resource_path_default_namespace_witness :
  get_resource_path (sample_converter ModeAscii) sample_fonts
    ("minecraft:" +:+ "base") "font" ".json" false
  = get_resource_path (sample_converter ModeAscii) sample_fonts
      "base" "font" ".json" false.
Proof.
  apply get_resource_path_default_namespace.
  apply (bool_decide_unpack _). vm_compute. reflexivity.
Defined.

(** X2: a resource id resolves exactly when it has at most one [:]
    separator; with two or more, unpacking the split raises
    [ValueError]. *)
Theorem get_resource_path_separators (self : converter) (tgt : pack)
    (resource_id resource_type extension : string) (write : bool) :
  let n := colons (list_ascii_of_string resource_id) in
  ((n <= 1)%nat ->
   ∃ p, get_resource_path self tgt resource_id resource_type extension write
        = Ok p)
  ∧ ((2 <= n)%nat ->
     get_resource_path self tgt resource_id resource_type extension write
     = Raise ValueError).
Proof.
  intros n. subst n. unfold get_resource_path.
  set (rid := list_ascii_of_string resource_id).
  destruct (split_colon_count rid) as [H1 Hn1]. split.
  - intros Hle. case_bool_decide as Hin.
    + destruct H1 as [[a b] ->].
      { destruct (colons rid) as [|[|n]] eqn:E; [|done|lia].
        by apply colons_zero in E. }
      cbn [mbind result_bind]. cbv zeta.
      destruct write; [by eauto|]. destruct (fallback_pack self); [|by eauto].
      case_bool_decide; by eauto.
    + cbn [mbind result_bind]. cbv zeta.
      destruct write; [by eauto|]. destruct (fallback_pack self); [|by eauto].
      case_bool_decide; by eauto.
  - intros Hge. rewrite bool_decide_eq_true_2.
    + rewrite Hn1 by lia. done.
    + destruct (decide (colon ∈ rid)) as [|Hn]; [done|].
      apply colons_zero in Hn. lia.
Qed.

Lemma get_resource_path_separators_witness :
  get_resource_path (sample_converter ModeAscii) sample_fonts
    "a:b:c" "font" ".json" false
  = Raise ValueError.
Proof.
  apply (proj2 (get_resource_path_separators (sample_converter ModeAscii)
                  sample_fonts "a:b:c" "font" ".json" false)).
  vm_compute. lia.
Defined.

(** X3: the path of a resource depends neither on the mode nor on the
    packs; the fallback pack is chosen exactly when reading, with a
    fallback pack configured and no file at that path in the target
    pack. *)
Theorem get_resource_path_fallback (self : converter) (tgt : pack)
    (resource_id resource_type extension : string) (write : bool)
    (r : root) (path : string) :
  get_resource_path self tgt resource_id resource_type extension write
  = Ok (r, path) ->
  (r = FallbackRoot <->
   write = false ∧ is_Some (fallback_pack self) ∧ tgt !! path = None)
  ∧ ∀ tgt' write',
      ∃ r', get_resource_path self tgt' resource_id resource_type extension
              write' = Ok (r', path).
Proof.
  unfold get_resource_path. intros H. inv_bind H as [ns loc] Hs.
  cbv zeta in *. split.
  - destruct write.
    { injection H as <- _. split; [done | by intros [? _]]. }
    destruct (fallback_pack self) as [fb|].
    2:{ injection H as <- _. split; [done|]. by intros (_ & [? ?] & _). }
    case_bool_decide as Hin; injection H as <- <-.
    + split; [done|]. intros (_ & _ & Hn). rewrite Hn in Hin.
      by destruct Hin.
    + split; [|done]. intros _. split; [done|]. split; [by eauto|].
      by apply eq_None_not_Some.
  - intros tgt' write'.
    assert (path = ("assets/" +:+ ns +:+ "/" +:+
              (if String.eqb resource_type "" then ""
               else resource_type +:+ "/") +:+ loc +:+ extension)%string) as ->.
    { destruct write; [by injection H as _ <-|].
      destruct (fallback_pack self); [|by injection H as _ <-].
      case_bool_decide; by injection H as _ <-. }
    clear H. rw_bind Hs. cbv zeta.
    destruct write'; [eexists; reflexivity|].
    destruct (fallback_pack self); [|eexists; reflexivity].
    destruct (bool_decide (is_Some (tgt' !! _))); eexists; reflexivity.
Qed.

Lemma get_resource_path_fallback_witness :
  (TargetRoot = FallbackRoot <->
   false = false
   ∧ is_Some (fallback_pack (sample_converter ModeAscii))
   ∧ sample_fonts !! "assets/minecraft/font/base.json"%string = None)
  ∧ ∀ tgt' write',
      ∃ r', get_resource_path (sample_converter ModeAscii) tgt' "base" "font"
              ".json" write'
            = Ok (r', "assets/minecraft/font/base.json"%string).
Proof.
  apply (get_resource_path_fallback (sample_converter ModeAscii) sample_fonts
           "base" "font" ".json" false).
  vm_compute. reflexivity.
Defined.

(** ** More on the hex-bitmap decoder *)

Lemma low_index_pos row : 0 < row -> 1 <= low_index row.
Proof.
  intros Hrow. unfold low_index. apply bit_length_pos. intros Hz.
  rewrite <- (Z.lnot_pred row), <- Z.ldiff_land in Hz.
  apply Z.ldiff_le in Hz; lia.
Qed.

(** X4: a bitmap of fewer than sixteen characters has empty rows, and
    parsing the first one raises [ValueError]. *)
Theorem read_hex_bitmap_short (img : list ascii) :
  (length img < 16)%nat -> read_hex_bitmap img = Raise ValueError.
Proof.
  intros Hlen. unfold read_hex_bitmap.
  rewrite (Nat.div_small (length img) 16) by done. done.
Qed.

Lemma read_hex_bitmap_short_witness :
  read_hex_bitmap (list_ascii_of_string "0018") = Raise ValueError.
Proof. apply read_hex_bitmap_short. simpl. lia. Defined.

(** X5: on sixteen rows of hexadecimal digits the extent is between 0
    and the width of a row in pixels (four per digit), and it is 0 only
    when every row is zero. *)
Theorem read_hex_bitmap_bounds (img : list ascii) :
  Forall is_hex img -> (16 <= length img)%nat ->
  ∃ w, read_hex_bitmap img = Ok w
       ∧ 0 <= w <= 4 * Z.of_nat (length img / 16)
       ∧ (w = 0 <-> nonzero_rows (hex_rows img) = []).
Proof.
  intros Hhex Hlen.
  pose proof (row_step_fold (hex_rows img)
                (Z.of_nat (length img / 16) * 4) (-1)) as H.
  cbv zeta in H. unfold read_hex_bitmap. rewrite read_hex_rows by done.
  destruct (foldl row_step _ (hex_rows img)) as [mn mx].
  cbn [fst snd] in H. cbn [mbind result_bind].
  destruct H as (Hnil & Hlo & Hlob & Hhi & Hhib & _ & _).
  eexists. split; [done|].
  destruct (nonzero_rows (hex_rows img)) as [|r0 nz] eqn:Enz.
  - injection (Hnil eq_refl) as -> ->. simpl. split; [lia | done].
  - assert (∀ r, r ∈ r0 :: nz -> 0 < r < 2 ^ (4 * Z.of_nat (length img / 16)))
      as Hrange.
    { intros r Hr. rewrite <- Enz in Hr.
      apply list_elem_of_filter in Hr as [Hnz Hr].
      pose proof (hex_rows_range img Hhex Hlen r Hr). lia. }
    assert (∀ x, x ∈ high_index <$> r0 :: nz ->
                 1 <= x <= 4 * Z.of_nat (length img / 16)) as Hhigh.
    { intros x (r & -> & Hr)%list_elem_of_fmap. specialize (Hrange r Hr).
      split; [apply bit_length_pos; lia | apply bit_length_bound; lia]. }
    assert (∀ x, x ∈ low_index <$> r0 :: nz ->
                 1 <= x <= 4 * Z.of_nat (length img / 16)) as Hlow.
    { intros x (r & -> & Hr)%list_elem_of_fmap. specialize (Hrange r Hr).
      split; [apply low_index_pos; lia|].
      etrans; [apply low_index_le_high; lia | apply bit_length_bound; lia]. }
    assert (1 <= mx <= 4 * Z.of_nat (length img / 16)) as Hmx.
    { destruct Hhi as [->|Hin]; [|by apply Hhigh].
      pose proof (Hhib (high_index r0) ltac:(left)) as Hle.
      pose proof (Hhigh (high_index r0) ltac:(left)). lia. }
    assert (1 <= mn <= mx) as Hmn.
    { split.
      - destruct Hlo as [->|Hin]; [lia | by apply Hlow].
      - destruct Hhi as [->|(r & -> & Hr)%list_elem_of_fmap]; [lia|].
        etrans; [apply Hlob; apply list_elem_of_fmap; by exists r|].
        apply low_index_le_high. specialize (Hrange r Hr). lia. }
    destruct (Z.eqb_spec mx (-1)); [lia|]. split; [lia|]. split; [lia|done].
Qed.

Lemma read_hex_bitmap_bounds_witness :
  ∃ w, read_hex_bitmap (list_ascii_of_string sample_glyph) = Ok w
       ∧ 0 <= w <= 4 * Z.of_nat (length (list_ascii_of_string sample_glyph) / 16)
       ∧ (w = 0 <->
          nonzero_rows (hex_rows (list_ascii_of_string sample_glyph)) = []).
Proof.
  apply read_hex_bitmap_bounds.
  - repeat constructor; by eexists.
  - simpl. lia.
Defined.

(** ** More on unihex providers *)

(** A loop that returns has run its body on every element. *)
Lemma foldM_Ok_each {A B} (f : A -> B -> result A) l : ∀ acc r,
  foldM f l acc = Ok r -> ∀ x, x ∈ l -> ∃ a a', f a x = Ok a'.
Proof.
  induction l as [|y l IH]; intros acc r H x Hx; simpl in H.
  - by apply elem_of_nil in Hx.
  - inv_bind H as acc' Hy. apply elem_of_cons in Hx as [->|Hx]; [by eauto|].
    by eapply IH.
Qed.

Lemma find_hex_skip entries : ∀ acc : option (list string),
  Forall (fun e => endswith e.1 ".hex" = false) entries ->
  fold_left (fun acc e => if endswith e.1 ".hex" then Some e.2 else acc)
            entries acc = acc.
Proof.
  induction entries as [|e entries IH]; intros acc He; simpl; [done|].
  apply Forall_cons in He as [He Hes]. rewrite He. by apply IH.
Qed.

Lemma find_hex_last pre name (lines : list string) post :
  endswith name ".hex" = true ->
  Forall (fun e => endswith e.1 ".hex" = false) post ->
  find_hex (pre ++ (name, lines) :: post) = Some lines.
Proof.
  intros Hn Hpost. unfold find_hex. rewrite fold_left_app. simpl.
  rewrite Hn. by apply find_hex_skip.
Qed.

(** X6: a unihex provider reads the last archive entry whose name ends
    in [.hex]; when the mode is not [none] and the archive has no such
    entry, the conversion raises [UnboundLocalError]. *)
Theorem convert_unihex_hex_entry (self : converter) (tgt : pack)
    (hex_file : string) (size_overrides : list size_override)
    (path : root * string) (entries : list (string * list string)) :
  mode self ≠ ModeNone ->
  get_resource_path self tgt hex_file "" "" false = Ok path ->
  open_file self tgt path = Ok (ZipArchive entries) ->
  (Forall (fun e => endswith e.1 ".hex" = false) entries ->
   convert_unihex_provider self tgt hex_file size_overrides
   = Raise UnboundLocalError)
  ∧ (∀ pre name lines post,
       entries = pre ++ (name, lines) :: post ->
       endswith name ".hex" = true ->
       Forall (fun e => endswith e.1 ".hex" = false) post ->
       unihex_advances self tgt hex_file size_overrides
       = foldM (unihex_line self (build_overrides size_overrides)) lines []).
Proof.
  intros Hm Hp Hf. split.
  - intros Hnone. unfold convert_unihex_provider, unihex_advances.
    rewrite bool_decide_eq_false_2 by done. rw_bind Hp. rw_bind Hf.
    unfold find_hex. by rewrite find_hex_skip.
  - intros pre name lines post -> Hn Hpost.
    apply (unihex_advances_lines _ _ _ _ _ _ _ Hp Hf).
    by apply find_hex_last.
Qed.

Lemma convert_unihex_hex_entry_witness :
  unihex_advances (sample_converter ModeAscii) sample_pack
    "minecraft:font/unifont.zip" []
  = foldM (unihex_line (sample_converter ModeAscii) (build_overrides []))
          sample_hex_lines [].
Proof.
  apply (proj2 (convert_unihex_hex_entry (sample_converter ModeAscii)
                  sample_pack "minecraft:font/unifont.zip" []
                  (TargetRoot, "assets/minecraft/font/unifont.zip"%string)
                  [("readme.txt"%string, []);
                   ("unifont.hex"%string, sample_hex_lines)]
                  ltac:(discriminate) ltac:(vm_compute; reflexivity)
                  ltac:(vm_compute; reflexivity))
           [("readme.txt"%string, [])] "unifont.hex"%string sample_hex_lines []);
    [reflexivity | vm_compute; reflexivity | constructor].
Defined.

(** X7: a line of the hex file that does not have exactly one [:]
    raises [ValueError], and a hex file holding such a line is never
    converted. *)
Theorem unihex_malformed_line (self : converter) (tgt : pack)
    (hex_file : string) (size_overrides : list size_override)
    (path : root * string) (entries : list (string * list string))
    (lines : list string) (line : string) :
  colons (list_ascii_of_string line) ≠ 1%nat ->
  unihex_entry self (build_overrides size_overrides) line = Raise ValueError
  ∧ (mode self ≠ ModeNone ->
     get_resource_path self tgt hex_file "" "" false = Ok path ->
     open_file self tgt path = Ok (ZipArchive entries) ->
     find_hex entries = Some lines ->
     line ∈ lines ->
     ∀ q, convert_unihex_provider self tgt hex_file size_overrides ≠ Ok q).
Proof.
  intros Hc.
  assert (unihex_entry self (build_overrides size_overrides) line
          = Raise ValueError) as Hentry.
  { unfold unihex_entry.
    by rewrite (proj2 (split_colon_count (list_ascii_of_string line)) Hc). }
  split; [done|]. intros Hm Hp Hf Hl Hin q Hq.
  unfold convert_unihex_provider in Hq.
  rewrite bool_decide_eq_false_2 in Hq by done. inv_bind Hq as adv Hadv.
  rewrite (unihex_advances_lines _ _ _ _ _ _ _ Hp Hf Hl) in Hadv.
  destruct (foldM_Ok_each _ _ _ _ Hadv line Hin) as (a & a' & Ha).
  unfold unihex_line in Ha. by rewrite Hentry in Ha.
Qed.

Lemma unihex_malformed_line_witness :
  unihex_entry (sample_converter ModeAscii) (build_overrides []) ""
  = Raise ValueError.
Proof.
  apply (proj1 (unihex_malformed_line (sample_converter ModeAscii) sample_pack
                  "minecraft:font/unifont.zip" []
                  (TargetRoot, "assets/minecraft/font/unifont.zip"%string)
                  [] [] "" ltac:(vm_compute; discriminate))).
Defined.

Lemma unihex_entry_key_range self ovs line k a :
  unihex_entry self ovs line = Ok (Some (k, a)) ->
  0 <= k < 1114112 ∧ (mode self = ModeAscii -> k <= 256).
Proof.
  unfold unihex_entry. intros H.
  inv_bind H as [code img] Hs. inv_bind H as c Hc.
  inv_bind H as [w|] Hw; [|done].
  inv_bind H as x Hx. inv_bind H as c' Hc'. injection H as <- _.
  unfold chr in Hc'.
  destruct ((0 <=? c) && (c <? 1114112)) eqn:Hr; [|done].
  injection Hc' as <-. apply andb_true_iff in Hr as [H0 H1].
  split; [lia|]. intros Hm. unfold unihex_width in Hw.
  rewrite bool_decide_eq_true_2 in Hw by done.
  destruct (Z.ltb_spec 256 c); [done | lia].
Qed.

(** X8: every key of the advance map of a converted unihex provider is
    a Unicode code point, and under mode [ascii] it is at most 256. *)
Theorem convert_unihex_keys_range (self : converter) (tgt : pack)
    (hex_file : string) (size_overrides : list size_override)
    (adv : dict pynum) :
  convert_unihex_provider self tgt hex_file size_overrides
  = Ok (Some (space adv)) ->
  ∀ k, k ∈ dict_keys adv ->
       0 <= k < 1114112 ∧ (mode self = ModeAscii -> k <= 256).
Proof.
  intros H k Hk.
  apply convert_unihex_Some in H as (adv' & Hadv & _ & [= <-]).
  unfold unihex_advances in Hadv. inv_bind Hadv as path Hp.
  inv_bind Hadv as f Hf. destruct f; try done.
  destruct (find_hex entries); [|done].
  apply unihex_lines_entries in Hadv as (es & Hes & ->).
  apply foldl_assign_keys in Hk as [Hk|(v & Hv)].
  { by apply elem_of_nil in Hk. }
  apply list_elem_of_lookup in Hv as [i Hi].
  destruct (Forall2_lookup_r _ _ _ _ _ Hes Hi) as (line & _ & He).
  by eapply unihex_entry_key_range.
Qed.

Lemma convert_unihex_keys_range_witness :
  0 <= 65 < 1114112
  ∧ (mode (sample_converter ModeAscii) = ModeAscii -> 65 <= 256).
Proof.
  apply (convert_unihex_keys_range (sample_converter ModeAscii) sample_pack
           "minecraft:font/unifont.zip" [] [(65, PyFloat 2)]).
  - vm_compute. reflexivity.
  - left.
Defined.
(** ** More on bitmap providers *)

Lemma enumerate_snd {A} (l : list A) : (enumerate l).*2 = l.
Proof. unfold enumerate. apply snd_zip. by rewrite length_seq. Qed.

Lemma enumerate_lt {A} (l : list A) i x : (i, x) ∈ enumerate l -> (i < length l)%nat.
Proof.
  unfold enumerate. intros H. apply elem_of_zip_l in H.
  apply elem_of_seq in H. lia.
Qed.

Lemma enumerate_elem_of {A} (l : list A) x : x ∈ l -> ∃ i, (i, x) ∈ enumerate l.
Proof.
  intros H. rewrite <- (enumerate_snd l) in H.
  apply list_elem_of_fmap in H as ([i y] & -> & H). by exists i.
Qed.

Lemma row_cells_chars yl : cell_char <$> row_cells yl = yl.2.
Proof.
  unfold row_cells. rewrite <- list_fmap_compose.
  rewrite <- (enumerate_snd yl.2) at 2. by apply list_fmap_ext.
Qed.

Lemma rows_cells_chars (rows : list (nat * list char)) :
  cell_char <$> concat (row_cells <$> rows) = concat rows.*2.
Proof.
  induction rows as [|yl rows IH]; [done|].
  rewrite !fmap_cons. cbn [concat].
  by rewrite fmap_app, row_cells_chars, IH.
Qed.

Lemma grid_cells_chars chars : cell_char <$> grid_cells chars = concat chars.
Proof. unfold grid_cells. by rewrite rows_cells_chars, enumerate_snd. Qed.

Lemma grid_entry_blank self img height n c e :
  grid_entry self img height n c = Ok e ->
  if is_blank (cell_char c) then e = None else ∃ a, e = Some (cell_char c, a).
Proof.
  unfold grid_entry. intros H. inv_bind H as ch Hch. inv_bind H as cw Hcw.
  unfold cell_entry in H. cbn [fst snd] in H.
  destruct (is_blank (cell_char c)); [by injection H as <-|].
  inv_bind H as a Ha. injection H as <-. by eexists.
Qed.

Lemma convert_bitmap_inv self tgt file chars height q :
  convert_bitmap_provider self tgt file chars height = Ok q ->
  ∃ path img res,
    get_resource_path self tgt file "textures" "" false = Ok path
    ∧ open_file self tgt path = Ok (ImageFile img)
    ∧ foldM (convert_row self img (default 8 height) (length chars))
            (enumerate chars) [] = Ok res
    ∧ q = space res.
Proof.
  unfold convert_bitmap_provider. intros H.
  inv_bind H as path Hp. inv_bind H as f Hf. destruct f; try done.
  inv_bind H as res Hres. injection H as <-. by exists path, img, res.
Qed.

(** X9: the advance map of a converted bitmap provider has exactly the
    characters of the grid other than NUL and space as its keys. *)
Theorem convert_bitmap_keys (self : converter) (tgt : pack) (file : string)
    (chars : list (list char)) (height : option Z) (res : dict pynum) :
  convert_bitmap_provider self tgt file chars height = Ok (space res) ->
  ∀ k, k ∈ dict_keys res <-> k ∈ concat chars ∧ is_blank k = false.
Proof.
  intros H k.
  apply convert_bitmap_inv in H as (path & img & res' & _ & _ & H & [= <-]).
  apply convert_rows_entries in H as (es & Hes & ->).
  fold (grid_cells chars) in Hes.
  rewrite foldl_assign_keys. split.
  - intros [Hk|(v & Hv)]; [by apply elem_of_nil in Hk|].
    apply list_elem_of_lookup in Hv as [i Hi].
    destruct (Forall2_lookup_r _ _ _ _ _ Hes Hi) as (c & Hc & He).
    apply grid_entry_key in He as [-> Hb]. split; [|done].
    rewrite <- grid_cells_chars. apply list_elem_of_fmap. exists c.
    split; [done|]. by eapply list_elem_of_lookup_2.
  - intros [Hk Hb]. right. rewrite <- grid_cells_chars in Hk.
    apply list_elem_of_fmap in Hk as (c & -> & Hc).
    apply list_elem_of_lookup in Hc as [i Hi].
    destruct (Forall2_lookup_l _ _ _ _ _ Hes Hi) as (e & He & Hg).
    apply grid_entry_blank in Hg. rewrite Hb in Hg. destruct Hg as [a ->].
    exists a. by eapply list_elem_of_lookup_2.
Qed.

Lemma convert_bitmap_keys_witness :
  65 ∈ dict_keys [(65, PyFloat 5); (66, PyFloat 3)]
  <-> 65 ∈ concat [[65; 32; 66; 0]] ∧ is_blank 65 = false.
Proof.
  apply (convert_bitmap_keys (sample_converter ModeAscii) sample_textures
           "minecraft:font/sheet.png" [[65; 32; 66; 0]] None
           [(65, PyFloat 5); (66, PyFloat 3)]).
  vm_compute. reflexivity.
Defined.

(** X10: a bitmap provider is converted only when no row of its grid
    is empty and, if the grid holds a character other than NUL and
    space, the sheet has at least one pixel row per grid row; otherwise
    a division by zero is raised. *)
Theorem convert_bitmap_division (self : converter) (tgt : pack) (file : string)
    (chars : list (list char)) (height : option Z)
    (path : root * string) (img : image) :
  get_resource_path self tgt file "textures" "" false = Ok path ->
  open_file self tgt path = Ok (ImageFile img) ->
  (∀ q, convert_bitmap_provider self tgt file chars height = Ok q ->
        Forall (fun line => line ≠ []) chars
        ∧ (∀ k, k ∈ concat chars -> is_blank k = false ->
                img_height img / Z.of_nat (length chars) ≠ 0))
  ∧ (∀ line rest, chars = line :: rest ->
       (line = [] ∨ (∃ k tl, line = k :: tl ∧ is_blank k = false
                             ∧ img_height img / Z.of_nat (length chars) = 0)) ->
       convert_bitmap_provider self tgt file chars height
       = Raise ZeroDivisionError).
Proof.
  intros Hp Hf. split.
  - intros q H.
    apply convert_bitmap_inv in H as (path' & img' & res & Hp' & Hf' & H & ->).
    rewrite Hp in Hp'. injection Hp' as <-.
    rewrite Hf in Hf'. injection Hf' as <-. split.
    + apply Forall_forall. intros line Hl ->.
      apply enumerate_elem_of in Hl as [y Hy].
      destruct (foldM_Ok_each _ _ _ _ H _ Hy) as (a & a' & Ha).
      unfold convert_row in Ha. inv_bind Ha as ch Hch.
      by inv_bind Ha as cw Hcw.
    + intros k Hk Hb Hz.
      apply convert_rows_entries in H as (es & Hes & _).
      fold (grid_cells chars) in Hes. rewrite <- grid_cells_chars in Hk.
      apply list_elem_of_fmap in Hk as (c & -> & Hc).
      apply list_elem_of_lookup in Hc as [i Hi].
      destruct (Forall2_lookup_l _ _ _ _ _ Hes Hi) as (e & _ & Hg).
      unfold grid_entry in Hg. inv_bind Hg as ch Hch. inv_bind Hg as cw Hcw.
      unfold floordiv in Hch. destruct (Z.of_nat (length chars) =? 0); [done|].
      injection Hch as <-. unfold cell_entry in Hg. cbn [fst snd] in Hg.
      rewrite Hb in Hg. inv_bind Hg as a Ha. unfold bitmap_advance in Ha.
      inv_bind Ha as w Hw. unfold int_truediv in Hw. by rewrite Hz in Hw.
  - intros line rest -> Hcase.
    assert (convert_row self img (default 8 height) (length (line :: rest)) []
              (0%nat, line) = Raise ZeroDivisionError) as Hrow.
    { unfold convert_row, floordiv. cbn [fst snd].
      replace (Z.of_nat (length (line :: rest)) =? 0) with false
        by (symmetry; apply Z.eqb_neq; simpl; lia).
      cbn [mbind result_bind].
      destruct Hcase as [->|(k & tl & -> & Hb & Hz)]; [done|].
      replace (Z.of_nat (length (k :: tl)) =? 0) with false
        by (symmetry; apply Z.eqb_neq; simpl; lia).
      cbn [mbind result_bind]. unfold enumerate.
      cbn [length seq zip zip_with foldM]. unfold convert_cell, cell_entry.
      cbn [fst snd]. rewrite Hb. unfold bitmap_advance, int_truediv.
      cbn [length] in Hz. by rewrite Hz. }
    unfold convert_bitmap_provider. rw_bind Hp. rw_bind Hf.
    unfold enumerate. cbn [length seq zip zip_with foldM].
    cbn [length] in Hrow. by rewrite Hrow.
Qed.

Lemma convert_bitmap_division_witness :
  convert_bitmap_provider (sample_converter ModeAscii) sample_textures
    "minecraft:font/sheet.png" [[]; [65]] None
  = Raise ZeroDivisionError.
Proof.
  apply (proj2 (convert_bitmap_division (sample_converter ModeAscii)
                  sample_textures "minecraft:font/sheet.png" [[]; [65]] None
                  (TargetRoot, "assets/minecraft/textures/font/sheet.png"%string)
                  sample_image
                  ltac:(vm_compute; reflexivity) ltac:(vm_compute; reflexivity))
           [] [[65]] eq_refl).
  by left.
Defined.

Lemma foldM_ext_in {A B} (f g : A -> B -> result A) l :
  (∀ a x, x ∈ l -> f a x = g a x) -> ∀ acc, foldM f l acc = foldM g l acc.
Proof.
  induction l as [|x l IH]; intros Hfg acc; simpl; [done|].
  rewrite Hfg by left. destruct (g acc x) as [acc'|e]; simpl; [|done].
  apply IH. intros a y Hy. apply Hfg. by right.
Qed.

Lemma scan_width_ext (s s' : Z -> bool) n :
  (∀ i, 0 <= i < Z.of_nat n -> s i = s' i) -> scan_width s n = scan_width s' n.
Proof.
  induction n as [|n IH]; intros H; simpl; [done|].
  rewrite H by lia. rewrite IH; [done|]. intros i Hi. apply H. lia.
Qed.

Lemma existsb_ext_in {A} (f g : A -> bool) l :
  (∀ x, x ∈ l -> f x = g x) -> existsb f l = existsb g l.
Proof.
  induction l as [|x l IH]; intros H; simpl; [done|].
  rewrite H by left. f_equal. apply IH. intros y Hy. apply H. by right.
Qed.

Lemma glyph_width_same_pixels a b nc nr x y :
  same_pixels a b -> (x < nc)%nat -> (y < nr)%nat ->
  glyph_width a (img_width a / Z.of_nat nc) (img_height a / Z.of_nat nr) x y
  = glyph_width b (img_width a / Z.of_nat nc) (img_height a / Z.of_nat nr) x y.
Proof.
  intros (Hw & Hh & Hpx) Hx Hy. unfold glyph_width.
  set (cw := img_width a / Z.of_nat nc). set (ch := img_height a / Z.of_nat nr).
  apply scan_width_ext. intros i Hi. unfold scan_bitmap_col.
  apply existsb_ext_in. intros j Hj. apply elem_of_seq in Hj.
  f_equal. f_equal.
  assert (Z.of_nat nc * cw <= img_width a) as Hcw
    by (apply Z.mul_div_le; lia).
  assert (Z.of_nat nr * ch <= img_height a) as Hch
    by (apply Z.mul_div_le; lia).
  apply Hpx; nia.
Qed.

(** X11: the conversion of a bitmap provider reads only pixels inside
    the sheet: two sheets of the same size that agree on every pixel
    inside it convert alike. *)
Theorem convert_bitmap_reads_in_range (self : converter) (tgt tgt' : pack)
    (file : string) (chars : list (list char)) (height : option Z)
    (path path' : root * string) (img img' : image) :
  get_resource_path self tgt file "textures" "" false = Ok path ->
  open_file self tgt path = Ok (ImageFile img) ->
  get_resource_path self tgt' file "textures" "" false = Ok path' ->
  open_file self tgt' path' = Ok (ImageFile img') ->
  same_pixels img img' ->
  convert_bitmap_provider self tgt file chars height
  = convert_bitmap_provider self tgt' file chars height.
Proof.
  intros Hp Hf Hp' Hf' Hsame. unfold convert_bitmap_provider.
  rw_bind Hp. rw_bind Hf. rw_bind Hp'. rw_bind Hf'. f_equal.
  apply foldM_ext_in. intros res [y line] Hy. apply enumerate_lt in Hy.
  unfold convert_row. cbn [fst snd].
  destruct Hsame as (Hw & Hh & Hpx). rewrite <- Hw, <- Hh.
  unfold floordiv.
  destruct (Z.of_nat (length chars) =? 0); [done|]. cbn [mbind result_bind].
  destruct (Z.of_nat (length line) =? 0); [done|]. cbn [mbind result_bind].
  apply foldM_ext_in. intros res' [x c] Hx. apply enumerate_lt in Hx.
  unfold convert_cell, cell_entry. cbn [fst snd].
  destruct (is_blank c); [done|].
  by rewrite (glyph_width_same_pixels img img' _ _ _ _ (conj Hw (conj Hh Hpx)) Hx Hy).
Qed.

Lemma convert_bitmap_reads_in_range_witness :
  convert_bitmap_provider (sample_converter ModeAscii) sample_textures
    "minecraft:font/sheet.png" [[65; 66]] None
  = convert_bitmap_provider (sample_converter ModeAscii) sample_textures_framed
      "minecraft:font/sheet.png" [[65; 66]] None.
Proof.
  apply (convert_bitmap_reads_in_range (sample_converter ModeAscii)
           sample_textures sample_textures_framed
           "minecraft:font/sheet.png" [[65; 66]] None
           (TargetRoot, "assets/minecraft/textures/font/sheet.png"%string)
           (TargetRoot, "assets/minecraft/textures/font/sheet.png"%string)
           sample_image sample_image_framed
           ltac:(vm_compute; reflexivity) ltac:(vm_compute; reflexivity)
           ltac:(vm_compute; reflexivity) ltac:(vm_compute; reflexivity)).
  split; [reflexivity|]. split; [reflexivity|].
  intros x y Hx Hy.
  cbn [img_alpha img_width img_height sample_image sample_image_framed] in *.
  replace (x <? 0) with false by (symmetry; apply Z.ltb_ge; lia).
  replace (16 <=? x) with false by (symmetry; apply Z.leb_gt; lia).
  replace (y <? 0) with false by (symmetry; apply Z.ltb_ge; lia).
  replace (8 <=? y) with false by (symmetry; apply Z.leb_gt; lia).
  reflexivity.
Defined.

(** X12: the width measured for a glyph cell lies between 0 and the
    cell width, and is 0 when the cell has no pixel rows. *)
Theorem glyph_width_bounds (img : image) (char_width char_height : Z)
    (x y : nat) :
  0 <= glyph_width img char_width char_height x y <= Z.max 0 char_width
  ∧ (char_height <= 0 -> glyph_width img char_width char_height x y = 0).
Proof.
  unfold glyph_width. split.
  - match goal with |- context [scan_width ?s ?n] =>
      destruct (scan_width_spec s n) as [[-> _]|(i & Hi & -> & _)] end; lia.
  - intros Hch.
    match goal with |- context [scan_width ?s ?n] =>
      destruct (scan_width_spec s n) as [[-> _]|(i & Hi & _ & Hs & _)] end;
      [done|].
    unfold scan_bitmap_col in Hs.
    replace (Z.to_nat char_height) with 0%nat in Hs by lia. done.
Qed.

Lemma glyph_width_bounds_witness :
  glyph_width sample_image 8 0 0 0 = 0.
Proof.
  apply (proj2 (glyph_width_bounds sample_image 8 0 0 0)). lia.
Defined.

(** ** Vector fonts and space providers *)

Lemma chr_Ok code ch : chr code = Ok ch -> ch = code ∧ 0 <= code < 1114112.
Proof.
  unfold chr. destruct ((0 <=? code) && (code <? 1114112)) eqn:Hr; [|done].
  intros [= <-]. apply andb_true_iff in Hr as [H0 H1]. lia.
Qed.

Lemma convert_ttf_inv self tgt file size oversample skip q :
  convert_ttf_provider self tgt file size oversample skip = Ok q ->
  ∃ path fc adv,
    get_resource_path self tgt file "font" "" false = Ok path
    ∧ open_file self tgt path = Ok (FontFace fc)
    ∧ foldM (fun d ci =>
               e ← ttf_entry self fc (default 11 size * default 1 oversample)
                     (default 1 oversample) (skip_chars skip) ci;
               Ok (assign d e))
            (face_chars fc) [] = Ok adv
    ∧ q = space adv.
Proof.
  unfold convert_ttf_provider. intros H.
  inv_bind H as path Hp. inv_bind H as f Hf. destruct f as [| | |fc]; try done.
  inv_bind H as adv Hadv. injection H as <-. exists path, fc, adv.
  repeat (split; [done|]). split; [|done]. rewrite <- Hadv.
  apply foldM_ext_in. intros d ci _. unfold ttf_entry.
  destruct (chr ci.1) as [ch|]; [|done]. cbn [mbind result_bind].
  case_bool_decide; [done|].
  destruct (int_truediv _ 64) as [a|]; [|done]. cbn [mbind result_bind].
  by destruct (float_div_int a _).
Qed.

Lemma ttf_entry_key self fc i oversample skip ci k v :
  ttf_entry self fc i oversample skip ci = Ok (Some (k, v)) ->
  k = ci.1 ∧ (k ∉ skip) ∧ oversample ≠ 0.
Proof.
  unfold ttf_entry. intros H. inv_bind H as ch Hch.
  apply chr_Ok in Hch as [-> _]. case_bool_decide; [done|].
  inv_bind H as a Ha. inv_bind H as adv Hadv. injection H as <- _.
  repeat (split; [done|]). intros ->. unfold float_div_int in Hadv.
  by inv_bind Hadv as d Hd.
Qed.

Lemma ttf_entry_skipped self fc i oversample skip ci e :
  ttf_entry self fc i oversample skip ci = Ok e ->
  if bool_decide (ci.1 ∈ skip) then e = None
  else ∃ a advance,
         int_truediv (face_advance_x fc i ci.2) 64 = Ok a
         ∧ float_div_int a oversample = Ok advance
         ∧ e = Some (ci.1, PyFloat (advance * width_factor self)).
Proof.
  unfold ttf_entry. intros H. inv_bind H as ch Hch.
  apply chr_Ok in Hch as [-> _]. case_bool_decide; [by injection H as <-|].
  inv_bind H as a Ha. inv_bind H as adv Hadv. injection H as <-.
  by exists a, adv.
Qed.

(** X13: the advance map of a converted ttf provider has the codes of
    the face's character map that are not skipped as its keys; the
    advance of a code is that of its last entry in the character map,
    [advance.x / 64 / oversample * width_factor]; and a face with a
    character that is not skipped is converted only with an oversample
    other than 0. *)
Theorem convert_ttf_advances (self : converter) (tgt : pack) (file : string)
    (size oversample : option Z) (skip : option skip_spec)
    (path : root * string) (fc : face) (adv : dict pynum) :
  get_resource_path self tgt file "font" "" false = Ok path ->
  open_file self tgt path = Ok (FontFace fc) ->
  convert_ttf_provider self tgt file size oversample skip = Ok (space adv) ->
  (∀ k, k ∈ dict_keys adv
        <-> (∃ idx, (k, idx) ∈ face_chars fc) ∧ k ∉ skip_chars skip)
  ∧ (∀ pre code idx post,
       face_chars fc = pre ++ (code, idx) :: post ->
       code ∉ skip_chars skip ->
       Forall (fun ci => ci.1 ≠ code) post ->
       ∃ a advance,
         int_truediv (face_advance_x fc (default 11 size * default 1 oversample)
                                     idx) 64 = Ok a
         ∧ float_div_int a (default 1 oversample) = Ok advance
         ∧ dict_get adv code = Some (PyFloat (advance * width_factor self)))
  ∧ (adv ≠ [] -> default 1 oversample ≠ 0).
Proof.
  intros Hp Hf H.
  apply convert_ttf_inv in H as (path' & fc' & adv' & Hp' & Hf' & H & [= <-]).
  rewrite Hp in Hp'. injection Hp' as <-.
  rewrite Hf in Hf'. injection Hf' as <-.
  apply foldM_assign in H as (es & Hes & ->). split; [|split].
  - intros k. rewrite foldl_assign_keys. split.
    + intros [Hk|(v & Hv)]; [by apply elem_of_nil in Hk|].
      apply list_elem_of_lookup in Hv as [i Hi].
      destruct (Forall2_lookup_r _ _ _ _ _ Hes Hi) as ([code idx] & Hc & He).
      apply ttf_entry_key in He as (-> & Hskip & _). split; [|done].
      exists idx. by eapply list_elem_of_lookup_2.
    + intros [[idx Hk] Hskip]. right.
      apply list_elem_of_lookup in Hk as [i Hi].
      destruct (Forall2_lookup_l _ _ _ _ _ Hes Hi) as (e & He & Hg).
      apply ttf_entry_skipped in Hg. cbn [fst snd] in Hg.
      rewrite bool_decide_eq_false_2 in Hg by done.
      destruct Hg as (a & advance & _ & _ & ->).
      eexists. by eapply list_elem_of_lookup_2.
  - intros pre code idx post Hl Hskip Hpost. rewrite Hl in Hes.
    apply Forall2_split_l in Hes as (es1 & e & es2 & -> & _ & He & Hes2).
    apply ttf_entry_skipped in He. cbn [fst snd] in He.
    rewrite bool_decide_eq_false_2 in He by done.
    destruct He as (a & advance & Ha & Hadv & ->).
    exists a, advance. repeat (split; [done|]).
    apply foldl_assign_last. intros v' Hv'.
    apply list_elem_of_lookup in Hv' as [i Hi].
    destruct (Forall2_lookup_r _ _ _ _ _ Hes2 Hi) as (ci & Hci & He).
    apply ttf_entry_key in He as (-> & _).
    eapply Forall_lookup_1 in Hpost; [|done]. done.
  - intros Hne Hz. apply Hne. clear Hne.
    assert (Forall (fun e => e = None) es) as Hnone.
    { apply Forall_forall. intros [[k v]|] He; [|done].
      apply list_elem_of_lookup in He as [i Hi].
      destruct (Forall2_lookup_r _ _ _ _ _ Hes Hi) as (ci & _ & He).
      by apply ttf_entry_key in He as (_ & _ & Hos). }
    clear Hes. induction Hnone as [|e es -> _ IH]; [done|]. by simpl.
Qed.

Lemma convert_ttf_advances_witness :
  66 ∈ dict_keys [(65, PyFloat 5); (97, PyFloat 3.5)]
  <-> (∃ idx, (66, idx) ∈ face_chars sample_face)
      ∧ 66 ∉ skip_chars (Some (SkipList [[66]; [67; 68]])).
Proof.
  apply (proj1 (convert_ttf_advances (sample_converter ModeAscii)
                  sample_faces "minecraft:plain.ttf" None (Some 2)
                  (Some (SkipList [[66]; [67; 68]]))
                  (TargetRoot, "assets/minecraft/font/plain.ttf"%string)
                  sample_face [(65, PyFloat 5); (97, PyFloat 3.5)]
                  ltac:(vm_compute; reflexivity) ltac:(vm_compute; reflexivity)
                  ltac:(vm_compute; reflexivity)) 66).
Defined.

Lemma convert_space_fold self : ∀ advances acc adv,
  NoDup (dict_keys acc ++ dict_keys advances) ->
  foldM (fun acc kv =>
           x ← num_mul_float kv.2 (width_factor self);
           Ok (dict_set kv.1 (PyFloat x) acc))
        advances acc = Ok adv ->
  ∃ new,
    adv = acc ++ new
    ∧ Forall2 (fun kv kv' =>
                 kv'.1 = kv.1
                 ∧ ∃ x, num_mul_float kv.2 (width_factor self) = Ok x
                        ∧ kv'.2 = PyFloat x)
              advances new.
Proof.
  induction advances as [|[k v] advances IH]; intros acc adv Hnd H; simpl in H.
  - injection H as <-. exists []. by rewrite app_nil_r.
  - inv_bind H as acc' Hstep. inv_bind Hstep as x Hx.
    injection Hstep as <-. cbn [fst snd] in *.
    assert (k ∉ dict_keys acc) as Hk.
    { intros Hk. apply NoDup_app in Hnd as (_ & Hnd & _).
      apply (Hnd k Hk). left. }
    rewrite dict_set_fresh in H by done.
    apply IH in H as (new & -> & Hnew).
    + exists ((k, PyFloat x) :: new). split; [by rewrite <- app_assoc|].
      constructor; [|done]. split; [done|]. by exists x.
    + unfold dict_keys in *. rewrite fmap_app, <- app_assoc. done.
Qed.

(** X14: a space provider is converted entry by entry: the keys and
    their order are kept and each advance is multiplied by the width
    factor, which makes it a float; an integer advance too large for a
    float raises [OverflowError]. *)
Theorem convert_space_provider_entries (self : converter)
    (advances : dict pynum) :
  NoDup (dict_keys advances) ->
  (∀ q, convert_space_provider self advances = Ok q ->
     ∃ adv,
       q = space adv
       ∧ Forall2 (fun kv kv' =>
                    kv'.1 = kv.1
                    ∧ ∃ x, num_mul_float kv.2 (width_factor self) = Ok x
                           ∧ kv'.2 = PyFloat x)
                 advances adv)
  ∧ (∀ k z, (k, PyInt z) ∈ advances -> float_of_int z = Raise OverflowError ->
            ∀ q, convert_space_provider self advances ≠ Ok q).
Proof.
  intros Hnd. split.
  - intros q H. unfold convert_space_provider in H. inv_bind H as adv Hadv.
    injection H as <-. apply convert_space_fold in Hadv as (new & -> & Hnew);
      [by exists new|done].
  - intros k z Hin Hov q H. unfold convert_space_provider in H.
    inv_bind H as adv Hadv.
    destruct (foldM_Ok_each _ _ _ _ Hadv _ Hin) as (a & a' & Ha).
    cbn [fst snd num_mul_float] in Ha. unfold int_mul_float in Ha.
    by rewrite Hov in Ha.
Qed.

Lemma convert_space_provider_entries_witness :
  convert_space_provider (sample_converter ModeAscii) [(97, PyInt (2 ^ 1024))]
  ≠ Ok (space []).
Proof.
  apply (proj2 (convert_space_provider_entries (sample_converter ModeAscii)
                  [(97, PyInt (2 ^ 1024))]
                  ltac:(repeat constructor; apply not_elem_of_nil))
           97 (2 ^ 1024) ltac:(left) ltac:(vm_compute; reflexivity)
           (space [])).
Defined.

(** ** More on the font converter *)

Lemma convert_step_flat self rec rec' acc p :
  flat p -> convert_step self rec acc p = convert_step self rec' acc p.
Proof.
  intros Hp. unfold convert_step, convert_provider.
  destruct (body p) as [R| | | | |] eqn:Hb; try done. by destruct (Hp R).
Qed.

Lemma convert_step_flat_state self rec acc p acc' :
  flat p -> convert_step self rec acc p = Ok acc' -> bstate acc' = bstate acc.
Proof.
  intros Hp H. apply convert_step_buckets in H as (new & H & _).
  apply convert_provider_state in H as [(R & r & HR & _)|H]; [|done].
  by destruct (Hp R).
Qed.

Lemma convert_loop_flat_state self rec olds : ∀ acc acc',
  Forall flat olds ->
  foldM (convert_step self rec) olds acc = Ok acc' -> bstate acc' = bstate acc.
Proof.
  induction olds as [|p olds IH]; intros acc acc' Hf H; simpl in H.
  - by injection H as <-.
  - inv_bind H as acc1 H1. apply Forall_cons in Hf as [Hp Hf].
    rewrite (IH _ _ Hf H). by eapply convert_step_flat_state.
Qed.

(** X15: a font without reference providers is converted without
    recursion: one level of calls is enough, and the conversion changes
    the target pack by exactly one write, that of the new definition. *)
Theorem convert_font_flat (self : converter) (font_id : string) (st : state)
    (old_path : root * string) (olds : list provider) :
  get_font_path self (target st) font_id false = Ok old_path ->
  load_providers self (target st) old_path = Ok olds ->
  Forall flat olds ->
  (∀ depth depth',
     convert_font self (S depth) font_id st
     = convert_font self (S depth') font_id st)
  ∧ (∀ depth new_id st',
       convert_font self depth font_id st = Ok (new_id, st') ->
       ∃ new_path providers,
         get_font_path self (target st) new_id true = Ok new_path
         ∧ target st' = <[new_path.2 := FontJson providers]> (target st)
         ∧ written st' = written st ++ [(new_path.2, providers)]).
Proof.
  intros Hp Hl Hf. split.
  - intros depth depth'. cbn [convert_font]. rw_bind Hp.
    destruct (get_font_path self (target st) _ true) as [new_path|];
      [|done]. cbn [mbind result_bind]. rw_bind Hl.
    rewrite (foldM_ext_in _ (convert_step self (convert_font self depth')));
      [done|].
    intros acc p Hin. apply convert_step_flat.
    by eapply Forall_forall in Hf.
  - intros [|depth] new_id st' H; [done|]. cbn [convert_font] in H.
    inv_bind H as old_path' Hp'. rewrite Hp in Hp'. injection Hp' as <-.
    inv_bind H as new_path Hn. inv_bind H as olds' Hl'.
    rewrite Hl in Hl'. injection Hl' as <-.
    inv_bind H as acc Hacc. inv_bind H as merged Hm. injection H as <- <-.
    apply convert_loop_flat_state in Hacc; [|done]. simpl in Hacc.
    exists new_path, (other_providers acc ++ merged).
    split; [done|]. unfold store. simpl. by rewrite Hacc.
Qed.

Lemma convert_font_flat_witness :
  convert_font (sample_converter ModeAscii) 1 "other" sample_state
  = convert_font (sample_converter ModeAscii) 8 "other" sample_state.
Proof.
  apply (proj1 (convert_font_flat (sample_converter ModeAscii) "other"
                  sample_state
                  (TargetRoot, "assets/minecraft/font/other.json"%string)
                  [space [(99, PyInt 4)]]
                  ltac:(vm_compute; reflexivity) ltac:(vm_compute; reflexivity)
                  ltac:(repeat constructor; intros R; discriminate))
           0%nat 7%nat).
Defined.

(** X16: a font whose definition refers to the font itself, after
    providers that are not references, is never converted: whatever the
    recursion limit, the call does not return. *)
Theorem convert_font_self_reference (self : converter) (font_id : string)
    (st : state) (old_path : root * string) (pre post : list provider)
    (f : option json) :
  get_font_path self (target st) font_id false = Ok old_path ->
  load_providers self (target st) old_path
  = Ok (pre ++ {| body := Reference font_id; filter := f |} :: post) ->
  Forall flat pre ->
  ∀ depth r, convert_font self depth font_id st ≠ Ok r.
Proof.
  intros Hp Hl Hf depth. induction depth as [|depth IH]; intros r H; [done|].
  cbn [convert_font] in H.
  inv_bind H as old_path' Hp'. rewrite Hp in Hp'. injection Hp' as <-.
  inv_bind H as new_path Hn. inv_bind H as olds' Hl'.
  rewrite Hl in Hl'. injection Hl' as <-.
  inv_bind H as acc Hacc. clear H. rewrite foldM_app in Hacc.
  inv_bind Hacc as acc1 Hpre. apply convert_loop_flat_state in Hpre; [|done].
  simpl in Hpre, Hacc. inv_bind Hacc as acc2 Hstep. clear Hacc.
  unfold convert_step in Hstep. inv_bind Hstep as [new st1] Hconv. clear Hstep.
  unfold convert_provider in Hconv. cbn [body] in Hconv.
  inv_bind Hconv as [q st2] Href. unfold convert_reference_provider in Href.
  inv_bind Href as [new_id st3] Hrec. rewrite Hpre in Hrec.
  by apply IH in Hrec.
Qed.

Lemma convert_font_self_reference_witness :
  convert_font (sample_converter ModeAscii) 5 "loop"
    {| target := sample_loop; written := [] |}
  ≠ Ok ("loop_sp"%string, {| target := sample_loop; written := [] |}).
Proof.
  apply (convert_font_self_reference (sample_converter ModeAscii) "loop"
           {| target := sample_loop; written := [] |}
           (TargetRoot, "assets/minecraft/font/loop.json"%string)
           [space [(97, PyInt 1)]] [] None
           ltac:(vm_compute; reflexivity) ltac:(vm_compute; reflexivity)
           ltac:(repeat constructor; intros R; discriminate) 5%nat).
Defined.

Lemma get_resource_path_read_back self tgt tgt' id ty ext p :
  get_resource_path self tgt id ty ext true = Ok p ->
  is_Some (tgt' !! p.2) ->
  p.1 = TargetRoot ∧ get_resource_path self tgt' id ty ext false = Ok p.
Proof.
  unfold get_resource_path. intros H Hin. inv_bind H as [ns loc] Hs.
  cbv zeta in *. injection H as <-. split; [done|]. rw_bind Hs.
  destruct (fallback_pack self); [|done].
  by rewrite bool_decide_eq_true_2.
Qed.

(** X17: the definition that a conversion writes can be read back under
    the id the conversion returns: that id resolves to the file written
    last, in the target pack even when a fallback pack is configured,
    and the file holds the providers written. *)
Theorem convert_font_read_back (self : converter) (depth : nat)
    (font_id : string) (st : state) (new_id : string) (st' : state) :
  convert_font self depth font_id st = Ok (new_id, st') ->
  ∃ path providers,
    last (written st') = Some (path, providers)
    ∧ get_font_path self (target st') new_id false = Ok (TargetRoot, path)
    ∧ load_providers self (target st') (TargetRoot, path) = Ok providers.
Proof.
  intros H.
  apply convert_font_logs in H
    as (-> & log & new_path & providers & Hn & Hw & Ht).
  exists new_path.2, providers. split; [|split].
  - rewrite Hw, app_assoc. apply last_snoc.
  - unfold get_font_path in *.
    apply (get_resource_path_read_back _ _ (target st')) in Hn as [Hr Hn];
      [|by eauto].
    rewrite Hn. destruct new_path as [r p]. simpl in Hr. by rewrite Hr.
  - unfold load_providers, open_file. simpl. by rewrite Ht.
Qed.

Lemma convert_font_read_back_witness :
  ∃ path providers,
    last (written (store "assets/minecraft/font/other_sp.json"
                         [space [(99, PyInt 4)]] sample_state))
    = Some (path, providers)
    ∧ get_font_path (sample_converter ModeAscii)
        (target (store "assets/minecraft/font/other_sp.json"
                       [space [(99, PyInt 4)]] sample_state))
        "other_sp" false
      = Ok (TargetRoot, path)
    ∧ load_providers (sample_converter ModeAscii)
        (target (store "assets/minecraft/font/other_sp.json"
                       [space [(99, PyInt 4)]] sample_state))
        (TargetRoot, path)
      = Ok providers.
Proof.
  apply (convert_font_read_back (sample_converter ModeAscii) 1 "other"
           sample_state).
  vm_compute. reflexivity.
Defined.

Lemma emitted_other_shape self rec old new st st' p :
  convert_provider self rec old st = Ok (new, st') ->
  emitted_other (old, new) = Some p -> emitted_shape p.
Proof.
  intros Hconv He. destruct new as [q|]; [|done].
  apply convert_provider_shape in Hconv as [[id ->]|(adv & -> & _)].
  - unfold emitted_other in He. simpl in He. unfold assure_integers in He.
    simpl in He. destruct (filter old) as [f|]; injection He as <-.
    + split; [left; by eexists | done].
    + split; [left; by eexists | done].
  - unfold emitted_other in He. simpl in He.
    rewrite assure_integers_space in He.
    destruct (filter old) as [f|]; [|done]. injection He as <-.
    split; [right; by eexists | by eauto].
Qed.

Lemma others_of_shape self rec st olds news st' :
  conversions self rec st olds news st' ->
  Forall emitted_shape (others_of olds news).
Proof.
  unfold others_of. induction 1 as [|st old olds new news st1 st2 Hconv _ IH].
  - constructor.
  - cbn [zip zip_with omap list_omap].
    destruct (emitted_other (old, new)) as [q|] eqn:Hq; [|done].
    constructor; [|done]. by eapply emitted_other_shape.
Qed.

(** X18: a written definition holds reference and space providers
    only, and a space provider without a filter can only be its last
    provider: all others were merged into it. *)
Theorem emitted_definition_shape (self : converter) (depth : nat)
    (font_id : string) (st : state) (new_id : string) (st' : state) :
  convert_font self depth font_id st = Ok (new_id, st') ->
  ∃ path providers st1,
    st' = store path providers st1
    ∧ Forall (fun p => (∃ id, body p = Reference id)
                       ∨ (∃ adv, body p = Space adv)) providers
    ∧ ∀ i p, providers !! i = Some p -> is_space p = true ->
             filter p = None -> S i = length providers.
Proof.
  destruct depth as [|depth]; [done|]. intros H.
  apply convert_font_inv in H
    as (old_path & new_path & olds & news & st1 & _ & _ & _ & Hrun & _ & ->).
  exists new_path.2, (emitted olds news), st1. split; [done|].
  apply others_of_shape in Hrun. unfold emitted. split.
  - apply Forall_app. split.
    + eapply Forall_impl; [done|]. by intros p [Hp _].
    + unfold merge_advances. destruct (advances_of olds news); [constructor|].
      constructor; [right; by eexists | constructor].
  - intros i p Hi Hs Hf. rewrite length_app.
    apply lookup_app_Some in Hi as [Hi|[Hle Hi]].
    + eapply Forall_lookup_1 in Hrun as [_ Hp]; [|done].
      apply Hp in Hs. rewrite Hf in Hs. by destruct Hs.
    + unfold merge_advances in *.
      destruct (advances_of olds news); [by destruct (i - _)%nat|].
      destruct (i - length (others_of olds news))%nat as [|n] eqn:E;
        [simpl; lia | by destruct n].
Qed.

Lemma emitted_definition_shape_witness :
  ∃ path providers st1,
    store "assets/minecraft/font/other_sp.json"
          [space [(99, PyInt 4)]] sample_state
    = store path providers st1
    ∧ Forall (fun p => (∃ id, body p = Reference id)
                       ∨ (∃ adv, body p = Space adv)) providers
    ∧ ∀ i p, providers !! i = Some p -> is_space p = true ->
             filter p = None -> S i = length providers.
Proof.
  apply (emitted_definition_shape (sample_converter ModeAscii) 1 "other"
           sample_state "other_sp").
  vm_compute. reflexivity.
Defined.

Lemma dict_get_update (b : dict pynum) : ∀ a k,
  NoDup (dict_keys b) ->
  dict_get (dict_update a b) k
  = match dict_get b k with Some v => Some v | None => dict_get a k end.
Proof.
  unfold dict_update.
  induction b as [|[k' v'] b IH]; intros a k Hnd; simpl; [done|].
  apply NoDup_cons in Hnd as [Hk' Hnd]. simpl in Hk'. rewrite IH by done.
  destruct (Z.eqb_spec k' k) as [->|Hne].
  - apply dict_get_None in Hk'. rewrite Hk'. apply dict_get_set_eq.
  - destruct (dict_get b k); [done|]. by apply dict_get_set_ne.
Qed.

Lemma dict_get_fold_update (ds : list (dict pynum)) : ∀ d k,
  Forall (fun x => NoDup (dict_keys x)) ds ->
  Forall (fun d' => dict_get d' k = None) ds ->
  dict_get (fold_left dict_update ds d) k = dict_get d k.
Proof.
  induction ds as [|d' ds IH]; intros d k Hnd Hnone; simpl; [done|].
  apply Forall_cons in Hnd as [Hd' Hnd].
  apply Forall_cons in Hnone as [Hk Hnone].
  rewrite IH by done. rewrite dict_get_update by done. by rewrite Hk.
Qed.

(** X19: merging the space providers of a font gives one provider, in
    which a character has the advance of the last provider that
    defines it. *)
Theorem merge_space_providers_lookup (pre post : list (dict pynum))
    (d : dict pynum) (k : char) (v : pynum) :
  Forall (fun x => NoDup (dict_keys x)) (pre ++ d :: post) ->
  dict_get d k = Some v ->
  Forall (fun d' => dict_get d' k = None) post ->
  ∃ merged,
    merge_space_providers (space <$> pre ++ d :: post) = Ok [space merged]
    ∧ dict_get merged k = Some v.
Proof.
  intros Hnd Hk Hpost. rewrite merge_space_providers_fold by done.
  apply Forall_app in Hnd as [Hpre Hnd].
  apply Forall_cons in Hnd as [Hd Hnd].
  destruct pre as [|d0 pre]; simpl.
  - eexists. split; [done|]. by rewrite dict_get_fold_update.
  - eexists. split; [done|]. rewrite fold_left_app. simpl.
    rewrite dict_get_fold_update by done.
    rewrite dict_get_update by done. by rewrite Hk.
Qed.

Lemma merge_space_providers_lookup_witness :
  ∃ merged,
    merge_space_providers
      (space <$> [[(97, PyInt 1)]] ++ [(97, PyInt 2); (98, PyInt 3)]
                 :: [[(99, PyInt 4)]])
    = Ok [space merged]
    ∧ dict_get merged 97 = Some (PyInt 2).
Proof.
  apply (merge_space_providers_lookup [[(97, PyInt 1)]] [[(99, PyInt 4)]]
           [(97, PyInt 2); (98, PyInt 3)] 97 (PyInt 2)).
  - repeat first [ apply not_elem_of_nil
                 | apply not_elem_of_cons; split; [discriminate|]
                 | constructor ].
  - reflexivity.
  - repeat constructor.
Defined.

Lemma colons_app a b : colons (a ++ b) = (colons a + colons b)%nat.
Proof. unfold colons. by rewrite filter_app, length_app. Qed.

Lemma get_resource_path_colons self tgt id ty ext w :
  (2 <= colons (list_ascii_of_string id))%nat ->
  get_resource_path self tgt id ty ext w = Raise ValueError.
Proof.
  intros Hge. unfold get_resource_path. rewrite bool_decide_eq_true_2.
  - by rewrite (proj2 (split_colon_count _)) by lia.
  - destruct (decide (colon ∈ list_ascii_of_string id)) as [|Hn]; [done|].
    apply colons_zero in Hn. lia.
Qed.

Lemma get_resource_path_exn self tgt id ty ext w e :
  get_resource_path self tgt id ty ext w = Raise e -> e = ValueError.
Proof.
  unfold get_resource_path. case_bool_decide as Hin.
  - destruct (split_colon_count (list_ascii_of_string id)) as [H1 Hn1].
    destruct (decide (colons (list_ascii_of_string id) = 1%nat)) as [E|E].
    + destruct (H1 E) as [[a b] ->]. cbn [mbind result_bind]. cbv zeta.
      destruct w; [done|]. destruct (fallback_pack self); [|done].
      by case_bool_decide.
    + rewrite (Hn1 E). by intros [= <-].
  - cbn [mbind result_bind]. cbv zeta.
    destruct w; [done|]. destruct (fallback_pack self); [|done].
    by case_bool_decide.
Qed.

(** X20: what stops a conversion before or while it converts the
    providers: an id and a suffix that both hold a [:] raise
    [ValueError]; a definition found in neither pack raises
    [FileNotFoundError]; and a font with a provider of an unknown kind
    is never converted, the error being raised at once when that
    provider comes first. *)
Theorem convert_font_errors (self : converter) (depth : nat)
    (font_id : string) (st : state) :
  (colon ∈ list_ascii_of_string font_id ->
   colon ∈ list_ascii_of_string (suffix self) ->
   convert_font self (S depth) font_id st = Raise ValueError)
  ∧ (∀ old_path new_path,
       get_font_path self (target st) font_id false = Ok old_path ->
       get_font_path self (target st) (font_id +:+ suffix self) true
       = Ok new_path ->
       target st !! old_path.2 = None ->
       (∀ fb, fallback_pack self = Some fb -> fb !! old_path.2 = None) ->
       convert_font self (S depth) font_id st = Raise FileNotFoundError)
  ∧ (∀ old_path olds p kind,
       get_font_path self (target st) font_id false = Ok old_path ->
       load_providers self (target st) old_path = Ok olds ->
       p ∈ olds -> body p = OtherKind kind ->
       (∀ r, convert_font self depth font_id st ≠ Ok r)
       ∧ (∀ new_path rest,
            get_font_path self (target st) (font_id +:+ suffix self) true
            = Ok new_path ->
            olds = p :: rest ->
            convert_font self (S depth) font_id st
            = Raise (UnknownProvider kind))).
Proof.
  split; [|split].
  - intros Hid Hsuf. cbn [convert_font]. unfold get_font_path.
    destruct (get_resource_path self (target st) font_id _ _ false)
      as [old_path|e] eqn:Hold.
    + cbn [mbind result_bind]. rewrite get_resource_path_colons; [done|].
      rewrite list_ascii_of_string_app, colons_app.
      destruct (colons (list_ascii_of_string font_id)) eqn:E1;
        [by apply colons_zero in E1|].
      destruct (colons (list_ascii_of_string (suffix self))) eqn:E2;
        [by apply colons_zero in E2|]. lia.
    + apply get_resource_path_exn in Hold as ->. done.
  - intros old_path new_path Hold Hnew Ht Hfb. cbn [convert_font].
    rw_bind Hold. rw_bind Hnew. unfold load_providers, open_file.
    destruct old_path as [[|] p]; simpl in *.
    + by rewrite Ht.
    + destruct (fallback_pack self) as [fb|]; [|done]. simpl.
      by rewrite (Hfb fb).
  - intros old_path olds p kind Hold Hl Hp Hb. split.
    + intros r H. destruct depth as [|d]; [done|]. cbn [convert_font] in H.
      inv_bind H as old_path' Hold'. rewrite Hold in Hold'.
      injection Hold' as <-. inv_bind H as new_path Hnew.
      inv_bind H as olds' Hl'. rewrite Hl in Hl'. injection Hl' as <-.
      inv_bind H as acc Hacc.
      destruct (foldM_Ok_each _ _ _ _ Hacc p Hp) as (a & a' & Ha).
      unfold convert_step, convert_provider in Ha. by rewrite Hb in Ha.
    + intros new_path rest Hnew ->. cbn [convert_font].
      rw_bind Hold. rw_bind Hnew. rw_bind Hl. cbn [foldM].
      assert (∀ rec acc, convert_step self rec acc p
                         = Raise (UnknownProvider kind)) as ->; [|done].
      intros rec acc. unfold convert_step, convert_provider. by rewrite Hb.
Qed.

Lemma convert_font_errors_witness :
  convert_font (sample_converter ModeAscii) 1 "odd"
    {| target := sample_unknown; written := [] |}
  = Raise (UnknownProvider "legacy_unicode").
Proof.
  apply (proj2 (proj2 (proj2 (convert_font_errors (sample_converter ModeAscii)
                         0 "odd" {| target := sample_unknown; written := [] |}))
           (TargetRoot, "assets/minecraft/font/odd.json"%string)
           [ {| body := OtherKind "legacy_unicode"; filter := None |};
             space [(97, PyInt 1)] ]
           {| body := OtherKind "legacy_unicode"; filter := None |}
           "legacy_unicode"
           ltac:(vm_compute; reflexivity) ltac:(vm_compute; reflexivity)
           ltac:(left) eq_refl)
           (TargetRoot, "assets/minecraft/font/odd_sp.json"%string)
           [space [(97, PyInt 1)]]
           ltac:(vm_compute; reflexivity) eq_refl).
Defined.

Lemma get_resource_path_same_path self tgt tgt' id ty ext w w' p p' :
  get_resource_path self tgt id ty ext w = Ok p ->
  get_resource_path self tgt' id ty ext w' = Ok p' ->
  p.2 = p'.2.
Proof.
  unfold get_resource_path. intros H H'.
  inv_bind H as [ns loc] Hs. rewrite Hs in H'. cbn [mbind result_bind] in H'.
  cbv zeta in *.
  assert (∀ (w : bool) (tgt : pack) path (p : root * string),
            (if w then Ok (TargetRoot, path)
             else match fallback_pack self with
                  | None => Ok (TargetRoot, path)
                  | Some _ =>
                      if bool_decide (is_Some (tgt !! path))
                      then Ok (TargetRoot, path) else Ok (FallbackRoot, path)
                  end) = Ok p -> p.2 = path) as Hpath.
  { intros [|] t path q Hq; [by injection Hq as <-|].
    destruct (fallback_pack self); [|by injection Hq as <-].
    case_bool_decide; by injection Hq as <-. }
  apply Hpath in H. apply Hpath in H'. congruence.
Qed.

(** X21: with an empty suffix a conversion returns the id it was
    given and writes the new definition over the file of the old one in
    the target pack. *)
Theorem convert_font_empty_suffix (self : converter) (depth : nat)
    (font_id : string) (st : state) (new_id : string) (st' : state)
    (old_path : root * string) :
  suffix self = ""%string ->
  get_font_path self (target st) font_id false = Ok old_path ->
  convert_font self depth font_id st = Ok (new_id, st') ->
  new_id = font_id
  ∧ ∃ providers,
      last (written st') = Some (old_path.2, providers)
      ∧ target st' !! old_path.2 = Some (FontJson providers).
Proof.
  intros Hsuf Hold H.
  apply convert_font_logs in H
    as (-> & log & new_path & providers & Hn & Hw & Ht).
  rewrite Hsuf, string_app_nil_r in *. split; [done|].
  unfold get_font_path in *.
  rewrite (get_resource_path_same_path _ _ _ _ _ _ _ _ _ _ Hold Hn).
  exists providers. split; [|done].
  rewrite Hw, app_assoc. apply last_snoc.
Qed.

Lemma convert_font_empty_suffix_witness :
  "other"%string = "other"%string
  ∧ ∃ providers,
      last (written (store "assets/minecraft/font/other.json"
                           [space [(99, PyInt 4)]] sample_state))
      = Some ("assets/minecraft/font/other.json"%string, providers)
      ∧ target (store "assets/minecraft/font/other.json"
                      [space [(99, PyInt 4)]] sample_state)
        !! "assets/minecraft/font/other.json"%string
        = Some (FontJson providers).
Proof.
  apply (convert_font_empty_suffix
           {| suffix := ""; width_factor := 1%float;
              fallback_pack := None; mode := ModeAscii |}
           1 "other" sample_state "other"
           (store "assets/minecraft/font/other.json"
                  [space [(99, PyInt 4)]] sample_state)
           (TargetRoot, "assets/minecraft/font/other.json"%string)
           eq_refl ltac:(vm_compute; reflexivity)).
  vm_compute. reflexivity.
Defined.

Lemma string_app_assoc (a b c : string) :
  (a +:+ (b +:+ c))%string = ((a +:+ b) +:+ c)%string.
Proof.
  induction a as [|x a IH]; [done|].
  change (String x a +:+ (b +:+ c))%string with (String x (a +:+ (b +:+ c))).
  change ((String x a +:+ b) +:+ c)%string with (String x ((a +:+ b) +:+ c)).
  by rewrite IH.
Qed.

Lemma endswith_app (a b : string) : endswith (a +:+ b) b = true.
Proof.
  unfold endswith. apply bool_decide_eq_true_2.
  rewrite list_ascii_of_string_app, length_app.
  replace (length (list_ascii_of_string a) + length (list_ascii_of_string b)
           - length (list_ascii_of_string b))%nat
    with (length (list_ascii_of_string a)) by lia.
  apply drop_app_length.
Qed.

(** Every path of a font definition ends in [.json], however the
    namespace and the location are joined before it. *)
Lemma get_font_path_json_file self tgt font_id w p :
  get_font_path self tgt font_id w = Ok p -> json_file p.2.
Proof.
  unfold get_font_path, get_resource_path, json_file. intros H.
  inv_bind H as [ns loc] Hs. cbv zeta in H.
  assert (p.2 = (("assets/" +:+ ns +:+ "/" +:+ "font/" +:+ loc)
                 +:+ ".json")%string) as ->.
  { rewrite <- !string_app_assoc.
    destruct w; [by injection H as <-|].
    destruct (fallback_pack self); [|by injection H as <-].
    case_bool_decide; by injection H as <-. }
  apply endswith_app.
Qed.

Lemma preserves_refl st : preserves st st.
Proof. by intros path. Qed.

Lemma preserves_trans st1 st2 st3 :
  preserves st1 st2 -> preserves st2 st3 -> preserves st1 st3.
Proof.
  intros H12 H23 path. destruct (H12 path) as [Ha Hb].
  destruct (H23 path) as [Hc Hd]. split.
  - intros Hn. by rewrite Hc, Ha.
  - intros Hs. by apply Hd, Hb.
Qed.

Lemma preserves_store path providers st :
  json_file path -> preserves st (store path providers st).
Proof.
  intros Hfont p. unfold store. simpl. split.
  - intros Hn. apply lookup_insert_ne. by intros ->.
  - intros Hs. destruct (decide (path = p)) as [->|Hne].
    + rewrite lookup_insert_eq. by eauto.
    + by rewrite lookup_insert_ne.
Qed.

Lemma conversions_preserves self rec st olds news st1 :
  (∀ font_id st r st', rec font_id st = Ok (r, st') -> preserves st st') ->
  conversions self rec st olds news st1 -> preserves st st1.
Proof.
  intros Hrec.
  induction 1 as [|st old olds new news st1 st2 Hconv _ IH];
    [apply preserves_refl|].
  eapply preserves_trans; [|done].
  apply convert_provider_state in Hconv as [(R & r & _ & HR)| ->].
  - by eapply Hrec.
  - apply preserves_refl.
Qed.

(** X22: a conversion, nested conversions included, only ever writes
    files whose path ends in [.json]: every other file of the target
    pack (a sheet, a font face, an archive) is left as it was, and no
    file is removed. *)
Theorem convert_font_preserves (self : converter) (depth : nat) :
  ∀ font_id st new_id st',
    convert_font self depth font_id st = Ok (new_id, st') ->
    preserves st st'.
Proof.
  induction depth as [|depth IH]; intros font_id st new_id st' H; [done|].
  apply convert_font_inv in H
    as (old_path & new_path & olds & news & st1 & _ & Hn & _ & Hrun & _ & ->).
  eapply preserves_trans.
  - by eapply conversions_preserves.
  - apply preserves_store. by eapply get_font_path_json_file.
Qed.

Lemma convert_font_preserves_witness :
  preserves sample_state
    (store "assets/minecraft/font/other_sp.json" [space [(99, PyInt 4)]]
           sample_state).
Proof.
  apply (convert_font_preserves (sample_converter ModeAscii) 1 "other"
           sample_state "other_sp").
  vm_compute. reflexivity.
Defined.
